(** * Cell AI command bar: prediction and automation kernel

    A shallow embedding of the pattern engine (src/core/PatternEngine.ts),
    the storage layer appended to it (utils/storage), the string helpers
    (src/utils/helpers.ts), the workflow automation class (found at the end
    of src/ui/CommandBar.tsx) and the repetition watcher of
    standalone-cell.js, with the properties of the specification stated and
    proved (or refuted) against them.

    Conventions.
    - JavaScript numbers that hold counts are [nat]; timestamps are [Z]
      (milliseconds); scores are real numbers [R] (doubles idealised).
    - JavaScript strings are [string]; only equality of code units matters.
    - A [Record<string, T>] whose keys are enumerated with [for ... in] is an
      association list in insertion order (keys of the pattern store always
      contain a comma, so none is an array index and insertion order is the
      enumeration order).
    - [localStorage] is a record of four tables that never fails.
    - [Date.now()] is an explicit argument [now]. *)

From Stdlib Require Import String Ascii DecimalString List Arith Bool Lia ZArith Reals Lra.
Import ListNotations.

Set Implicit Arguments.

(* ================================================================== *)
(** ** Loops and array updates *)
(* ================================================================== *)

Section Loops.
Variable St : Type.

(** [for (k = s; k < s + n; k++) body] as a left fold over [seq s n]. *)
Definition for_range (s n : nat) (body : St -> nat -> St) (x : St) : St :=
  fold_left body (seq s n) x.

End Loops.

Section ListUpdate.
Variable A : Type.

(** [l[n] = v] on an array; out of range leaves the list untouched (the
    source never writes out of range, see [fill_spec]). *)
Fixpoint upd (l : list A) (n : nat) (v : A) : list A :=
  match l, n with
  | [], _ => []
  | _ :: t, 0 => v :: t
  | h :: t, S n' => h :: upd t n' v
  end.

End ListUpdate.

(* ================================================================== *)
(** ** src/utils/helpers.ts : stringSimilarity *)
(* ================================================================== *)

Module Helpers.

(** [Math.min(x, y, z)] *)
Definition min3 (x y z : nat) : nat := Nat.min (Nat.min x y) z.

(** [a[i] === b[j]] on code units; both indices are in range where the
    source evaluates it. *)
Definition charEq (a b : string) (i j : nat) : bool :=
  match String.get i a, String.get j b with
  | Some x, Some y => Ascii.eqb x y
  | None, None => true
  | _, _ => false
  end.

Definition cost (a b : string) (i j : nat) : nat :=
  if charEq a b i j then 0 else 1.

(** The matrix [Array(aLength + 1).fill(null).map(() => Array(bLength + 1).fill(0))]. *)
Definition Matrix := list (list nat).

Definition newMatrix (rows cols : nat) : Matrix := repeat (repeat 0 cols) rows.

Definition mget (m : Matrix) (i j : nat) : nat := nth j (nth i m []) 0.

(** [matrix[i][j] = v] *)
Definition mset (m : Matrix) (i j v : nat) : Matrix :=
  upd m i (upd (nth i m []) j v).

(** The three loops of [stringSimilarity], in source order. *)
Definition initColumn (aLength : nat) (m : Matrix) : Matrix :=
  for_range 0 (aLength + 1) (fun m i => mset m i 0 i) m.

Definition initRow (bLength : nat) (m : Matrix) : Matrix :=
  for_range 0 (bLength + 1) (fun m j => mset m 0 j j) m.

Definition fillCell (a b : string) (i : nat) (m : Matrix) (j : nat) : Matrix :=
  mset m i j
    (min3 (mget m (i - 1) j + 1)
          (mget m i (j - 1) + 1)
          (mget m (i - 1) (j - 1) + cost a b (i - 1) (j - 1))).

Definition fillRow (a b : string) (bLength : nat) (m : Matrix) (i : nat) : Matrix :=
  for_range 1 bLength (fillCell a b i) m.

Definition fill (a b : string) : Matrix :=
  let aLength := String.length a in
  let bLength := String.length b in
  let matrix := newMatrix (aLength + 1) (bLength + 1) in
  let matrix := initColumn aLength matrix in
  let matrix := initRow bLength matrix in
  for_range 1 aLength (fillRow a b bLength) matrix.

(** The value [matrix[aLength][bLength]] read at the end. *)
Definition editDistance (a b : string) : nat :=
  mget (fill a b) (String.length a) (String.length b).

Definition stringSimilarity (a b : string) : R :=
  if String.eqb a b then 1%R
  else if (String.length a =? 0) || (String.length b =? 0) then 0%R
  else
    let maxLength := Nat.max (String.length a) (String.length b) in
    (1 - INR (editDistance a b) / INR maxLength)%R.

(** *** Levenshtein distance, as the specification names it

    The textbook recurrence on prefix lengths: [lev a b i j] is the edit
    distance between the first [i] characters of [a] and the first [j]
    characters of [b]. *)
Fixpoint lev (a b : string) (i : nat) {struct i} : nat -> nat :=
  match i with
  | 0 => fun j => j
  | S i' =>
      fix row (j : nat) : nat :=
        match j with
        | 0 => S i'
        | S j' => min3 (lev a b i' (S j') + 1) (row j' + 1)
                       (lev a b i' j' + cost a b i' j')
        end
  end.

Definition levenshtein (a b : string) : nat :=
  lev a b (String.length a) (String.length b).

End Helpers.

(* ================================================================== *)
(** ** JavaScript strings, objects used as dictionaries, comparisons *)
(* ================================================================== *)

Module Js.

Definition comma : ascii := ","%char.

(** [s.split(',')]: never empty, [''.split(',')] is [['']]. *)
Fixpoint split (s : string) : list string :=
  match s with
  | EmptyString => [EmptyString]
  | String c s' =>
      if Ascii.eqb c comma then EmptyString :: split s'
      else match split s' with
           | [] => [String c EmptyString]
           | tok :: toks => String c tok :: toks
           end
  end.

(** [l.join(',')] *)
Definition join (l : list string) : string := String.concat "," l.

(** [s.startsWith(p)] *)
Definition startsWith (s p : string) : bool := String.prefix p s.

(** [l.slice(-n)] for [1 <= n]: the last [n] elements. *)
Definition sliceLast (A : Type) (n : nat) (l : list A) : list A :=
  skipn (length l - n) l.

(** [l.slice(i, j)] for [i <= j]. *)
Definition slice (A : Type) (i j : nat) (l : list A) : list A :=
  firstn (j - i) (skipn i l).

(** Truthiness of a string: [''] is falsy. *)
Definition truthy (s : string) : bool := negb (String.eqb s "").

(** A plain object used as a dictionary with string keys.  Entries are
    listed in the order [for ... in] visits them: insertion order, and
    assigning to an existing key keeps its place.  (JavaScript visits keys
    that are canonical array indices first; keys made of ids joined by
    commas never are, and ids are taken not to be.)  Keys inherited from
    [Object.prototype] are not modelled. *)
Definition Dict (V : Type) : Type := list (string * V).

Fixpoint dget (V : Type) (k : string) (d : Dict V) : option V :=
  match d with
  | [] => None
  | (k', v) :: d' => if String.eqb k' k then Some v else dget k d'
  end.

Fixpoint dset (V : Type) (k : string) (v : V) (d : Dict V) : Dict V :=
  match d with
  | [] => [(k, v)]
  | (k', v') :: d' =>
      if String.eqb k' k then (k', v) :: d' else (k', v') :: dset k v d'
  end.

Definition keys (V : Type) (d : Dict V) : list string := map fst d.

(** Comparisons of numbers, as booleans. *)
Definition Rgeb (x y : R) : bool := if Rle_dec y x then true else false.
Definition Rgtb (x y : R) : bool := if Rlt_dec y x then true else false.

(** [n || d] on a possibly missing number: [undefined] and [0] are falsy. *)
Definition orDefault (n : option nat) (d : nat) : nat :=
  match n with
  | Some (S m) => S m
  | _ => d
  end.

End Js.

(* ================================================================== *)
(** ** src/types.ts *)
(* ================================================================== *)

Module CellOptions.
Record t := mk {
  maxPatternLength : option nat;
  maxStoredPatterns : option nat
}.
End CellOptions.

Module Source.
Inductive t := xhr | fetch.
End Source.

Module NetworkRequest.
Record t := mk {
  id : string;
  url : string;
  method : string;
  headers : list (string * string);
  body : option string;
  timestamp : Z;
  source : Source.t
}.
End NetworkRequest.

Module ActionType.
Inductive t := api | ui | workflow.
End ActionType.

Module RequestInit.
Record t := mk {
  method : string;
  headers : list (string * string);
  body : option string
}.
End RequestInit.

Module Action.
Record t := mk {
  id : string;
  type : ActionType.t;
  description : string;
  url : option string;
  options : option RequestInit.t;
  selector : option string;
  event : option string
}.
End Action.

Module Workflow.
Record t := mk {
  id : string;
  name : string;
  description : string;
  actions : list Action.t;
  frequency : nat;
  lastExecuted : option Z
}.
End Workflow.

Module Prediction.
Record t := mk {
  confidence : R;
  action : Action.t;
  context : string
}.
End Prediction.

(* ================================================================== *)
(** ** utils/storage (the four tables kept in localStorage) *)
(* ================================================================== *)

Module Storage.
Import Js.

Record t := mk {
  requestHistory : list NetworkRequest.t;
  patterns : Dict nat;
  actions : Dict Action.t;
  workflows : Dict Workflow.t
}.

Definition empty : t := mk [] [] [] [].

Definition withHistory (s : t) h := mk h (patterns s) (actions s) (workflows s).
Definition withPatterns (s : t) p := mk (requestHistory s) p (actions s) (workflows s).
Definition withActions (s : t) a := mk (requestHistory s) (patterns s) a (workflows s).
Definition withWorkflows (s : t) w := mk (requestHistory s) (patterns s) (actions s) w.

(** [history.push(request)], then [history.splice(0, length - maxItems)]
    when the log exceeds [maxItems]. *)
Definition saveRequest (request : NetworkRequest.t) (maxItems : nat) (s : t) : t :=
  let history := (requestHistory s ++ [request])%list in
  let history :=
    if maxItems <? length history
    then skipn (length history - maxItems) history
    else history in
  withHistory s history.

Definition getRequestHistory (s : t) := requestHistory s.
Definition getPatterns (s : t) := patterns s.
Definition getActions (s : t) := actions s.
Definition getWorkflows (s : t) := workflows s.

(** [if (patterns[key]) patterns[key] += frequency else patterns[key] = frequency];
    a stored [0] is falsy and is overwritten. *)
Definition savePattern (pattern : list string) (frequency : nat) (s : t) : t :=
  let patternKey := join pattern in
  let count :=
    match dget patternKey (patterns s) with
    | Some (S n) => S n + frequency
    | _ => frequency
    end in
  withPatterns s (dset patternKey count (patterns s)).

Definition saveAction (action : Action.t) (s : t) : t :=
  withActions s (dset (Action.id action) action (actions s)).

Definition saveWorkflow (workflow : Workflow.t) (s : t) : t :=
  withWorkflows s (dset (Workflow.id workflow) workflow (workflows s)).

Definition getWorkflowById (id : string) (s : t) : option Workflow.t :=
  dget id (workflows s).

Definition incrementWorkflowFrequency (now : Z) (id : string) (s : t) : t :=
  match dget id (workflows s) with
  | Some w =>
      let w' := Workflow.mk (Workflow.id w) (Workflow.name w)
                  (Workflow.description w) (Workflow.actions w)
                  (Workflow.frequency w + 1) (Some now) in
      withWorkflows s (dset id w' (workflows s))
  | None => s
  end.

End Storage.

(* ================================================================== *)
(** ** src/core/PatternEngine.ts *)
(* ================================================================== *)

Module PatternEngine.
Import Js.

(** The fields of the class, followed by the part of the environment its
    methods act on: the storage tables, the predictions handed to each
    registered callback, and the timeouts that are pending. *)
Record t := mk {
  options : CellOptions.t;
  currentSequence : list NetworkRequest.t;
  predictionCallbacks : list nat;
  isRunning : bool;
  actionCache : Dict Action.t;
  patternAnalysisTimer : option nat;
  storage : Storage.t;
  delivered : list (nat * Prediction.t);
  pendingTimers : list nat;
  nextTimer : nat
}.

Definition withSequence st x :=
  mk (options st) x (predictionCallbacks st) (isRunning st) (actionCache st)
     (patternAnalysisTimer st) (storage st) (delivered st) (pendingTimers st)
     (nextTimer st).
Definition withRunning st x :=
  mk (options st) (currentSequence st) (predictionCallbacks st) x (actionCache st)
     (patternAnalysisTimer st) (storage st) (delivered st) (pendingTimers st)
     (nextTimer st).
Definition withCache st x :=
  mk (options st) (currentSequence st) (predictionCallbacks st) (isRunning st) x
     (patternAnalysisTimer st) (storage st) (delivered st) (pendingTimers st)
     (nextTimer st).
Definition withTimer st x pending next :=
  mk (options st) (currentSequence st) (predictionCallbacks st) (isRunning st)
     (actionCache st) x (storage st) (delivered st) pending next.
Definition withStorage st x :=
  mk (options st) (currentSequence st) (predictionCallbacks st) (isRunning st)
     (actionCache st) (patternAnalysisTimer st) x (delivered st) (pendingTimers st)
     (nextTimer st).
Definition withDelivered st x :=
  mk (options st) (currentSequence st) (predictionCallbacks st) (isRunning st)
     (actionCache st) (patternAnalysisTimer st) (storage st) x (pendingTimers st)
     (nextTimer st).

(** [constructor(options)]: defaults first, then the caller's options. *)
Definition new (opts : CellOptions.t) (store : Storage.t) : t :=
  let withDefault d o := match o with Some n => Some n | None => Some d end in
  mk (CellOptions.mk (withDefault 10 (CellOptions.maxPatternLength opts))
                     (withDefault 1000 (CellOptions.maxStoredPatterns opts)))
     [] [] false (Storage.getActions store) None store [] [] 1.

Definition maxPatternLength (st : t) : nat :=
  orDefault (CellOptions.maxPatternLength (options st)) 10.

Definition maxStoredPatterns (st : t) : nat :=
  orDefault (CellOptions.maxStoredPatterns (options st)) 1000.

Definition getContextDescription (st : t) : string :=
  match rev (currentSequence st) with
  | [] => ""%string
  | lastRequest :: _ =>
      ("After " ++ NetworkRequest.method lastRequest ++ " request to "
                ++ NetworkRequest.url lastRequest)%string
  end.

Definition onPrediction (callback : nat) (st : t) : t :=
  mk (options st) (currentSequence st) (predictionCallbacks st ++ [callback])%list
     (isRunning st) (actionCache st) (patternAnalysisTimer st) (storage st)
     (delivered st) (pendingTimers st) (nextTimer st).

Definition offPrediction (callback : nat) (st : t) : t :=
  mk (options st) (currentSequence st)
     (filter (fun cb => negb (cb =? callback)) (predictionCallbacks st))
     (isRunning st) (actionCache st) (patternAnalysisTimer st) (storage st)
     (delivered st) (pendingTimers st) (nextTimer st).

(** Each registered callback is called with the prediction; what a callback
    throws is caught. *)
Definition notifyPredictionCallbacks (prediction : Prediction.t) (st : t) : t :=
  withDelivered st
    (delivered st ++ map (fun callback => (callback, prediction)) (predictionCallbacks st))%list.

(** [actionId] is [None] when [pattern.split(',')[patternLength]] is
    [undefined]; as a property key it then reads ["undefined"], and no
    request id is strictly equal to it.  The result is [None] for [null];
    the state changes only when an action is derived. *)
Definition createPrediction (actionId : option string) (confidence : R) (st : t)
  : option (Prediction.t * t) :=
  let key := match actionId with Some s => s | None => "undefined"%string end in
  match dget key (actionCache st) with
  | Some cached =>
      Some (Prediction.mk confidence cached (getContextDescription st), st)
  | None =>
      match actionId with
      | None => None
      | Some aid =>
          match find (fun req => String.eqb (NetworkRequest.id req) aid)
                     (Storage.getRequestHistory (storage st)) with
          | None => None
          | Some request =>
              let action :=
                Action.mk aid ActionType.api
                  (NetworkRequest.method request ++ " " ++ NetworkRequest.url request)%string
                  (Some (NetworkRequest.url request))
                  (Some (RequestInit.mk (NetworkRequest.method request)
                                        (NetworkRequest.headers request)
                                        (NetworkRequest.body request)))
                  None None in
              let st' := withStorage (withCache st (dset aid action (actionCache st)))
                                     (Storage.saveAction action (storage st)) in
              Some (Prediction.mk confidence action (getContextDescription st'), st')
          end
      end
  end.

Definition sumTimestamps (l : list NetworkRequest.t) : Z :=
  fold_left (fun sum req => (sum + NetworkRequest.timestamp req)%Z) l 0%Z.

Definition calculateRecencyFactor (now : Z) (st : t) : R :=
  match currentSequence st with
  | [] => 0%R
  | _ =>
      let avgTime := (IZR (sumTimestamps (currentSequence st))
                      / INR (length (currentSequence st)))%R in
      let timeDiff := (IZR now - avgTime)%R in
      exp (- timeDiff / 3600000)
  end.

Definition calculateConfidence (now : Z) (st : t) (pattern : string) (frequency : nat) : R :=
  let frequencyFactor := Rmin (INR frequency / 10) 1 in
  let lengthFactor := Rmin (INR (length (split pattern)) / 10) 1 in
  let recencyFactor := calculateRecencyFactor now st in
  (frequencyFactor * 0.6 + lengthFactor * 0.3 + recencyFactor * 0.1)%R.

(** The test of the inner loop of [predictNextAction]. *)
Definition extends (pattern lookupPattern : string) : bool :=
  startsWith pattern lookupPattern && negb (String.eqb pattern lookupPattern).

(** The inner loop: [for (const pattern in patterns)], left at the first
    key that passes the tests and for which [createPrediction] is not
    [null]. *)
Fixpoint scanPatterns (now : Z) (patternLength : nat) (lookupPattern : string)
         (entries : Dict nat) (st : t) : option (Prediction.t * t) :=
  match entries with
  | [] => None
  | (pattern, frequency) :: rest =>
      if extends pattern lookupPattern then
        let confidence := calculateConfidence now st pattern frequency in
        if Rgeb confidence 0.3 then
          let nextActionId := nth_error (split pattern) patternLength in
          match createPrediction nextActionId confidence st with
          | Some r => Some r
          | None => scanPatterns now patternLength lookupPattern rest st
          end
        else scanPatterns now patternLength lookupPattern rest st
      else scanPatterns now patternLength lookupPattern rest st
  end.

Definition lookupKey (patternLength : nat) (sequenceIds : list string) : string :=
  join (sliceLast patternLength sequenceIds).

(** The outer loop: [patternLength] counts down to 2. *)
Fixpoint tryLengths (now : Z) (patterns : Dict nat) (sequenceIds : list string)
         (patternLength : nat) (st : t) : option (Prediction.t * t) :=
  match patternLength with
  | 0 => None
  | S shorter =>
      if 2 <=? patternLength then
        match scanPatterns now patternLength (lookupKey patternLength sequenceIds)
                           patterns st with
        | Some r => Some r
        | None => tryLengths now patterns sequenceIds shorter st
        end
      else None
  end.

(** The exact n-gram path of [predictNextAction]: the prediction handed to
    the callbacks, if any, and the state after deriving its action. *)
Definition exactMatch (now : Z) (st : t) : option (Prediction.t * t) :=
  let patterns := Storage.getPatterns (storage st) in
  let sequenceIds := map NetworkRequest.id (currentSequence st) in
  tryLengths now patterns sequenceIds
             (Nat.min (length (currentSequence st) - 1) (maxPatternLength st)) st.

(** *** fuzzyMatchAction *)

Definition totalSimilarity (request lastRequest : NetworkRequest.t) : R :=
  let urlSimilarity :=
    Helpers.stringSimilarity (NetworkRequest.url request) (NetworkRequest.url lastRequest) in
  let methodSimilarity :=
    if String.eqb (NetworkRequest.method request) (NetworkRequest.method lastRequest)
    then 1%R else 0%R in
  (urlSimilarity * 0.8 + methodSimilarity * 0.2)%R.

Definition isSimilar (lastRequest request : NetworkRequest.t) : bool :=
  negb (String.eqb (NetworkRequest.id request) (NetworkRequest.id lastRequest))
  && Rgtb (totalSimilarity request lastRequest) 0.8.

Definition similarRequests (history : list NetworkRequest.t) (lastRequest : NetworkRequest.t) :=
  filter (isSimilar lastRequest) history.

(** [history.findIndex(p)], [None] for [-1]. *)
Fixpoint findIndex (A : Type) (p : A -> bool) (l : list A) : option nat :=
  match l with
  | [] => None
  | x :: l' => if p x then Some 0 else option_map S (findIndex p l')
  end.

(** [if (!d[k]) d[k] = 0; d[k]++] *)
Definition increment (k : string) (d : Dict nat) : Dict nat :=
  dset k (S (match dget k d with Some n => n | None => 0 end)) d.

(** The body of [similarRequests.forEach]: the pair is [nextActions] and
    [totalOccurrences]. *)
Definition tallyFollower (history : list NetworkRequest.t)
           (acc : Dict nat * nat) (similarRequest : NetworkRequest.t) : Dict nat * nat :=
  match findIndex (fun req => String.eqb (NetworkRequest.id req)
                                         (NetworkRequest.id similarRequest)) history with
  | Some index =>
      if index <? length history - 1 then
        match nth_error history (index + 1) with
        | Some nextRequest =>
            (increment (NetworkRequest.id nextRequest) (fst acc), snd acc + 1)
        | None => acc
        end
      else acc
  | None => acc
  end.

Definition tally (history similar : list NetworkRequest.t) : Dict nat * nat :=
  fold_left (tallyFollower history) similar ([], 0).

(** [for (const actionId in nextActions)] keeping the first strictly
    greatest count; the pair is [bestActionId] and [bestCount]. *)
Definition pickBest (nextActions : Dict nat) : option string * nat :=
  fold_left (fun best entry =>
               if snd best <? snd entry then (Some (fst entry), snd entry) else best)
            nextActions (None, 0).

(** The prediction of the fuzzy path, before it is handed to the
    callbacks. *)
Definition fuzzyMatch (st : t) : option (Prediction.t * t) :=
  if length (currentSequence st) <? 2 then None else
  match rev (currentSequence st) with
  | [] => None
  | lastRequest :: _ =>
      let history := Storage.getRequestHistory (storage st) in
      let similar := similarRequests history lastRequest in
      if length similar =? 0 then None else
      let '(nextActions, totalOccurrences) := tally history similar in
      if totalOccurrences =? 0 then None else
      match pickBest nextActions with
      | (Some bestActionId, bestCount) =>
          if truthy bestActionId then
            createPrediction (Some bestActionId)
                             (INR bestCount / INR totalOccurrences)%R st
          else None
      | (None, _) => None
      end
  end.

Definition fuzzyMatchAction (st : t) : t :=
  match fuzzyMatch st with
  | Some (prediction, st') => notifyPredictionCallbacks prediction st'
  | None => st
  end.

Definition predictNextAction (now : Z) (st : t) : t :=
  if length (currentSequence st) <? 2 then st else
  match exactMatch now st with
  | Some (prediction, st') => notifyPredictionCallbacks prediction st'
  | None => fuzzyMatchAction st
  end.

(** *** analyzeHistoricalPatterns *)

(** [history.slice(i, i + patternLength).map(req => req.id).join(',')] *)
Definition ngramKey (history : list NetworkRequest.t) (patternLength i : nat) : string :=
  join (map NetworkRequest.id (slice i (i + patternLength) history)).

(** The two nested loops filling the local [patterns] object. *)
Definition minePatterns (maxLength : nat) (history : list NetworkRequest.t) : Dict nat :=
  for_range 2 (maxLength - 1)
    (fun patterns patternLength =>
       for_range 0 (length history + 1 - patternLength)
         (fun patterns i => increment (ngramKey history patternLength i) patterns)
         patterns)
    [].

Definition analyzeHistoricalPatterns (st : t) : t :=
  if negb (isRunning st) then st else
  let history := Storage.getRequestHistory (storage st) in
  let patterns := minePatterns (maxPatternLength st) history in
  withStorage st
    (fold_left (fun store entry => Storage.savePattern (split (fst entry)) (snd entry) store)
               patterns (storage st)).

(** *** start, stop, addRequest, and the 30 s timeout *)

Definition start (st : t) : t :=
  if isRunning st then st else analyzeHistoricalPatterns (withRunning st true).

(** [clearTimeout] cancels the pending timeout; the field keeps the stale
    handle.  Handles of [setTimeout] are positive, and only a positive
    handle is truthy. *)
Definition stop (st : t) : t :=
  if negb (isRunning st) then st else
  let st := withRunning st false in
  match patternAnalysisTimer st with
  | Some (S h) =>
      withTimer st (Some (S h))
                (filter (fun handle => negb (handle =? S h)) (pendingTimers st))
                (nextTimer st)
  | _ => st
  end.

Definition addRequest (now : Z) (request : NetworkRequest.t) (st : t) : t :=
  if negb (isRunning st) then st else
  let st := withStorage st (Storage.saveRequest request (maxStoredPatterns st) (storage st)) in
  let st := withSequence st (currentSequence st ++ [request])%list in
  let maxLength := maxPatternLength st in
  let st := if maxLength <? length (currentSequence st)
            then withSequence st (tl (currentSequence st)) else st in
  let st := predictNextAction now st in
  match patternAnalysisTimer st with
  | Some (S _) => st
  | _ =>
      withTimer st (Some (nextTimer st)) (nextTimer st :: pendingTimers st)
                (S (nextTimer st))
  end.

(** The callback of the timeout, run when [handle] is still pending. *)
Definition timerFired (handle : nat) (st : t) : t :=
  if existsb (Nat.eqb handle) (pendingTimers st) then
    let st := analyzeHistoricalPatterns st in
    withTimer st None (filter (fun h => negb (h =? handle)) (pendingTimers st))
              (nextTimer st)
  else st.

(** What can happen to an engine, and a sequence of such events. *)
Inductive Event :=
| Start
| Stop
| AddRequest (now : Z) (request : NetworkRequest.t)
| TimerFired (handle : nat).

Definition handle (e : Event) (st : t) : t :=
  match e with
  | Start => start st
  | Stop => stop st
  | AddRequest now request => addRequest now request st
  | TimerFired h => timerFired h st
  end.

Definition run (events : list Event) (st : t) : t :=
  fold_left (fun st e => handle e st) events st.

End PatternEngine.

(* ================================================================== *)
(** ** core/WorkflowAutomation (at the end of src/ui/CommandBar.tsx) *)
(* ================================================================== *)

Module WorkflowAutomation.
Import Js.

(** What the executor is waiting for between two calls of
    [processExecutionQueue]: nothing, the promise of [executeAction], or
    the 500 ms pacing timeout. *)
Inductive Waiting :=
| Idle
| Settling (action : Action.t)
| Pacing.

(** What [processExecutionQueue] did with an id it took off the queue. *)
Inductive Attempt :=
| Skipped (actionId : string)
| Missing (actionId : string)
| Called (action : Action.t).

(** The fields of the class, then the storage tables, what the executor
    waits for and the attempts made so far. *)
Record t := mk {
  workflows : Dict Workflow.t;
  detectingWorkflow : bool;
  currentWorkflow : list Action.t;
  executionQueue : list string;
  isExecuting : bool;
  storage : Storage.t;
  waiting : Waiting;
  attempts : list Attempt
}.

Definition new (store : Storage.t) : t :=
  mk (Storage.getWorkflows store) false [] [] false store Idle [].

Definition startDetection (st : t) : t :=
  if detectingWorkflow st then st
  else mk (workflows st) true [] (executionQueue st) (isExecuting st)
          (storage st) (waiting st) (attempts st).

Definition addAction (action : Action.t) (st : t) : t :=
  if negb (detectingWorkflow st) then st
  else mk (workflows st) (detectingWorkflow st) (currentWorkflow st ++ [action])
          (executionQueue st) (isExecuting st) (storage st) (waiting st) (attempts st).

(** The separator written between the two descriptions (U+2192 between
    spaces, as UTF-8 code units). *)
Definition arrow : string :=
  String " " (String (ascii_of_nat 226) (String (ascii_of_nat 134)
    (String (ascii_of_nat 146) (String " " EmptyString)))).

Definition decimal (n : nat) : string :=
  DecimalString.NilEmpty.string_of_uint (Nat.to_uint n).

(** [id] is the result of [generateId()], [now] of [Date.now()]. *)
Definition createWorkflow (now : Z) (id : string) (actions : list Action.t) (st : t)
  : Workflow.t :=
  let name := ("Workflow " ++ decimal (length (keys (workflows st)) + 1))%string in
  let description :=
    match actions, rev actions with
    | first :: _, final :: _ =>
        (Action.description first ++ arrow ++ Action.description final)%string
    | _, _ => name
    end in
  Workflow.mk id name description actions 1 (Some now).

Definition saveWorkflow (workflow : Workflow.t) (st : t) : t :=
  mk (dset (Workflow.id workflow) workflow (workflows st))
     (detectingWorkflow st) (currentWorkflow st) (executionQueue st) (isExecuting st)
     (Storage.saveWorkflow workflow (storage st)) (waiting st) (attempts st).

Definition stopDetection (now : Z) (id : string) (st : t) : option Workflow.t * t :=
  if negb (detectingWorkflow st) then (None, st) else
  let st := mk (workflows st) false (currentWorkflow st) (executionQueue st)
               (isExecuting st) (storage st) (waiting st) (attempts st) in
  if 2 <=? length (currentWorkflow st) then
    let workflow := createWorkflow now id (currentWorkflow st) st in
    (Some workflow, saveWorkflow workflow st)
  else
    (None, mk (workflows st) (detectingWorkflow st) [] (executionQueue st)
              (isExecuting st) (storage st) (waiting st) (attempts st)).

(** [for (const id in this.workflows)] with
    [workflow.actions.find(a => a.id === actionId)], first hit wins. *)
Fixpoint findAction (cache : Dict Workflow.t) (actionId : string) : option Action.t :=
  match cache with
  | [] => None
  | (_, workflow) :: rest =>
      match find (fun a => String.eqb (Action.id a) actionId) (Workflow.actions workflow) with
      | Some action => Some action
      | None => findAction rest actionId
      end
  end.

(** What is done with one id: decided by the id and the cache alone. *)
Definition attempt (cache : Dict Workflow.t) (actionId : string) : Attempt :=
  if negb (truthy actionId) then Skipped actionId
  else match findAction cache actionId with
       | None => Missing actionId
       | Some action => Called action
       end.

Definition attemptId (a : Attempt) : string :=
  match a with
  | Skipped actionId | Missing actionId => actionId
  | Called action => Action.id action
  end.

(** [processExecutionQueue] until it returns: ids are shifted off the
    queue, a falsy or unknown id leads straight to the next call, a known
    one to [executeAction] and a pending promise.  The result is the
    queue left, [isExecuting], what is waited for, and the attempts. *)
Fixpoint processQueue (cache : Dict Workflow.t) (queue : list string) (done : list Attempt)
  : list string * bool * Waiting * list Attempt :=
  match queue with
  | [] => ([], false, Idle, done)
  | actionId :: rest =>
      if negb (truthy actionId) then
        processQueue cache rest (done ++ [Skipped actionId])
      else
        match findAction cache actionId with
        | None => processQueue cache rest (done ++ [Missing actionId])
        | Some action => (rest, true, Settling action, done ++ [Called action])
        end
  end.

Definition processExecutionQueue (st : t) : t :=
  let '(queue, executing, wait, done) :=
    processQueue (workflows st) (executionQueue st) (attempts st) in
  mk (workflows st) (detectingWorkflow st) (currentWorkflow st) queue executing
     (storage st) wait done.

Definition executeWorkflow (now : Z) (workflowId : string) (st : t) : t :=
  match Storage.getWorkflowById workflowId (storage st) with
  | None => st
  | Some workflow =>
      let st := mk (workflows st) (detectingWorkflow st) (currentWorkflow st)
                   (executionQueue st ++ map Action.id (Workflow.actions workflow))
                   (isExecuting st) (storage st) (waiting st) (attempts st) in
      let st := if isExecuting st then st else processExecutionQueue st in
      mk (workflows st) (detectingWorkflow st) (currentWorkflow st) (executionQueue st)
         (isExecuting st)
         (Storage.incrementWorkflowFrequency now workflowId (storage st))
         (waiting st) (attempts st)
  end.

(** [executeAction] rejects at once unless the action is an [api] action
    with a url or a [ui] action with a selector and an event name. *)
Definition wellConfigured (action : Action.t) : bool :=
  match Action.type action with
  | ActionType.api =>
      match Action.url action with Some u => truthy u | None => false end
  | ActionType.ui =>
          match Action.selector action, Action.event action with
          | Some s, Some e => truthy s && truthy e
          | _, _ => false
          end
  | ActionType.workflow => false
  end.

(** The promise of [executeAction] settles: resolved ([ok]) starts the
    pacing timeout, rejected goes on with the queue at once. *)
Definition actionSettled (ok : bool) (st : t) : t :=
  match waiting st with
  | Settling action =>
      if ok && wellConfigured action then
        mk (workflows st) (detectingWorkflow st) (currentWorkflow st) (executionQueue st)
           (isExecuting st) (storage st) Pacing (attempts st)
      else processExecutionQueue st
  | _ => st
  end.

(** The 500 ms timeout fires. *)
Definition pacingElapsed (st : t) : t :=
  match waiting st with
  | Pacing => processExecutionQueue st
  | _ => st
  end.

(** The executor driven by its environment: [outcome k] tells whether the
    promise settled at step [k] resolves. *)
Fixpoint run (outcome : nat -> bool) (steps : nat) (st : t) : t :=
  match steps with
  | 0 => st
  | S steps' =>
      match waiting st with
      | Idle => st
      | Settling _ => run outcome steps' (actionSettled (outcome steps') st)
      | Pacing => run outcome steps' (pacingElapsed st)
      end
  end.

End WorkflowAutomation.

(* ================================================================== *)
(** ** standalone-cell.js : the repetition watcher *)
(* ================================================================== *)

Module Standalone.
Import Js.

Module Request.
Record t := mk {
  id : string;
  url : string;
  method : string;
  timestamp : Z;
  signature : string
}.
End Request.

(** The two shapes of object kept in [this.patterns]: follower statistics
    under a signature, a transition counter under ["sigA->sigB"]. *)
Inductive Entry :=
| Followers (total : nat) (followers : Dict nat)
| Repetition (count : nat) (lastSuggested : Z) (threshold : nat)
             (steps : Request.t * Request.t).

(** A call of [suggestAutomation(current, next, count)], made at [time]. *)
Module Suggestion.
Record t := mk {
  current : Request.t;
  next : Request.t;
  count : nat;
  time : Z
}.
End Suggestion.

Record t := mk {
  patterns : Dict Entry;
  suggested : list Suggestion.t
}.

Definition patternKey (current next : Request.t) : string :=
  (Request.signature current ++ "->" ++ Request.signature next)%string.

(** An entry of the other shape under the key has no [threshold]: its
    [count] becomes [NaN], the comparison is false and nothing else
    happens. *)
Definition checkForRepetitivePatterns (now : Z) (current next : Request.t) (st : t) : t :=
  if negb (truthy (Request.url current)) || negb (truthy (Request.url next)) then st
  else if String.eqb (Request.signature current) (Request.signature next) then st
  else
    let key := patternKey current next in
    let entry :=
      match dget key (patterns st) with
      | Some e => e
      | None => Repetition 0 0 3 (current, next)
      end in
    match entry with
    | Followers _ _ => st
    | Repetition count lastSuggested threshold steps =>
        let count := count + 1 in
        if (threshold <=? count) && (3600000 <? now - lastSuggested)%Z then
          mk (dset key (Repetition count now threshold steps) (patterns st))
             (suggested st ++ [Suggestion.mk current next count now])
        else
          mk (dset key (Repetition count lastSuggested threshold steps) (patterns st))
             (suggested st)
    end.

(** A call [checkForRepetitivePatterns(current, next)] made at [time]. *)
Module Check.
Record t := mk {
  time : Z;
  current : Request.t;
  next : Request.t
}.
End Check.

(** A sequence of such calls, in order. *)
Definition checks (calls : list Check.t) (st : t) : t :=
  fold_left (fun st c =>
               checkForRepetitivePatterns (Check.time c) (Check.current c)
                                          (Check.next c) st)
            calls st.

(** One iteration of the loop of [analyzePatterns]; [None] when reading
    [followers] of a transition counter raises a [TypeError]. *)
Definition analyzePair (now : Z) (current next : Request.t) (st : t) : option t :=
  let entry :=
    match dget (Request.signature current) (patterns st) with
    | Some e => e
    | None => Followers 0 []
    end in
  match entry with
  | Repetition _ _ _ _ => None
  | Followers total followers =>
      let followers :=
        dset (Request.signature next)
             (S (match dget (Request.signature next) followers with
                 | Some n => n | None => 0 end)) followers in
      let st := mk (dset (Request.signature current) (Followers (total + 1) followers)
                         (patterns st)) (suggested st) in
      Some (checkForRepetitivePatterns now current next st)
  end.

(** [analyzePatterns] over [this.requests]; [clock i] is [Date.now()] in
    iteration [i]. *)
Fixpoint analyzeFrom (clock : nat -> Z) (i : nat) (requests : list Request.t) (st : t)
  : option t :=
  match requests with
  | current :: ((next :: _) as rest) =>
      match analyzePair (clock i) current next st with
      | Some st' => analyzeFrom clock (S i) rest st'
      | None => None
      end
  | _ => Some st
  end.

Definition analyzePatterns (clock : nat -> Z) (requests : list Request.t) (st : t) : option t :=
  if length requests <? 3 then Some st else analyzeFrom clock 0 requests st.

End Standalone.

(* ================================================================== *)
(** * Properties *)
(* ================================================================== *)

(** ** Loops and array updates *)

Section LoopFacts.
Variable St : Type.

Lemma for_range_S s n (body : St -> nat -> St) x :
  for_range s (S n) body x = body (for_range s n body x) (s + n).
Proof.
  unfold for_range. rewrite seq_S, fold_left_app. reflexivity.
Qed.

(** Invariant rule: [P k] holds before iteration [k]. *)
Lemma for_range_inv (P : nat -> St -> Prop) s n (body : St -> nat -> St) x :
  P s x ->
  (forall k y, s <= k < s + n -> P k y -> P (S k) (body y k)) ->
  P (s + n) (for_range s n body x).
Proof.
  intros H0 Hstep. induction n as [|n IH].
  - rewrite Nat.add_0_r. exact H0.
  - rewrite for_range_S. replace (s + S n) with (S (s + n)) by lia.
    apply Hstep; [lia|]. apply IH. intros k y Hk. apply Hstep. lia.
Qed.
End LoopFacts.

Section UpdFacts.
Variable A : Type.
Implicit Types l : list A.

Lemma upd_length l n v : length (upd l n v) = length l.
Proof. revert n; induction l; intros [|n]; simpl; auto. Qed.

Lemma nth_upd_same l n v d : n < length l -> nth n (upd l n v) d = v.
Proof.
  revert n; induction l; intros [|n]; simpl; intros; try lia; auto.
  apply IHl. lia.
Qed.

Lemma nth_upd_other l n m v d : n <> m -> nth m (upd l n v) d = nth m l d.
Proof.
  revert n m; induction l; intros [|n] [|m]; simpl; intros; auto; try lia.
Qed.

Lemma Forall_upd (P : A -> Prop) l n v :
  Forall P l -> P v -> Forall P (upd l n v).
Proof.
  intros Hl Hv. revert n. induction Hl; intros [|n]; simpl; auto.
Qed.
End UpdFacts.

(** ** The matrix of [stringSimilarity] holds the Levenshtein recurrence *)

Module HelpersFacts.
Import Helpers.

Definition dims (m : Matrix) (rows cols : nat) : Prop :=
  length m = rows /\ Forall (fun r => length r = cols) m.

Lemma dims_row m rows cols i :
  dims m rows cols -> i < rows -> length (nth i m []) = cols.
Proof.
  intros [Hl Hf] Hi. rewrite Forall_forall in Hf. apply Hf, nth_In. lia.
Qed.

Lemma newMatrix_dims rows cols : dims (newMatrix rows cols) rows cols.
Proof.
  split; unfold newMatrix.
  - apply repeat_length.
  - apply Forall_forall. intros r Hr. apply repeat_spec in Hr. subst.
    apply repeat_length.
Qed.

Lemma mset_dims m rows cols i j v :
  dims m rows cols -> i < rows -> dims (mset m i j v) rows cols.
Proof.
  intros Hd Hi. pose proof (dims_row Hd Hi) as Hr. destruct Hd as [Hl Hf].
  split; unfold mset.
  - now rewrite upd_length.
  - apply Forall_upd; [assumption|]. now rewrite upd_length.
Qed.

Lemma mget_mset_same m rows cols i j v :
  dims m rows cols -> i < rows -> j < cols -> mget (mset m i j v) i j = v.
Proof.
  intros Hd Hi Hj. pose proof (dims_row Hd Hi) as Hr. destruct Hd as [Hl Hf].
  unfold mget, mset. rewrite nth_upd_same by lia. apply nth_upd_same. lia.
Qed.

Lemma mget_mset_other m rows cols i j v i' j' :
  dims m rows cols -> i < rows -> (i <> i' \/ j <> j') ->
  mget (mset m i j v) i' j' = mget m i' j'.
Proof.
  intros Hd Hi Hne. destruct Hd as [Hl Hf]. unfold mget, mset.
  destruct (Nat.eq_dec i i') as [->|Hii].
  - rewrite nth_upd_same by lia. apply nth_upd_other. tauto.
  - now rewrite nth_upd_other.
Qed.

Lemma lev_0_r a b i : lev a b i 0 = i.
Proof. destruct i; reflexivity. Qed.

Lemma lev_SS a b i j :
  lev a b (S i) (S j) =
  min3 (lev a b i (S j) + 1) (lev a b (S i) j + 1) (lev a b i j + cost a b i j).
Proof. reflexivity. Qed.

(** Cells that already hold their final value before cell [(i, j)] is
    written, in the row-major order of the two nested loops. *)
Definition filled (i j i' j' : nat) : Prop :=
  i' < i \/ j' = 0 \/ (i' = i /\ j' < j).

Definition holds (a b : string) (i j : nat) (m : Matrix) : Prop :=
  dims m (String.length a + 1) (String.length b + 1) /\
  forall i' j', i' <= String.length a -> j' <= String.length b ->
                filled i j i' j' -> mget m i' j' = lev a b i' j'.

Lemma init_holds a b :
  holds a b 1 0
    (initRow (String.length b)
       (initColumn (String.length a)
          (newMatrix (String.length a + 1) (String.length b + 1)))).
Proof.
  set (rows := String.length a + 1). set (cols := String.length b + 1).
  assert (Hc : dims (initColumn (String.length a) (newMatrix rows cols)) rows cols /\
               forall i, i < rows ->
                 mget (initColumn (String.length a) (newMatrix rows cols)) i 0 = i).
  { unfold initColumn. fold rows.
    pose proof (@for_range_inv Matrix
      (fun k m => dims m rows cols /\ forall i, i < k -> mget m i 0 = i)
      0 rows (fun m i => mset m i 0 i) (newMatrix rows cols)) as H.
    simpl in H. apply H; clear H.
    - split; [apply newMatrix_dims | intros; lia].
    - intros k y Hk [Hd Hy]. split; [apply mset_dims; auto; lia|].
      intros i Hi. destruct (Nat.eq_dec i k) as [->|Hne].
      + apply mget_mset_same with (rows := rows) (cols := cols); auto; unfold cols; lia.
      + rewrite mget_mset_other with (rows := rows) (cols := cols); auto; try lia.
        apply Hy. lia. }
  destruct Hc as [Hd Hcol].
  unfold initRow. fold cols.
  pose proof (@for_range_inv Matrix
    (fun k m => dims m rows cols /\ (forall i, i < rows -> mget m i 0 = i) /\
                forall j, j < k -> mget m 0 j = j)
    0 cols (fun m j => mset m 0 j j)
    (initColumn (String.length a) (newMatrix rows cols))) as H.
  simpl in H. destruct H as [Hd' [Hcol' Hrow']].
  - split; [exact Hd | split; [exact Hcol | intros; lia]].
  - intros k y Hk [Hdy [Hcy Hry]].
    assert (0 < rows) by (unfold rows; lia).
    split; [apply mset_dims; auto | split].
    + intros i Hi. destruct (Nat.eq_dec k 0) as [->|Hk0].
      * destruct (Nat.eq_dec i 0) as [->|Hi0].
        -- apply mget_mset_same with (rows := rows) (cols := cols); auto; lia.
        -- rewrite mget_mset_other with (rows := rows) (cols := cols); auto.
      * rewrite mget_mset_other with (rows := rows) (cols := cols); auto.
    + intros j Hj. destruct (Nat.eq_dec j k) as [->|Hne].
      * apply mget_mset_same with (rows := rows) (cols := cols); auto; lia.
      * rewrite mget_mset_other with (rows := rows) (cols := cols); auto; try lia.
        apply Hry. lia.
  - split; [exact Hd'|]. intros i' j' Hi' Hj' [Hlt | [-> | [-> Hlt]]].
    + assert (i' = 0) by lia. subst. rewrite Hrow' by (unfold cols; lia). reflexivity.
    + rewrite lev_0_r. apply Hcol'. unfold rows; lia.
    + lia.
Qed.

Lemma fillCell_holds a b i j m :
  1 <= i <= String.length a -> 1 <= j <= String.length b ->
  holds a b i j m -> holds a b i (S j) (fillCell a b i m j).
Proof.
  intros Hi Hj [Hd Hm]. split.
  - apply mset_dims; auto. lia.
  - intros i' j' Hi' Hj' Hf. unfold fillCell.
    destruct (Nat.eq_dec i i') as [<-|Hii]; [destruct (Nat.eq_dec j j') as [<-|Hjj]|].
    + erewrite mget_mset_same by (eauto; lia).
      destruct i as [|p]; [lia|]. destruct j as [|q]; [lia|].
      replace (S p - 1) with p by lia. replace (S q - 1) with q by lia.
      rewrite lev_SS.
      rewrite !Hm by (unfold filled; lia). reflexivity.
    + erewrite mget_mset_other by (eauto; lia).
      apply Hm; auto. unfold filled in *. lia.
    + erewrite mget_mset_other by (eauto; lia).
      apply Hm; auto. unfold filled in *. lia.
Qed.

Lemma fillRow_holds a b i m :
  1 <= i <= String.length a ->
  holds a b i 0 m -> holds a b (S i) 0 (fillRow a b (String.length b) m i).
Proof.
  intros Hi Hm. unfold fillRow.
  pose proof (@for_range_inv Matrix (fun k m => holds a b i k m)
                1 (String.length b) (fillCell a b i) m) as H.
  simpl in H. destruct H as [Hd Hr].
  - destruct Hm as [Hd Hm]. split; auto. intros i' j' ? ? Hf.
    apply Hm; auto. unfold filled in *. lia.
  - intros k y Hk Hy. apply fillCell_holds; auto. lia.
  - split; auto. intros i' j' ? ? Hf. apply Hr; auto. unfold filled in *. lia.
Qed.

Lemma fill_holds a b : holds a b (S (String.length a)) 0 (fill a b).
Proof.
  unfold fill.
  pose proof (@for_range_inv Matrix (fun k m => holds a b k 0 m)
                1 (String.length a) (fillRow a b (String.length b))
                (initRow (String.length b)
                   (initColumn (String.length a)
                      (newMatrix (String.length a + 1) (String.length b + 1))))) as H.
  simpl in H. apply H.
  - apply init_holds.
  - intros k y Hk Hy. apply fillRow_holds; auto. lia.
Qed.

(** Every cell of the finished matrix holds the recurrence; no write of
    the three loops is out of range (the dimensions are kept). *)
Lemma fill_spec a b i j :
  i <= String.length a -> j <= String.length b ->
  mget (fill a b) i j = lev a b i j.
Proof.
  intros Hi Hj. destruct (fill_holds a b) as [_ H]. apply H; auto.
  unfold filled. lia.
Qed.

Lemma editDistance_levenshtein a b : editDistance a b = levenshtein a b.
Proof. unfold editDistance, levenshtein. now apply fill_spec. Qed.

(** *** The distance is symmetric, bounded, and zero only on equal strings *)

Lemma charEq_sym a b i j : charEq a b i j = charEq b a j i.
Proof.
  unfold charEq. destruct (String.get i a), (String.get j b); auto.
  apply Ascii.eqb_sym.
Qed.

Lemma cost_sym a b i j : cost a b i j = cost b a j i.
Proof. unfold cost. now rewrite charEq_sym. Qed.

Lemma cost_le_1 a b i j : cost a b i j <= 1.
Proof. unfold cost. destruct (charEq a b i j); lia. Qed.

Lemma lev_sym a b i : forall j, lev a b i j = lev b a j i.
Proof.
  induction i as [|i IHi]; intros j.
  - now rewrite lev_0_r.
  - induction j as [|j IHj]; [reflexivity|].
    rewrite !lev_SS, IHj, !IHi, cost_sym. unfold min3. lia.
Qed.

Lemma lev_upper a b i : forall j, lev a b i j <= Nat.max i j.
Proof.
  induction i as [|i IHi]; intros j; [simpl; lia|].
  induction j as [|j IHj]; [simpl; lia|].
  rewrite lev_SS. pose proof (IHi j). pose proof (cost_le_1 a b i j).
  unfold min3. lia.
Qed.

Lemma lev_lower a b i : forall j, i - j <= lev a b i j /\ j - i <= lev a b i j.
Proof.
  induction i as [|i IHi]; intros j; [simpl; lia|].
  induction j as [|j IHj]; [simpl; lia|].
  rewrite lev_SS. pose proof (IHi j). pose proof (IHi (S j)).
  unfold min3. lia.
Qed.

Lemma lev_diag_zero a b i :
  lev a b i i = 0 -> forall k, k < i -> charEq a b k k = true.
Proof.
  induction i as [|i IHi]; intros H k Hk; [lia|].
  rewrite lev_SS in H. unfold min3 in H.
  assert (H3 : lev a b i i + cost a b i i = 0) by lia.
  destruct (Nat.eq_dec k i) as [->|Hne].
  - unfold cost in H3. destruct (charEq a b i i); [reflexivity | lia].
  - apply IHi; lia.
Qed.

Lemma charEq_all_eq a : forall b,
  String.length a = String.length b ->
  (forall k, k < String.length a -> charEq a b k k = true) -> a = b.
Proof.
  induction a as [|c a IH]; intros [|d b] Hlen Hall; simpl in Hlen; try discriminate.
  - reflexivity.
  - f_equal.
    + specialize (Hall 0 ltac:(simpl; lia)). unfold charEq in Hall. simpl in Hall.
      now apply Ascii.eqb_eq.
    + apply IH; [lia|]. intros k Hk.
      specialize (Hall (S k) ltac:(simpl; lia)). exact Hall.
Qed.

Lemma levenshtein_zero a b : levenshtein a b = 0 -> a = b.
Proof.
  unfold levenshtein. intros H.
  pose proof (lev_lower a b (String.length a) (String.length b)) as [H1 H2].
  assert (Hlen : String.length a = String.length b) by lia.
  rewrite <- Hlen in H. apply charEq_all_eq; auto.
  now apply lev_diag_zero.
Qed.

Lemma levenshtein_sym a b : levenshtein a b = levenshtein b a.
Proof. unfold levenshtein. apply lev_sym. Qed.

Lemma levenshtein_upper a b :
  levenshtein a b <= Nat.max (String.length a) (String.length b).
Proof. apply lev_upper. Qed.

(** The branch of [stringSimilarity] taken on two different non-empty
    strings. *)
Lemma stringSimilarity_neq a b :
  a <> b -> String.length a <> 0 -> String.length b <> 0 ->
  stringSimilarity a b =
  (1 - INR (levenshtein a b) / INR (Nat.max (String.length a) (String.length b)))%R.
Proof.
  intros Hne Ha Hb. unfold stringSimilarity.
  apply String.eqb_neq in Hne. rewrite Hne.
  apply Nat.eqb_neq in Ha, Hb. rewrite Ha, Hb. simpl.
  now rewrite editDistance_levenshtein.
Qed.

End HelpersFacts.

(** ** Claims about [stringSimilarity] *)

Lemma stringSimilarity_cases (a b : string) :
  (a = b /\ Helpers.stringSimilarity a b = 1%R) \/
  (a <> b /\ (String.length a = 0 \/ String.length b = 0) /\
   Helpers.stringSimilarity a b = 0%R) \/
  (a <> b /\ String.length a <> 0 /\ String.length b <> 0 /\
   0 < Helpers.levenshtein a b <= Nat.max (String.length a) (String.length b) /\
   Helpers.stringSimilarity a b =
   (1 - INR (Helpers.levenshtein a b)
        / INR (Nat.max (String.length a) (String.length b)))%R).
Proof.
  destruct (string_dec a b) as [->|Hne].
  - left. split; [reflexivity|]. unfold Helpers.stringSimilarity.
    now rewrite String.eqb_refl.
  - right.
    destruct (Nat.eq_dec (String.length a) 0) as [Ha|Ha];
      [|destruct (Nat.eq_dec (String.length b) 0) as [Hb|Hb]].
    + left. repeat split; auto. unfold Helpers.stringSimilarity.
      apply String.eqb_neq in Hne. rewrite Hne, Ha. reflexivity.
    + left. repeat split; auto. unfold Helpers.stringSimilarity.
      apply String.eqb_neq in Hne. rewrite Hne, Hb.
      now rewrite orb_true_r.
    + right. repeat split; auto.
      * destruct (Helpers.levenshtein a b) eqn:E; [|lia].
        exfalso. apply Hne. now apply HelpersFacts.levenshtein_zero.
      * apply HelpersFacts.levenshtein_upper.
      * now apply HelpersFacts.stringSimilarity_neq.
Qed.

(** For two different non-empty strings the score is [1 - d / m] with
    [0 < d <= m], hence in [[0, 1)]. *)
Lemma ratio_bounds (d m : nat) :
  0 < d <= m -> (0 <= 1 - INR d / INR m < 1)%R.
Proof.
  intros [Hd Hm].
  assert (0 < INR d)%R by (apply lt_0_INR; lia).
  assert (INR d <= INR m)%R by (apply le_INR; lia).
  assert (0 < INR m)%R by lra.
  assert (0 < INR d / INR m)%R by (apply Rdiv_lt_0_compat; lra).
  assert (INR d / INR m <= 1)%R.
  { apply Rmult_le_reg_r with (INR m); [lra|].
    unfold Rdiv. rewrite Rmult_assoc, Rinv_l by lra. lra. }
  lra.
Qed.

(** C9. For all strings [a] and [b], [stringSimilarity a b] lies in [[0,1]],
    is symmetric in its arguments, and equals 1 exactly when [a = b]. *)
Theorem stringSimilarity_range_symmetric_one (a b : string) :
  (0 <= Helpers.stringSimilarity a b <= 1)%R /\
  Helpers.stringSimilarity a b = Helpers.stringSimilarity b a /\
  (Helpers.stringSimilarity a b = 1%R <-> a = b).
Proof.
  destruct (stringSimilarity_cases a b)
    as [[Heq H1] | [[Hne [Hlen H0]] | [Hne [Ha [Hb [Hd Hs]]]]]].
  - subst b. rewrite H1. repeat split; auto; lra.
  - destruct (stringSimilarity_cases b a)
      as [[Heq' _] | [[_ [_ H0']] | [_ [Ha' [Hb' _]]]]];
      [congruence | | tauto].
    rewrite H0, H0'. repeat split; try lra; try congruence.
  - destruct (stringSimilarity_cases b a)
      as [[Heq' _] | [[_ [Hlen' _]] | [_ [_ [_ [_ Hs']]]]]];
      [congruence | tauto |].
    pose proof (ratio_bounds Hd) as Hr.
    rewrite Hs' , (HelpersFacts.levenshtein_sym b a), (Nat.max_comm (String.length b)).
    rewrite Hs. repeat split; try lra; try congruence.
Qed.

(** ** Claims about the confidence score *)

Module ConfidenceFacts.
Import Js PatternEngine.

Lemma Rmin_unit (x : R) : (0 <= x)%R -> (0 <= Rmin x 1 <= 1)%R.
Proof.
  intros Hx. unfold Rmin. destruct (Rle_dec x 1); lra.
Qed.

Lemma factor_unit (n : nat) : (0 <= Rmin (INR n / 10) 1 <= 1)%R.
Proof.
  apply Rmin_unit. pose proof (pos_INR n). lra.
Qed.

(** The weighted sum is within 0.1 times the recency factor of [[0, 0.9]]. *)
Lemma calculateConfidence_bounds now st pattern frequency :
  (calculateRecencyFactor now st * 0.1
   <= calculateConfidence now st pattern frequency
   <= 0.9 + calculateRecencyFactor now st * 0.1)%R.
Proof.
  unfold calculateConfidence.
  pose proof (factor_unit frequency).
  pose proof (factor_unit (length (split pattern))).
  lra.
Qed.

(** [now] minus the average timestamp of the window. *)
Definition timeDiff (now : Z) (st : t) : R :=
  (IZR now - IZR (sumTimestamps (currentSequence st))
             / INR (length (currentSequence st)))%R.

Lemma calculateRecencyFactor_nonempty now st :
  currentSequence st <> [] ->
  calculateRecencyFactor now st = exp (- timeDiff now st / 3600000).
Proof.
  unfold calculateRecencyFactor, timeDiff. destruct (currentSequence st); congruence.
Qed.

Lemma calculateRecencyFactor_pos now st : (0 <= calculateRecencyFactor now st)%R.
Proof.
  unfold calculateRecencyFactor. destruct (currentSequence st); [lra|].
  left. apply exp_pos.
Qed.

(** When no event of the window lies in the future of [now] on average,
    the recency factor is at most 1. *)
Lemma calculateRecencyFactor_le_1 now st :
  (0 <= timeDiff now st)%R -> (calculateRecencyFactor now st <= 1)%R.
Proof.
  intros Hd. destruct (currentSequence st) eqn:E.
  - unfold calculateRecencyFactor. rewrite E. lra.
  - rewrite calculateRecencyFactor_nonempty by congruence.
    rewrite <- exp_0.
    destruct (Req_dec (timeDiff now st) 0) as [H0|H0].
    + rewrite H0. right. f_equal. lra.
    + left. apply exp_increasing. lra.
Qed.

(** With a non-negative time difference the score is in [[0, 1]]. *)
Lemma calculateConfidence_unit now st pattern frequency :
  (0 <= timeDiff now st)%R ->
  (0 <= calculateConfidence now st pattern frequency <= 1)%R.
Proof.
  intros Hd.
  pose proof (calculateConfidence_bounds now st pattern frequency).
  pose proof (calculateRecencyFactor_pos now st).
  pose proof (calculateRecencyFactor_le_1 Hd).
  lra.
Qed.

End ConfidenceFacts.

(** ** Dictionaries and comma-joined keys *)

Module JsFacts.
Import Js.

Section DictFacts.
Variable V : Type.
Implicit Types (d : Dict V) (k : string) (v : V).

Lemma dget_dset_same k v d : dget k (dset k v d) = Some v.
Proof.
  induction d as [|[k' v'] d IH]; simpl.
  - now rewrite String.eqb_refl.
  - destruct (String.eqb k' k) eqn:E; simpl; rewrite E; auto.
Qed.

Lemma dget_dset_other k k' v d : k <> k' -> dget k' (dset k v d) = dget k' d.
Proof.
  intros Hne. induction d as [|[k0 v0] d IH]; simpl.
  - apply String.eqb_neq in Hne. now rewrite Hne.
  - destruct (String.eqb k0 k) eqn:E; simpl.
    + apply String.eqb_eq in E. subst k0.
      apply String.eqb_neq in Hne. now rewrite Hne.
    + now rewrite IH.
Qed.

Lemma in_keys_dset x k v d : In x (keys (dset k v d)) -> x = k \/ In x (keys d).
Proof.
  unfold keys. induction d as [|[k0 v0] d IH]; simpl.
  - intros [H|[]]; auto.
  - destruct (String.eqb k0 k) eqn:E; simpl; intros [H|H]; auto.
    destruct (IH H); auto.
Qed.

Lemma NoDup_keys_dset k v d : NoDup (keys d) -> NoDup (keys (dset k v d)).
Proof.
  unfold keys. induction d as [|[k0 v0] d IH]; simpl; intros Hnd.
  - constructor; [intros []|constructor].
  - inversion Hnd as [|? ? Hin Hnd']; subst.
    destruct (String.eqb k0 k) eqn:E; simpl; constructor; auto.
    intros Hin'. apply in_keys_dset in Hin' as [->|Hin']; auto.
    now rewrite String.eqb_refl in E.
Qed.

Lemma dget_not_in k d : ~ In k (keys d) -> dget k d = None.
Proof.
  unfold keys. induction d as [|[k0 v0] d IH]; simpl; intros Hn; auto.
  destruct (String.eqb k0 k) eqn:E.
  - apply String.eqb_eq in E. tauto.
  - apply IH. tauto.
Qed.

Lemma dget_in k v d : dget k d = Some v -> In (k, v) d.
Proof.
  induction d as [|[k0 v0] d IH]; simpl; [discriminate|].
  destruct (String.eqb k0 k) eqn:E; intros H.
  - apply String.eqb_eq in E. inversion H. subst. now left.
  - right. auto.
Qed.
End DictFacts.

(** The number stored under a key, 0 when the key is missing. *)
Definition count (k : string) (d : Dict nat) : nat :=
  match dget k d with Some n => n | None => 0 end.

Lemma split_nonempty s : split s <> [].
Proof.
  destruct s as [|c s]; simpl; [discriminate|].
  destruct (Ascii.eqb c comma); [discriminate|].
  destruct (split s); discriminate.
Qed.

Lemma join_cons_char c tok toks :
  join (String c tok :: toks) = String c (join (tok :: toks)).
Proof. unfold join. destruct toks; reflexivity. Qed.

(** [s.split(',').join(',')] is [s]. *)
Lemma join_split s : join (split s) = s.
Proof.
  induction s as [|c s IH]; [reflexivity|]. simpl.
  destruct (Ascii.eqb c comma) eqn:E.
  - apply Ascii.eqb_eq in E. subst c.
    pose proof (split_nonempty s) as Hne.
    unfold join in *. destruct (split s) as [|tok toks]; [congruence|].
    change (String.concat "," (EmptyString :: tok :: toks))
      with (String comma (String.concat "," (tok :: toks))).
    now rewrite IH.
  - pose proof (split_nonempty s) as Hne.
    destruct (split s) as [|tok toks]; [congruence|].
    now rewrite join_cons_char, IH.
Qed.

(** [s] holds no comma: splitting it gives [s] alone. *)
Definition commaFree (s : string) : Prop := split s = [s].

Lemma split_app_comma s rest :
  split (s ++ String comma rest) = (split s ++ split rest)%list.
Proof.
  induction s as [|c s IH]; simpl.
  - reflexivity.
  - destruct (Ascii.eqb c comma); rewrite IH; [reflexivity|].
    pose proof (split_nonempty s) as Hne.
    destruct (split s); [congruence | reflexivity].
Qed.

(** [ids.join(',').split(',')] is [ids] when no id holds a comma. *)
Lemma split_join ids :
  ids <> [] -> Forall commaFree ids -> split (join ids) = ids.
Proof.
  induction ids as [|x ids IH]; [congruence|]. intros _ Hf.
  inversion Hf as [|? ? Hx Hids]; subst.
  destruct ids as [|y ids]; [exact Hx|].
  change (join (x :: y :: ids)) with (x ++ String comma (join (y :: ids)))%string.
  rewrite split_app_comma, Hx, IH by (assumption || discriminate). reflexivity.
Qed.

End JsFacts.

(** ** Claims about the periodic rebuild *)

Module RebuildFacts.
Import Js JsFacts PatternEngine.

(** Every window the two loops of [analyzeHistoricalPatterns] visit: the
    pattern length and the start index, in loop order. *)
Definition windows (maxLength : nat) (history : list NetworkRequest.t) : list (nat * nat) :=
  flat_map (fun patternLength =>
              map (pair patternLength) (seq 0 (length history + 1 - patternLength)))
           (seq 2 (maxLength - 1)).

(** How many n-grams of the log, of any length from 2 to [maxLength], join
    to [key]. *)
Definition occurrences (key : string) (maxLength : nat)
           (history : list NetworkRequest.t) : nat :=
  length (filter (fun w => String.eqb (ngramKey history (fst w) (snd w)) key)
                 (windows maxLength history)).

(** The count stored under [key] in the persisted pattern table. *)
Definition storedCount (key : string) (st : t) : nat :=
  count key (Storage.getPatterns (storage st)).

Fixpoint rebuilds (n : nat) (st : t) : t :=
  match n with
  | 0 => st
  | S n' => analyzeHistoricalPatterns (rebuilds n' st)
  end.

Lemma count_increment k key d :
  count key (increment k d) = count key d + (if String.eqb k key then 1 else 0).
Proof.
  unfold increment, count. destruct (String.eqb k key) eqn:E.
  - apply String.eqb_eq in E. subst. rewrite dget_dset_same.
    destruct (dget key d); lia.
  - apply String.eqb_neq in E. rewrite dget_dset_other by assumption. lia.
Qed.

Lemma NoDup_keys_increment k d : NoDup (keys d) -> NoDup (keys (increment k d)).
Proof. apply NoDup_keys_dset. Qed.

Lemma minePatterns_fold maxLength history :
  minePatterns maxLength history =
  fold_left (fun patterns w => increment (ngramKey history (fst w) (snd w)) patterns)
            (windows maxLength history) [].
Proof.
  unfold minePatterns, windows, for_range.
  generalize (@nil (string * nat)) as d.
  induction (seq 2 (maxLength - 1)) as [|L Ls IH]; intros d; simpl; [reflexivity|].
  rewrite fold_left_app, IH. f_equal.
  generalize (seq 0 (length history + 1 - L)) as starts. clear.
  intros starts. revert d. induction starts as [|i starts IH]; intros d; simpl; auto.
Qed.

Lemma fold_increment_count (W : Type) (f : W -> string) key ws : forall d,
  count key (fold_left (fun patterns w => increment (f w) patterns) ws d) =
  count key d + length (filter (fun w => String.eqb (f w) key) ws).
Proof.
  induction ws as [|w ws IH]; intros d; simpl; [lia|].
  rewrite IH, count_increment. destruct (String.eqb (f w) key); simpl; lia.
Qed.

Lemma fold_increment_NoDup (W : Type) (f : W -> string) ws : forall d,
  NoDup (keys d) ->
  NoDup (keys (fold_left (fun patterns w => increment (f w) patterns) ws d)).
Proof.
  induction ws as [|w ws IH]; intros d Hd; simpl; auto.
  apply IH, NoDup_keys_increment, Hd.
Qed.

(** The local table of one pass holds, under each key, the number of
    windows that join to it. *)
Lemma minePatterns_count key maxLength history :
  count key (minePatterns maxLength history) = occurrences key maxLength history.
Proof.
  rewrite minePatterns_fold, fold_increment_count. reflexivity.
Qed.

Lemma minePatterns_NoDup maxLength history :
  NoDup (keys (minePatterns maxLength history)).
Proof.
  rewrite minePatterns_fold. apply fold_increment_NoDup. constructor.
Qed.

Lemma savePattern_count key pattern frequency store :
  count key (Storage.patterns (Storage.savePattern (split pattern) frequency store)) =
  count key (Storage.patterns store) + (if String.eqb pattern key then frequency else 0).
Proof.
  unfold Storage.savePattern. rewrite join_split. simpl. unfold count.
  destruct (String.eqb pattern key) eqn:E.
  - apply String.eqb_eq in E. subst. rewrite dget_dset_same.
    destruct (dget key (Storage.patterns store)) as [[|n]|]; lia.
  - apply String.eqb_neq in E. rewrite dget_dset_other by assumption. lia.
Qed.

Lemma saveAll_count key found : forall store,
  NoDup (keys found) ->
  count key (Storage.patterns
               (fold_left (fun store entry =>
                             Storage.savePattern (split (fst entry)) (snd entry) store)
                          found store)) =
  count key (Storage.patterns store) + count key found.
Proof.
  induction found as [|[p c] found IH]; intros store Hnd; simpl.
  - unfold count at 3. simpl. lia.
  - inversion Hnd as [|? ? Hin Hnd']; subst.
    rewrite IH by assumption. rewrite savePattern_count. simpl.
    unfold count at 4. simpl. destruct (String.eqb p key) eqn:E.
    + apply String.eqb_eq in E. subst.
      unfold count at 2. rewrite dget_not_in by assumption. lia.
    + fold (count key found). lia.
Qed.

Lemma analyze_running st key :
  isRunning st = true ->
  storedCount key (analyzeHistoricalPatterns st) =
  storedCount key st
  + occurrences key (maxPatternLength st) (Storage.requestHistory (storage st)).
Proof.
  intros Hr. unfold analyzeHistoricalPatterns, storedCount. rewrite Hr. simpl.
  unfold Storage.getPatterns, Storage.getRequestHistory.
  rewrite saveAll_count by apply minePatterns_NoDup.
  now rewrite minePatterns_count.
Qed.

Lemma analyze_stopped st : isRunning st = false -> analyzeHistoricalPatterns st = st.
Proof. intros Hr. unfold analyzeHistoricalPatterns. now rewrite Hr. Qed.

Lemma saveAll_history found : forall store,
  Storage.requestHistory
    (fold_left (fun store entry =>
                  Storage.savePattern (split (fst entry)) (snd entry) store)
               found store) = Storage.requestHistory store.
Proof.
  induction found as [|e found IH]; intros store; simpl; auto.
  now rewrite IH.
Qed.

(** A rebuild leaves the log, the options and the running flag alone. *)
Lemma analyze_frame st :
  Storage.requestHistory (storage (analyzeHistoricalPatterns st))
    = Storage.requestHistory (storage st) /\
  maxPatternLength (analyzeHistoricalPatterns st) = maxPatternLength st /\
  isRunning (analyzeHistoricalPatterns st) = isRunning st.
Proof.
  unfold analyzeHistoricalPatterns. destruct (isRunning st) eqn:Hr; simpl; auto.
  repeat split; auto. apply saveAll_history.
Qed.

Lemma rebuilds_frame n st :
  Storage.requestHistory (storage (rebuilds n st)) = Storage.requestHistory (storage st) /\
  maxPatternLength (rebuilds n st) = maxPatternLength st /\
  isRunning (rebuilds n st) = isRunning st.
Proof.
  induction n as [|n [IH1 [IH2 IH3]]]; simpl; auto.
  destruct (analyze_frame (rebuilds n st)) as [H1 [H2 H3]].
  rewrite H1, H2, H3. auto.
Qed.

(** *** Nothing but a rebuild writes the pattern table *)

Lemma createPrediction_patterns actionId confidence st p st' :
  createPrediction actionId confidence st = Some (p, st') ->
  Storage.patterns (storage st') = Storage.patterns (storage st).
Proof.
  unfold createPrediction. intros H.
  destruct (dget _ (actionCache st)); [now inversion H|].
  destruct actionId as [aid|]; [|discriminate].
  destruct (find _ _); [|discriminate]. inversion H. reflexivity.
Qed.

Lemma scanPatterns_patterns now patternLength lookupPattern entries st p st' :
  scanPatterns now patternLength lookupPattern entries st = Some (p, st') ->
  Storage.patterns (storage st') = Storage.patterns (storage st).
Proof.
  induction entries as [|[pattern frequency] entries IH]; simpl; [discriminate|].
  destruct (extends pattern lookupPattern); auto.
  destruct (Rgeb _ 0.3); auto.
  destruct (createPrediction _ _ st) as [[p0 st0]|] eqn:E; auto.
  intros H. inversion H; subst. eapply createPrediction_patterns; eauto.
Qed.

Lemma tryLengths_patterns now patterns sequenceIds st p st' : forall longest,
  tryLengths now patterns sequenceIds longest st = Some (p, st') ->
  Storage.patterns (storage st') = Storage.patterns (storage st).
Proof.
  induction longest as [|shorter IH]; simpl; [discriminate|].
  destruct shorter as [|k]; [discriminate|].
  destruct (scanPatterns now (S (S k)) _ patterns st) as [[p0 st0]|] eqn:E; auto.
  intros H. inversion H; subst. eapply scanPatterns_patterns; eauto.
Qed.

Lemma fuzzyMatch_patterns st p st' :
  fuzzyMatch st = Some (p, st') ->
  Storage.patterns (storage st') = Storage.patterns (storage st).
Proof.
  unfold fuzzyMatch.
  destruct (length (currentSequence st) <? 2); [discriminate|].
  destruct (rev (currentSequence st)) as [|lastRequest ?]; [discriminate|].
  destruct (length _ =? 0); [discriminate|].
  destruct (tally _ _) as [nextActions totalOccurrences].
  destruct (totalOccurrences =? 0); [discriminate|].
  destruct (pickBest nextActions) as [[best|] bestCount]; [|discriminate].
  destruct (truthy best); [|discriminate].
  apply createPrediction_patterns.
Qed.

Lemma predictNextAction_patterns now st :
  Storage.patterns (storage (predictNextAction now st)) = Storage.patterns (storage st).
Proof.
  unfold predictNextAction, exactMatch, fuzzyMatchAction.
  destruct (length (currentSequence st) <? 2); [reflexivity|].
  destruct (tryLengths _ _ _ _ st) as [[p st']|] eqn:E.
  - simpl. eapply tryLengths_patterns; eauto.
  - destruct (fuzzyMatch st) as [[p st']|] eqn:F; [|reflexivity].
    simpl. eapply fuzzyMatch_patterns; eauto.
Qed.

Lemma addRequest_patterns now request st :
  Storage.patterns (storage (addRequest now request st)) = Storage.patterns (storage st).
Proof.
  unfold addRequest. destruct (isRunning st); simpl; [|reflexivity].
  match goal with
  | |- context [predictNextAction now ?s] =>
      pose proof (predictNextAction_patterns now s) as H; set (s1 := s) in *
  end.
  assert (Hs1 : Storage.patterns (storage s1) = Storage.patterns (storage st)).
  { subst s1. destruct (maxPatternLength _ <? _); reflexivity. }
  destruct (patternAnalysisTimer (predictNextAction now s1)) as [[|h]|];
    simpl; congruence.
Qed.

Lemma analyze_monotone key st :
  storedCount key st <= storedCount key (analyzeHistoricalPatterns st).
Proof.
  destruct (isRunning st) eqn:Hr.
  - rewrite analyze_running by assumption. lia.
  - rewrite analyze_stopped by assumption. lia.
Qed.

Lemma handle_monotone key e st :
  storedCount key st <= storedCount key (handle e st).
Proof.
  destruct e as [| |now request|h]; simpl.
  - unfold start. destruct (isRunning st); [lia|].
    apply (analyze_monotone key (withRunning st true)).
  - unfold stop. destruct (isRunning st); simpl; [|lia].
    destruct (patternAnalysisTimer st) as [[|h]|]; unfold storedCount; simpl; lia.
  - unfold storedCount, Storage.getPatterns. rewrite addRequest_patterns. lia.
  - unfold timerFired. destruct (existsb _ _); [|lia].
    apply (analyze_monotone key st).
Qed.

Lemma run_monotone key events : forall st,
  storedCount key st <= storedCount key (run events st).
Proof.
  induction events as [|e events IH]; intros st; simpl; [lia|].
  etransitivity; [apply (handle_monotone key e st) | apply IH].
Qed.

(** A running engine with the log [a, b, a, b] and the key ["a,b"]
    already stored with count 5. *)
Definition req (id : string) : NetworkRequest.t :=
  NetworkRequest.mk id "https://app.example/x" "GET" [] None 0 Source.fetch.

Definition sampleEngine : t :=
  withRunning
    (new (CellOptions.mk None None)
         (Storage.mk [req "a"; req "b"; req "a"; req "b"] [("a,b"%string, 5)] [] []))
    true.

End RebuildFacts.

(** C4. A rebuild never decreases the count stored under a key, and neither
    does any sequence of starts, stops, added requests and timeouts (so the
    counts are non-decreasing across rebuilds over a growing log); on a
    running engine the count after a rebuild is the count before plus the
    number of n-grams of the log that join to the key, and [n] rebuilds over
    the same log add that number [n] times. *)
Theorem rebuild_counts_accumulate (st : PatternEngine.t) (key : string) :
  RebuildFacts.storedCount key st
    <= RebuildFacts.storedCount key (PatternEngine.analyzeHistoricalPatterns st) /\
  (forall events,
     RebuildFacts.storedCount key st
     <= RebuildFacts.storedCount key (PatternEngine.run events st)) /\
  (PatternEngine.isRunning st = true ->
   RebuildFacts.storedCount key (PatternEngine.analyzeHistoricalPatterns st) =
     RebuildFacts.storedCount key st
     + RebuildFacts.occurrences key (PatternEngine.maxPatternLength st)
         (Storage.requestHistory (PatternEngine.storage st)) /\
   forall n,
     RebuildFacts.storedCount key (RebuildFacts.rebuilds n st) =
       RebuildFacts.storedCount key st
       + n * RebuildFacts.occurrences key (PatternEngine.maxPatternLength st)
               (Storage.requestHistory (PatternEngine.storage st))).
Proof.
  split; [apply RebuildFacts.analyze_monotone|].
  split; [intros events; apply RebuildFacts.run_monotone|].
  intros Hr. split; [now apply RebuildFacts.analyze_running|].
  induction n as [|n IH]; simpl; [lia|].
  destruct (RebuildFacts.rebuilds_frame n st) as [H1 [H2 H3]].
  rewrite RebuildFacts.analyze_running by congruence.
  rewrite IH, H1, H2. lia.
Qed.

Lemma rebuild_counts_accumulate_witness :
  RebuildFacts.storedCount "a,b"
    (PatternEngine.analyzeHistoricalPatterns RebuildFacts.sampleEngine) = 5 + 2.
Proof.
  exact (proj1 (proj2 (proj2 (rebuild_counts_accumulate RebuildFacts.sampleEngine "a,b"))
                      eq_refl)).
Defined.

(** ** Claims about [addRequest] on an engine that is not running *)

Module EngineFacts.
Import Js PatternEngine.

Lemma new_not_running opts store : isRunning (new opts store) = false.
Proof. reflexivity. Qed.

Lemma stop_not_running st : isRunning (stop st) = false.
Proof.
  unfold stop. destruct (isRunning st) eqn:Hr; simpl; auto.
  destruct (patternAnalysisTimer st) as [[|h]|]; reflexivity.
Qed.

(** [stop] cancels the timeout the engine had scheduled. *)
Lemma stop_cancels_timer st h :
  isRunning st = true -> patternAnalysisTimer st = Some (S h) ->
  ~ In (S h) (pendingTimers (stop st)).
Proof.
  intros Hr Ht. unfold stop. rewrite Hr. simpl. rewrite Ht. simpl.
  intros Hin. apply filter_In in Hin as [_ Hin].
  now rewrite Nat.eqb_refl in Hin.
Qed.

Definition sampleRequest : NetworkRequest.t :=
  NetworkRequest.mk "r1" "https://app.example/users/1" "GET" [] None
                    1700000000000 Source.xhr.

End EngineFacts.

(** C10. On an engine that is not running, [addRequest] changes nothing:
    the current sequence, the request log, the pattern table, the action
    cache and table, the predictions delivered to callbacks and the pending
    timeouts are all as before.  This is the case of a new engine and of an
    engine after [stop]. *)
Theorem addRequest_not_running_noop (now : Z) (request : NetworkRequest.t) :
  (forall st, PatternEngine.isRunning st = false ->
              PatternEngine.addRequest now request st = st) /\
  (forall opts store,
      PatternEngine.addRequest now request (PatternEngine.new opts store)
      = PatternEngine.new opts store) /\
  (forall st,
      PatternEngine.addRequest now request (PatternEngine.stop st)
      = PatternEngine.stop st).
Proof.
  assert (H : forall st, PatternEngine.isRunning st = false ->
                         PatternEngine.addRequest now request st = st).
  { intros st Hr. unfold PatternEngine.addRequest. now rewrite Hr. }
  split; [exact H|]. split.
  - intros. apply H, EngineFacts.new_not_running.
  - intros. apply H, EngineFacts.stop_not_running.
Qed.

Lemma addRequest_not_running_noop_witness :
  PatternEngine.addRequest 1700000000500 EngineFacts.sampleRequest
    (PatternEngine.new (CellOptions.mk None None) Storage.empty)
  = PatternEngine.new (CellOptions.mk None None) Storage.empty.
Proof.
  exact (proj1 (addRequest_not_running_noop 1700000000500 EngineFacts.sampleRequest)
               (PatternEngine.new (CellOptions.mk None None) Storage.empty) eq_refl).
Defined.

(** ** Claims about workflow recording *)

Module RecorderFacts.
Import Js WorkflowAutomation.

Definition sampleAction (id : string) : Action.t :=
  Action.mk id ActionType.api ("GET /" ++ id)%string
            (Some ("https://app.example/" ++ id)%string) None None None.

(** Recording started on a fresh instance, two actions added. *)
Definition recordedTwo : t :=
  addAction (sampleAction "save")
    (addAction (sampleAction "open") (startDetection (new Storage.empty))).

Lemma recordedTwo_actions :
  detectingWorkflow recordedTwo = true /\
  currentWorkflow recordedTwo = [sampleAction "open"; sampleAction "save"].
Proof. split; reflexivity. Qed.

End RecorderFacts.

(** C7. [stopDetection] while idle returns none and changes nothing; with
    fewer than 2 accumulated actions it returns none and leaves the stored
    workflows and the cache as they were; with exactly 2 accumulated actions
    it returns a workflow holding these two actions in recorded order, with
    frequency 1, which is then found under its id both in storage and in the
    cache. *)
Theorem stopDetection_persists_from_two (now : Z) (id : string) (st : WorkflowAutomation.t) :
  (WorkflowAutomation.detectingWorkflow st = false ->
   WorkflowAutomation.stopDetection now id st = (None, st)) /\
  (length (WorkflowAutomation.currentWorkflow st) < 2 ->
   fst (WorkflowAutomation.stopDetection now id st) = None /\
   WorkflowAutomation.storage (snd (WorkflowAutomation.stopDetection now id st))
     = WorkflowAutomation.storage st /\
   WorkflowAutomation.workflows (snd (WorkflowAutomation.stopDetection now id st))
     = WorkflowAutomation.workflows st) /\
  (forall a1 a2,
     WorkflowAutomation.detectingWorkflow st = true ->
     WorkflowAutomation.currentWorkflow st = [a1; a2] ->
     exists w,
       fst (WorkflowAutomation.stopDetection now id st) = Some w /\
       Workflow.actions w = [a1; a2] /\
       Workflow.frequency w = 1 /\
       Workflow.id w = id /\
       Storage.getWorkflowById id
         (WorkflowAutomation.storage (snd (WorkflowAutomation.stopDetection now id st)))
         = Some w /\
       Js.dget id
         (WorkflowAutomation.workflows (snd (WorkflowAutomation.stopDetection now id st)))
         = Some w).
Proof.
  unfold WorkflowAutomation.stopDetection. split; [|split].
  - intros Hd. now rewrite Hd.
  - intros Hlen. destruct (WorkflowAutomation.detectingWorkflow st); simpl; auto.
    destruct (WorkflowAutomation.currentWorkflow st) as [|a [|b l]];
      simpl in *; auto; lia.
  - intros a1 a2 Hd Hc. rewrite Hd. simpl. rewrite Hc. simpl.
    eexists. repeat split; simpl.
    + unfold Storage.getWorkflowById, Storage.saveWorkflow. simpl.
      apply JsFacts.dget_dset_same.
    + apply JsFacts.dget_dset_same.
Qed.

Lemma stopDetection_persists_from_two_witness :
  exists w,
    fst (WorkflowAutomation.stopDetection 1700000000000 "wf1" RecorderFacts.recordedTwo)
      = Some w /\
    Workflow.actions w = [RecorderFacts.sampleAction "open"; RecorderFacts.sampleAction "save"] /\
    Workflow.frequency w = 1.
Proof.
  destruct (proj2 (proj2 (stopDetection_persists_from_two 1700000000000 "wf1"
                            RecorderFacts.recordedTwo))
                  (RecorderFacts.sampleAction "open") (RecorderFacts.sampleAction "save")
                  eq_refl eq_refl) as [w [H1 [H2 [H3 _]]]].
  exists w. auto.
Defined.

(** ** Claims about workflow execution *)

Module ExecutorFacts.
Import Js WorkflowAutomation.

(** The attempts made so far followed by those the queue still holds. *)
Definition planned (st : t) : list Attempt :=
  attempts st ++ map (attempt (workflows st)) (executionQueue st).

(** [isExecuting] is set exactly while a promise or the pacing timeout is
    pending, and an idle executor has an empty queue. *)
Definition consistent (st : t) : Prop :=
  match waiting st with
  | Idle => executionQueue st = [] /\ isExecuting st = false
  | _ => isExecuting st = true
  end.

(** Steps of the environment after which the executor is idle again. *)
Definition budget (st : t) : nat :=
  2 * length (executionQueue st)
  + match waiting st with Idle => 0 | Settling _ => 2 | Pacing => 1 end.

Definition executed (now : Z) (w : Workflow.t) : Workflow.t :=
  Workflow.mk (Workflow.id w) (Workflow.name w) (Workflow.description w)
              (Workflow.actions w) (Workflow.frequency w + 1) (Some now).

Lemma new_consistent store : consistent (new store).
Proof. split; reflexivity. Qed.

Lemma processQueue_spec cache queue : forall done,
  match processQueue cache queue done with
  | (queue', executing, wait, done') =>
      done' ++ map (attempt cache) queue' = done ++ map (attempt cache) queue /\
      ((wait = Idle /\ queue' = [] /\ executing = false) \/
       (exists action, wait = Settling action /\ executing = true /\
                       length queue' < length queue))
  end.
Proof.
  induction queue as [|actionId rest IH]; intros done; simpl.
  - split; auto.
  - unfold attempt at 2. destruct (negb (truthy actionId)) eqn:Et.
    + specialize (IH (done ++ [Skipped actionId])).
      destruct (processQueue cache rest (done ++ [Skipped actionId]))
        as [[[q e] w] d]. destruct IH as [IH1 IH2]. split.
      * rewrite IH1, <- app_assoc. reflexivity.
      * destruct IH2 as [?|[a [? [? ?]]]]; [now left|].
        right. exists a. repeat split; auto; simpl; lia.
    + destruct (findAction cache actionId) as [action|] eqn:Ef.
      * split; [now rewrite <- app_assoc|].
        right. exists action. repeat split; auto.
      * specialize (IH (done ++ [Missing actionId])).
        destruct (processQueue cache rest (done ++ [Missing actionId]))
          as [[[q e] w] d]. destruct IH as [IH1 IH2]. split.
        -- rewrite IH1, <- app_assoc. reflexivity.
        -- destruct IH2 as [?|[a [? [? ?]]]]; [now left|].
           right. exists a. repeat split; auto; simpl; lia.
Qed.

(** One call of [processExecutionQueue]: the plan, the cache and the
    storage are kept, and either the queue is drained or an action is in
    flight with a shorter queue behind it. *)
Lemma processExecutionQueue_spec st :
  let st' := processExecutionQueue st in
  planned st' = planned st /\ workflows st' = workflows st /\
  storage st' = storage st /\ consistent st' /\
  (waiting st' = Idle \/
   (exists action, waiting st' = Settling action) /\
   length (executionQueue st') < length (executionQueue st)).
Proof.
  unfold processExecutionQueue, planned, consistent.
  pose proof (processQueue_spec (workflows st) (executionQueue st) (attempts st)) as H.
  destruct (processQueue (workflows st) (executionQueue st) (attempts st))
    as [[[q e] w] d]. simpl. destruct H as [H1 H2].
  repeat split; auto.
  - destruct H2 as [[-> [-> ->]]|[a [-> [-> _]]]]; auto.
  - destruct H2 as [[-> _]|[a [-> [_ Hlt]]]]; [now left|].
    right. split; [now exists a | exact Hlt].
Qed.

Lemma budget_idle st : waiting st = Idle -> consistent st -> budget st = 0.
Proof.
  unfold budget, consistent. intros ->. intros [-> _]. reflexivity.
Qed.

(** One step of the environment on a busy executor. *)
Lemma step_spec (ok : bool) st :
  consistent st -> waiting st <> Idle ->
  let st' := match waiting st with
             | Pacing => pacingElapsed st
             | _ => actionSettled ok st
             end in
  planned st' = planned st /\ workflows st' = workflows st /\
  storage st' = storage st /\ consistent st' /\ budget st' < budget st.
Proof.
  intros Hc Hw. unfold actionSettled, pacingElapsed.
  destruct (waiting st) as [|action|] eqn:Ew; [congruence| |].
  - destruct (ok && wellConfigured action).
    + unfold planned, consistent, budget in *. simpl. rewrite Ew in *.
      repeat split; auto. lia.
    + destruct (processExecutionQueue_spec st) as [H1 [H2 [H3 [H4 H5]]]].
      repeat split; auto. unfold budget at 2. rewrite Ew.
      destruct H5 as [Hi|[[a Ha] Hlt]].
      * rewrite (@budget_idle _ Hi H4). lia.
      * unfold budget. rewrite Ha. lia.
  - destruct (processExecutionQueue_spec st) as [H1 [H2 [H3 [H4 H5]]]].
    repeat split; auto. unfold budget at 2. rewrite Ew.
    destruct H5 as [Hi|[[a Ha] Hlt]].
    + rewrite (@budget_idle _ Hi H4). lia.
    + unfold budget. rewrite Ha. lia.
Qed.

(** Whatever the outcomes, enough steps leave the executor idle with every
    planned attempt made, in order. *)
Lemma run_drains outcome steps : forall st,
  consistent st -> budget st <= steps ->
  let st' := run outcome steps st in
  waiting st' = Idle /\ executionQueue st' = [] /\ isExecuting st' = false /\
  attempts st' = planned st /\ workflows st' = workflows st /\
  storage st' = storage st.
Proof.
  induction steps as [|steps IH]; intros st Hc Hb; simpl.
  - unfold budget, consistent, planned in *.
    destruct (waiting st); try lia.
    assert (Hq : executionQueue st = []) by (destruct (executionQueue st); simpl in *; [auto|lia]).
    destruct Hc as [_ He]. rewrite Hq. simpl. rewrite app_nil_r.
    repeat split; auto.
  - destruct (waiting st) as [|action|] eqn:Ew.
    + unfold consistent, planned in *. rewrite Ew in *. destruct Hc as [Hq He].
      rewrite Hq. simpl. rewrite app_nil_r. repeat split; auto.
    + pose proof (@step_spec (outcome steps) st Hc ltac:(congruence)) as Hs.
      rewrite Ew in Hs. simpl in Hs. destruct Hs as [H1 [H2 [H3 [H4 H5]]]].
      destruct (IH (actionSettled (outcome steps) st) H4 ltac:(lia))
        as [G1 [G2 [G3 [G4 [G5 G6]]]]].
      repeat split; auto; congruence.
    + pose proof (@step_spec true st Hc ltac:(congruence)) as Hs.
      rewrite Ew in Hs. simpl in Hs. destruct Hs as [H1 [H2 [H3 [H4 H5]]]].
      destruct (IH (pacingElapsed st) H4 ltac:(lia))
        as [G1 [G2 [G3 [G4 [G5 G6]]]]].
      repeat split; auto; congruence.
Qed.

Lemma consistent_executing st :
  consistent st -> isExecuting st = false -> waiting st = Idle /\ executionQueue st = [].
Proof.
  unfold consistent. destruct (waiting st); intros H He; try congruence.
  destruct H; auto.
Qed.

(** The synchronous part of [executeWorkflow] on a stored workflow. *)
Lemma executeWorkflow_spec now workflowId w st :
  consistent st ->
  Storage.getWorkflowById workflowId (storage st) = Some w ->
  let st' := executeWorkflow now workflowId st in
  planned st' = attempts st
                ++ map (attempt (workflows st))
                       (executionQueue st ++ map Action.id (Workflow.actions w)) /\
  workflows st' = workflows st /\
  storage st' = Storage.incrementWorkflowFrequency now workflowId (storage st) /\
  consistent st' /\
  budget st' <= 2 * (length (executionQueue st) + length (Workflow.actions w)) + 2.
Proof.
  intros Hc Hw. unfold executeWorkflow. rewrite Hw. simpl.
  destruct (isExecuting st) eqn:He.
  - unfold planned, consistent, budget in *. simpl.
    rewrite length_app, length_map.
    repeat split; auto.
    + destruct (waiting st); auto. destruct Hc. congruence.
    + destruct (waiting st); lia.
  - destruct (@consistent_executing st Hc He) as [Hi Hq].
    match goal with |- context [processExecutionQueue ?s] => set (s0 := s) end.
    destruct (processExecutionQueue_spec s0) as [H1 [H2 [H3 [H4 H5]]]].
    split; [|split; [|split; [|split]]].
    + unfold planned at 1. simpl. fold (planned (processExecutionQueue s0)).
      rewrite H1. reflexivity.
    + simpl. exact H2.
    + simpl. rewrite H3. reflexivity.
    + unfold consistent in *. simpl. exact H4.
    + unfold budget. simpl.
      destruct H5 as [Hi'|[[a Ha] Hlt]].
      * rewrite Hi'. unfold consistent in H4. rewrite Hi' in H4.
        destruct H4 as [-> _]. simpl. lia.
      * rewrite Ha. subst s0. simpl in Hlt.
        rewrite length_app, length_map in Hlt. lia.
Qed.

(** *** A three-step workflow whose second step cannot be executed *)

Definition step (id : string) : Action.t :=
  Action.mk id ActionType.api ("POST /" ++ id)%string
            (Some ("https://app.example/" ++ id)%string) None None None.

(** An action without url: [executeAction] rejects it. *)
Definition broken (id : string) : Action.t :=
  Action.mk id ActionType.api "broken" None None None None.

Definition threeSteps : Workflow.t :=
  Workflow.mk "wf" "Workflow 1" "three steps"
              [step "s1"; broken "s2"; step "s3"] 1 None.

Definition loaded : t :=
  new (Storage.mk [] [] [] [("wf"%string, threeSteps)]).

End ExecutorFacts.

(** C5. [executeWorkflow] on a stored workflow, followed by enough steps of
    the environment, attempts every queued action id in queue order (the ids
    queued before the call first, then the ids of the workflow), whatever
    the outcome of each execution and whether or not an id resolves to an
    action; it leaves the executor idle, and stores the workflow with its
    frequency increased by exactly 1 and [lastExecuted] set to the time of
    the call. *)
Theorem executeWorkflow_attempts_all_counts_once
        (now : Z) (workflowId : string) (w : Workflow.t)
        (st : WorkflowAutomation.t) (outcome : nat -> bool) (steps : nat) :
  ExecutorFacts.consistent st ->
  Storage.getWorkflowById workflowId (WorkflowAutomation.storage st) = Some w ->
  2 * (length (WorkflowAutomation.executionQueue st) + length (Workflow.actions w)) + 2
    <= steps ->
  let st' := WorkflowAutomation.run outcome steps
               (WorkflowAutomation.executeWorkflow now workflowId st) in
  WorkflowAutomation.attempts st' =
    WorkflowAutomation.attempts st
    ++ map (WorkflowAutomation.attempt (WorkflowAutomation.workflows st))
           (WorkflowAutomation.executionQueue st ++ map Action.id (Workflow.actions w)) /\
  WorkflowAutomation.waiting st' = WorkflowAutomation.Idle /\
  WorkflowAutomation.executionQueue st' = [] /\
  Storage.getWorkflowById workflowId (WorkflowAutomation.storage st')
    = Some (ExecutorFacts.executed now w) /\
  forall other, other <> workflowId ->
    Storage.getWorkflowById other (WorkflowAutomation.storage st')
    = Storage.getWorkflowById other (WorkflowAutomation.storage st).
Proof.
  intros Hc Hw Hsteps.
  destruct (@ExecutorFacts.executeWorkflow_spec now workflowId w st Hc Hw)
    as [H1 [H2 [H3 [H4 H5]]]].
  destruct (@ExecutorFacts.run_drains outcome steps _ H4 ltac:(lia))
    as [G1 [G2 [G3 [G4 [G5 G6]]]]].
  simpl. rewrite G4, H1, G6, H3. repeat split; auto.
  - unfold Storage.getWorkflowById, Storage.incrementWorkflowFrequency in *.
    rewrite Hw. simpl. apply JsFacts.dget_dset_same.
  - intros other Hne.
    unfold Storage.getWorkflowById, Storage.incrementWorkflowFrequency in *.
    rewrite Hw. simpl. now apply JsFacts.dget_dset_other.
Qed.

Lemma executeWorkflow_attempts_all_counts_once_witness :
  let st' := WorkflowAutomation.run (fun _ => true) 8
               (WorkflowAutomation.executeWorkflow 1700000000000 "wf"
                  ExecutorFacts.loaded) in
  WorkflowAutomation.attempts st' =
    [WorkflowAutomation.Called (ExecutorFacts.step "s1");
     WorkflowAutomation.Called (ExecutorFacts.broken "s2");
     WorkflowAutomation.Called (ExecutorFacts.step "s3")] /\
  Storage.getWorkflowById "wf" (WorkflowAutomation.storage st')
    = Some (ExecutorFacts.executed 1700000000000 ExecutorFacts.threeSteps).
Proof.
  destruct (@executeWorkflow_attempts_all_counts_once 1700000000000 "wf"
              ExecutorFacts.threeSteps ExecutorFacts.loaded (fun _ => true) 8)
    as [H1 [_ [_ [H4 _]]]].
  - split; reflexivity.
  - reflexivity.
  - simpl. lia.
  - split; [exact H1 | exact H4].
Defined.

(** ** Claims about the repetition watcher *)

Module WatcherFacts.
Import Js JsFacts Standalone.

(** The pair is one the watcher counts: both urls present, two different
    signatures. *)
Definition counted (c : Check.t) : Prop :=
  truthy (Request.url (Check.current c)) = true /\
  truthy (Request.url (Check.next c)) = true /\
  Request.signature (Check.current c) <> Request.signature (Check.next c).

Definition keyOf (c : Check.t) : string :=
  patternKey (Check.current c) (Check.next c).

Definition check (c : Check.t) (st : t) : t :=
  checkForRepetitivePatterns (Check.time c) (Check.current c) (Check.next c) st.

(** The suggestions made so far for the pairs with a given key. *)
Definition suggestionsFor (key : string) (st : t) : list Suggestion.t :=
  filter (fun s => String.eqb (patternKey (Suggestion.current s) (Suggestion.next s)) key)
         (suggested st).

(** The suggestion made by a call when the count is [n]. *)
Definition suggestionOf (c : Check.t) (n : nat) : Suggestion.t :=
  Suggestion.mk (Check.current c) (Check.next c) n (Check.time c).

Lemma checks_app calls1 calls2 st :
  checks (calls1 ++ calls2) st = checks calls2 (checks calls1 st).
Proof. unfold checks. apply fold_left_app. Qed.

Lemma checks_cons c calls st : checks (c :: calls) st = checks calls (check c st).
Proof. reflexivity. Qed.

Lemma suggestionsFor_snoc key st s rest :
  suggested st = (rest ++ [s])%list ->
  suggestionsFor key st =
  (filter (fun s => String.eqb (patternKey (Suggestion.current s) (Suggestion.next s)) key)
          rest
   ++ if String.eqb (patternKey (Suggestion.current s) (Suggestion.next s)) key
      then [s] else [])%list.
Proof.
  intros E. unfold suggestionsFor. rewrite E, filter_app. simpl.
  destruct (String.eqb _ key); reflexivity.
Qed.

(** A counted call on an existing counter: the count goes up by one, and a
    suggestion is made when the threshold is reached and more than
    3,600,000 ms have passed since the last one. *)
Lemma check_counter c st count lastSuggested threshold steps :
  counted c ->
  dget (keyOf c) (patterns st) = Some (Repetition count lastSuggested threshold steps) ->
  let emit := (threshold <=? count + 1) && (3600000 <? Check.time c - lastSuggested)%Z in
  dget (keyOf c) (patterns (check c st))
    = Some (Repetition (count + 1) (if emit then Check.time c else lastSuggested)
                       threshold steps) /\
  suggested (check c st)
    = (suggested st ++ if emit then [suggestionOf c (count + 1)] else [])%list.
Proof.
  intros [Hu1 [Hu2 Hs]] Hk emit. unfold check, checkForRepetitivePatterns.
  rewrite Hu1, Hu2. simpl. apply String.eqb_neq in Hs. rewrite Hs.
  unfold keyOf in Hk. rewrite Hk. fold emit.
  destruct emit; simpl; rewrite dget_dset_same; split; auto.
  now rewrite app_nil_r.
Qed.

(** A counted call on a pair seen for the first time. *)
Lemma check_fresh c st :
  counted c -> dget (keyOf c) (patterns st) = None ->
  dget (keyOf c) (patterns (check c st))
    = Some (Repetition 1 0 3 (Check.current c, Check.next c)) /\
  suggested (check c st) = suggested st.
Proof.
  intros [Hu1 [Hu2 Hs]] Hk. unfold check, checkForRepetitivePatterns.
  rewrite Hu1, Hu2. simpl. apply String.eqb_neq in Hs. rewrite Hs.
  unfold keyOf in Hk. rewrite Hk. simpl. rewrite dget_dset_same. auto.
Qed.

(** A call changes the suggestions by at most one, for its own pair. *)
Lemma check_suggested c st :
  suggested (check c st) = suggested st \/
  exists n, suggested (check c st) = (suggested st ++ [suggestionOf c n])%list.
Proof.
  unfold check, checkForRepetitivePatterns.
  destruct (negb (truthy (Request.url (Check.current c)))
            || negb (truthy (Request.url (Check.next c)))); [now left|].
  destruct (String.eqb (Request.signature (Check.current c))
                       (Request.signature (Check.next c))); [now left|].
  destruct (match dget (patternKey (Check.current c) (Check.next c)) (patterns st) with
            | Some e => e
            | None => Repetition 0 0 3 (Check.current c, Check.next c)
            end) as [|n l th steps]; [now left|].
  destruct ((th <=? n + 1) && (3600000 <? Check.time c - l)%Z); simpl; [|now left].
  right. now exists (n + 1).
Qed.

(** A call for another key leaves the counter and the suggestions of this
    key alone. *)
Lemma check_other_key c st key :
  keyOf c <> key ->
  dget key (patterns (check c st)) = dget key (patterns st) /\
  suggestionsFor key (check c st) = suggestionsFor key st.
Proof.
  intros Hne. split.
  - unfold check, checkForRepetitivePatterns.
    destruct (negb (truthy (Request.url (Check.current c)))
              || negb (truthy (Request.url (Check.next c)))); [reflexivity|].
    destruct (String.eqb (Request.signature (Check.current c))
                         (Request.signature (Check.next c))); [reflexivity|].
    destruct (match dget (patternKey (Check.current c) (Check.next c)) (patterns st) with
              | Some e => e
              | None => Repetition 0 0 3 (Check.current c, Check.next c)
              end) as [|n l th steps]; [reflexivity|].
    destruct ((th <=? n + 1) && (3600000 <? Check.time c - l)%Z); simpl;
      now apply dget_dset_other.
  - destruct (check_suggested c st) as [E|[n E]].
    + unfold suggestionsFor. now rewrite E.
    + rewrite (@suggestionsFor_snoc key _ _ _ E). simpl.
      apply String.eqb_neq in Hne. unfold keyOf in Hne. rewrite Hne.
      now rewrite app_nil_r.
Qed.

Lemma checks_other_keys key calls : forall st,
  (forall c, In c calls -> keyOf c <> key) ->
  dget key (patterns (checks calls st)) = dget key (patterns st) /\
  suggestionsFor key (checks calls st) = suggestionsFor key st.
Proof.
  induction calls as [|c calls IH]; intros st Hall; [auto|].
  rewrite checks_cons.
  destruct (IH (check c st)) as [H1 H2]; [intros; apply Hall; now right|].
  destruct (@check_other_key c st key) as [G1 G2]; [apply Hall; now left|].
  rewrite H1, H2. auto.
Qed.

(** A call that is not counted changes nothing. *)
Lemma check_not_counted c st : ~ counted c -> check c st = st.
Proof.
  intros Hn. unfold check, checkForRepetitivePatterns.
  destruct (truthy (Request.url (Check.current c))) eqn:E1; simpl; auto.
  destruct (truthy (Request.url (Check.next c))) eqn:E2; simpl; auto.
  destruct (String.eqb (Request.signature (Check.current c))
                       (Request.signature (Check.next c))) eqn:E3; auto.
  exfalso. apply Hn. repeat split; auto. now apply String.eqb_neq.
Qed.

Lemma counted_dec c : counted c \/ ~ counted c.
Proof.
  unfold counted.
  destruct (truthy (Request.url (Check.current c)));
    destruct (truthy (Request.url (Check.next c)));
    destruct (string_dec (Request.signature (Check.current c))
                         (Request.signature (Check.next c)));
    intuition congruence.
Qed.

(** While every call for the key comes within 3,600,000 ms of the last
    suggestion, no suggestion is made for it, whatever else is checked in
    between. *)
Lemma checks_cooldown key last threshold steps calls : forall st count,
  dget key (patterns st) = Some (Repetition count last threshold steps) ->
  (forall c, In c calls -> keyOf c = key -> (Check.time c - last <= 3600000)%Z) ->
  suggestionsFor key (checks calls st) = suggestionsFor key st /\
  exists count',
    dget key (patterns (checks calls st))
    = Some (Repetition count' last threshold steps).
Proof.
  induction calls as [|c calls IH]; intros st count Hk Hall; [eauto|].
  rewrite checks_cons.
  assert (Hrest : forall c', In c' calls -> keyOf c' = key ->
                             (Check.time c' - last <= 3600000)%Z)
    by (intros; apply Hall; auto; now right).
  destruct (string_dec (keyOf c) key) as [Ekey|Hne].
  - destruct (counted_dec c) as [Hc|Hn].
    + rewrite <- Ekey in Hk.
      destruct (@check_counter c st _ _ _ _ Hc Hk) as [H1 H2].
      assert (Ht : (3600000 <? Check.time c - last)%Z = false).
      { apply Z.ltb_ge. apply Hall; auto. now left. }
      rewrite Ht, andb_false_r in H1, H2. rewrite app_nil_r in H2.
      rewrite Ekey in H1.
      destruct (IH (check c st) (count + 1) H1 Hrest) as [G1 G2].
      split; [|exact G2]. rewrite G1. unfold suggestionsFor. now rewrite H2.
    + rewrite (@check_not_counted c st Hn). now apply (IH st count).
  - destruct (@check_other_key c st key Hne) as [H1 H2].
    rewrite <- H1 in Hk.
    destruct (IH (check c st) count Hk Hrest) as [G1 G2].
    split; [|exact G2]. now rewrite G1.
Qed.

(** *** Two requests that alternate *)

Definition get (path : string) : Request.t :=
  Request.mk path ("https://app.example" ++ path)%string "GET" 1700000000000
             ("GET:https://app.example" ++ path)%string.

Definition listRequest : Request.t := get "/orders".
Definition exportRequest : Request.t := get "/orders/export".
Definition homeRequest : Request.t := get "/home".

(** The pair list -> export checked at [time]. *)
Definition listThenExport (time : Z) : Check.t :=
  Check.mk time listRequest exportRequest.

(** Another pair, export -> home, checked at [time]. *)
Definition exportThenHome (time : Z) : Check.t :=
  Check.mk time exportRequest homeRequest.

Lemma listThenExport_counted time : counted (listThenExport time).
Proof. repeat split; try reflexivity. discriminate. Qed.

(** Two passes of [analyzePatterns], ten seconds apart, over a log where
    the pair occurs three times.  Each pass counts every adjacent pair of
    the whole log again: the pair reaches 3 in the first pass and is
    suggested once, although it is counted up to 6 in the second; the
    reverse pair, seen twice per pass, reaches 3 in the second pass. *)
Example analyzePatterns_two_passes :
  let requests := [listRequest; exportRequest; listRequest; exportRequest;
                   listRequest; exportRequest] in
  option_map suggested
    (match analyzePatterns (fun _ => 1700000010000%Z) requests (mk [] []) with
     | Some st => analyzePatterns (fun _ => 1700000020000%Z) requests st
     | None => None
     end)
  = Some [Suggestion.mk listRequest exportRequest 3 1700000010000;
          Suggestion.mk exportRequest listRequest 3 1700000020000].
Proof. vm_compute. reflexivity. Qed.

End WatcherFacts.

(** C6. Take a pair key the watcher has not counted before and any sequence
    of checks in which three counted checks [c1], [c2], [c3] of pairs with
    this key (two different signatures, both urls present) occur in this
    order, with checks for other keys anywhere in between, and in which
    every later check for the key comes within 3,600,000 ms of [c3].  No
    suggestion for the key is made up to and after [c2]; exactly one is
    made, at [c3], with count 3; none is added by the later checks.  ([c3]
    is made more than one hour after the epoch, as every [Date.now()] is.) *)
Theorem suggestion_once_at_third_count
        (key : string) (st : Standalone.t)
        (c1 c2 c3 : Standalone.Check.t)
        (others0 others1 others2 later : list Standalone.Check.t) :
  Js.dget key (Standalone.patterns st) = None ->
  (forall c, In c (others0 ++ others1 ++ others2) -> WatcherFacts.keyOf c <> key) ->
  (forall c, In c [c1; c2; c3] -> WatcherFacts.keyOf c = key /\ WatcherFacts.counted c) ->
  (3600000 < Standalone.Check.time c3)%Z ->
  (forall c, In c later -> WatcherFacts.keyOf c = key ->
             (Standalone.Check.time c - Standalone.Check.time c3 <= 3600000)%Z) ->
  let upToSecond := (others0 ++ c1 :: others1 ++ c2 :: others2)%list in
  WatcherFacts.suggestionsFor key (Standalone.checks upToSecond st)
    = WatcherFacts.suggestionsFor key st /\
  WatcherFacts.suggestionsFor key (Standalone.checks (upToSecond ++ [c3]) st)
    = (WatcherFacts.suggestionsFor key st ++ [WatcherFacts.suggestionOf c3 3])%list /\
  WatcherFacts.suggestionsFor key (Standalone.checks (upToSecond ++ c3 :: later) st)
    = (WatcherFacts.suggestionsFor key st ++ [WatcherFacts.suggestionOf c3 3])%list.
Proof.
  intros Hk Hothers Hcalls Ht3 Hlater upToSecond.
  destruct (Hcalls c1 ltac:(simpl; auto)) as [K1 C1].
  destruct (Hcalls c2 ltac:(simpl; auto)) as [K2 C2].
  destruct (Hcalls c3 ltac:(simpl; auto)) as [K3 C3].
  (* up to the first check *)
  destruct (@WatcherFacts.checks_other_keys key others0 st) as [D0 S0].
  { intros c Hc. apply Hothers. apply in_or_app. now left. }
  set (s0 := Standalone.checks others0 st) in *.
  rewrite Hk in D0. rewrite <- K1 in D0.
  destruct (@WatcherFacts.check_fresh c1 s0 C1 D0) as [D1 S1]. rewrite K1 in D1.
  set (s1 := WatcherFacts.check c1 s0) in *.
  (* up to the second check *)
  destruct (@WatcherFacts.checks_other_keys key others1 s1) as [D1' S1'].
  { intros c Hc. apply Hothers. apply in_or_app. right. apply in_or_app. now left. }
  set (s1' := Standalone.checks others1 s1) in *.
  rewrite D1 in D1'. rewrite <- K2 in D1'.
  destruct (@WatcherFacts.check_counter c2 s1' _ _ _ _ C2 D1') as [D2 S2].
  simpl in D2, S2. rewrite app_nil_r in S2. rewrite K2 in D2.
  set (s2 := WatcherFacts.check c2 s1') in *.
  destruct (@WatcherFacts.checks_other_keys key others2 s2) as [D2' S2'].
  { intros c Hc. apply Hothers. apply in_or_app. right. apply in_or_app. now right. }
  set (s2' := Standalone.checks others2 s2) in *.
  assert (E2 : Standalone.checks upToSecond st = s2').
  { unfold upToSecond. rewrite WatcherFacts.checks_app, WatcherFacts.checks_cons.
    rewrite WatcherFacts.checks_app, WatcherFacts.checks_cons. reflexivity. }
  assert (F2 : WatcherFacts.suggestionsFor key s2' = WatcherFacts.suggestionsFor key st).
  { rewrite S2'. unfold WatcherFacts.suggestionsFor at 1. rewrite S2.
    fold (WatcherFacts.suggestionsFor key s1'). rewrite S1'.
    unfold WatcherFacts.suggestionsFor at 1. rewrite S1.
    fold (WatcherFacts.suggestionsFor key s0). exact S0. }
  (* the third check *)
  rewrite D2 in D2'. rewrite <- K3 in D2'.
  destruct (@WatcherFacts.check_counter c3 s2' _ _ _ _ C3 D2') as [D3 S3].
  assert (Hgt : (3600000 <? Standalone.Check.time c3 - 0)%Z = true)
    by (apply Z.ltb_lt; lia).
  simpl in D3, S3. rewrite Hgt in D3, S3. rewrite K3 in D3.
  set (s3 := WatcherFacts.check c3 s2') in *.
  assert (F3 : WatcherFacts.suggestionsFor key s3
               = (WatcherFacts.suggestionsFor key st
                  ++ [WatcherFacts.suggestionOf c3 3])%list).
  { rewrite (@WatcherFacts.suggestionsFor_snoc key _ _ _ S3).
    fold (WatcherFacts.suggestionsFor key s2'). rewrite F2. simpl.
    fold (WatcherFacts.keyOf c3). rewrite K3, String.eqb_refl. reflexivity. }
  split; [now rewrite E2|]. split.
  - rewrite WatcherFacts.checks_app, E2. exact F3.
  - rewrite WatcherFacts.checks_app, E2, WatcherFacts.checks_cons. fold s3.
    destruct (@WatcherFacts.checks_cooldown key (Standalone.Check.time c3) 3
                (Standalone.Check.current c1, Standalone.Check.next c1)
                later s3 3 D3 Hlater) as [G _].
    now rewrite G.
Qed.

Lemma suggestion_once_at_third_count_witness :
  WatcherFacts.suggestionsFor
    (WatcherFacts.keyOf (WatcherFacts.listThenExport 0))
    (Standalone.checks
       [WatcherFacts.listThenExport 1700000000000;
        WatcherFacts.exportThenHome 1700000001000;
        WatcherFacts.listThenExport 1700000010000;
        WatcherFacts.listThenExport 1700000020000;
        WatcherFacts.exportThenHome 1700000021000;
        WatcherFacts.listThenExport 1700000030000;
        WatcherFacts.listThenExport 1700003620000]
       (Standalone.mk [] []))
  = [WatcherFacts.suggestionOf (WatcherFacts.listThenExport 1700000020000) 3].
Proof.
  refine (proj2 (proj2
    (@suggestion_once_at_third_count
       (WatcherFacts.keyOf (WatcherFacts.listThenExport 0)) (Standalone.mk [] [])
       (WatcherFacts.listThenExport 1700000000000)
       (WatcherFacts.listThenExport 1700000010000)
       (WatcherFacts.listThenExport 1700000020000)
       [] [WatcherFacts.exportThenHome 1700000001000] []
       [WatcherFacts.exportThenHome 1700000021000;
        WatcherFacts.listThenExport 1700000030000;
        WatcherFacts.listThenExport 1700003620000]
       eq_refl _ _ _ _))).
  - intros c [<-|[]]. discriminate.
  - intros c [<-|[<-|[<-|[]]]];
      (split; [reflexivity | apply WatcherFacts.listThenExport_counted]).
  - reflexivity.
  - intros c [<-|[<-|[<-|[]]]] _; discriminate.
Defined.

(** ** Claims about the exact n-gram path *)

Module ExactFacts.
Import Js JsFacts PatternEngine.

(** A stored key passes the two tests of the inner loop at this pattern
    length. *)
Definition qualifies (now : Z) (st : t) (lookupPattern : string)
           (entry : string * nat) : Prop :=
  extends (fst entry) lookupPattern = true /\
  (0.3 <= calculateConfidence now st (fst entry) (snd entry))%R.

(** The continuation of a key resolves to an action. *)
Definition resolves (now : Z) (st : t) (patternLength : nat)
           (entry : string * nat) : Prop :=
  createPrediction (nth_error (split (fst entry)) patternLength)
                   (calculateConfidence now st (fst entry) (snd entry)) st <> None.

Lemma Rgeb_true x y : Rgeb x y = true <-> (y <= x)%R.
Proof. unfold Rgeb. destruct (Rle_dec y x); split; auto; discriminate. Qed.

Lemma Rgtb_true x y : Rgtb x y = true <-> (y < x)%R.
Proof. unfold Rgtb. destruct (Rlt_dec y x); split; auto; discriminate. Qed.

Lemma scanPatterns_hit now patternLength lookupPattern pattern frequency rest st r :
  qualifies now st lookupPattern (pattern, frequency) ->
  createPrediction (nth_error (split pattern) patternLength)
                   (calculateConfidence now st pattern frequency) st = Some r ->
  scanPatterns now patternLength lookupPattern ((pattern, frequency) :: rest) st = Some r.
Proof.
  intros [He Hc] Hp. simpl in *. rewrite He.
  apply Rgeb_true in Hc. rewrite Hc, Hp. reflexivity.
Qed.

Lemma scanPatterns_skip now patternLength lookupPattern entry rest st :
  ~ (qualifies now st lookupPattern entry /\ resolves now st patternLength entry) ->
  scanPatterns now patternLength lookupPattern (entry :: rest) st
  = scanPatterns now patternLength lookupPattern rest st.
Proof.
  intros Hn. destruct entry as [pattern frequency]. simpl.
  destruct (extends pattern lookupPattern) eqn:He; auto.
  destruct (Rgeb (calculateConfidence now st pattern frequency) 0.3) eqn:Hc; auto.
  destruct (createPrediction _ _ st) eqn:Hp; auto.
  exfalso. apply Hn. split.
  - split; [exact He | now apply Rgeb_true].
  - unfold resolves. simpl. congruence.
Qed.

(** The inner loop leaves at the first entry, in enumeration order, that
    qualifies and resolves. *)
Lemma scanPatterns_first now patternLength lookupPattern entries st r :
  scanPatterns now patternLength lookupPattern entries st = Some r ->
  exists before pattern frequency after,
    entries = (before ++ (pattern, frequency) :: after)%list /\
    qualifies now st lookupPattern (pattern, frequency) /\
    createPrediction (nth_error (split pattern) patternLength)
                     (calculateConfidence now st pattern frequency) st = Some r /\
    forall entry, In entry before ->
      ~ (qualifies now st lookupPattern entry /\ resolves now st patternLength entry).
Proof.
  induction entries as [|[pattern frequency] entries IH]; simpl; [discriminate|].
  intros H.
  destruct (extends pattern lookupPattern) eqn:He;
    [destruct (Rgeb (calculateConfidence now st pattern frequency) 0.3) eqn:Hc;
     [destruct (createPrediction (nth_error (split pattern) patternLength)
                  (calculateConfidence now st pattern frequency) st) eqn:Hp|]|].
  - inversion H; subst. exists [], pattern, frequency, entries.
    repeat split; auto. now apply Rgeb_true.
  - destruct (IH H) as [before [p [f [after [E [Q [C F]]]]]]].
    exists ((pattern, frequency) :: before), p, f, after. subst.
    repeat split; auto; try apply Q.
    intros entry [<-|Hin]; [|now apply F].
    intros [_ Hr]. now apply Hr.
  - destruct (IH H) as [before [p [f [after [E [Q [C F]]]]]]].
    exists ((pattern, frequency) :: before), p, f, after. subst.
    repeat split; auto; try apply Q.
    intros entry [<-|Hin]; [|now apply F].
    intros [[_ Hq] _]. simpl in Hq. apply Rgeb_true in Hq. congruence.
  - destruct (IH H) as [before [p [f [after [E [Q [C F]]]]]]].
    exists ((pattern, frequency) :: before), p, f, after. subst.
    repeat split; auto; try apply Q.
    intros entry [<-|Hin]; [|now apply F].
    intros [[Hq _] _]. simpl in Hq. congruence.
Qed.

(** The outer loop leaves at the greatest pattern length at which the
    inner loop finds an entry. *)
Lemma tryLengths_first now patterns sequenceIds st r : forall longest,
  tryLengths now patterns sequenceIds longest st = Some r ->
  exists patternLength,
    2 <= patternLength <= longest /\
    scanPatterns now patternLength (lookupKey patternLength sequenceIds) patterns st
      = Some r /\
    forall longer, patternLength < longer <= longest ->
      scanPatterns now longer (lookupKey longer sequenceIds) patterns st = None.
Proof.
  induction longest as [|shorter IH]; simpl; [discriminate|].
  destruct shorter as [|k]; [discriminate|]. intros H.
  destruct (scanPatterns now (S (S k)) (lookupKey (S (S k)) sequenceIds) patterns st)
    as [r'|] eqn:Es.
  - inversion H; subst. exists (S (S k)). repeat split; auto; try lia.
  - destruct (IH H) as [L [HL [Hs Hl]]]. exists L. repeat split; auto; try lia.
    intros longer Hlonger. destruct (Nat.eq_dec longer (S (S k))) as [->|Hne]; auto.
    apply Hl. lia.
Qed.

(** The score when the window is, on average, stamped [now]. *)
Lemma calculateConfidence_now now st pattern frequency :
  currentSequence st <> [] -> ConfidenceFacts.timeDiff now st = 0%R ->
  calculateConfidence now st pattern frequency =
  (Rmin (INR frequency / 10) 1 * 0.6
   + Rmin (INR (length (split pattern)) / 10) 1 * 0.3 + 0.1)%R.
Proof.
  intros Hne Hd. unfold calculateConfidence.
  rewrite ConfidenceFacts.calculateRecencyFactor_nonempty by assumption.
  rewrite Hd. replace (- 0 / 3600000)%R with 0%R by lra. rewrite exp_0. lra.
Qed.

Lemma Rmin_tenths (n : nat) :
  n <= 10 -> Rmin (INR n / 10) 1 = (INR n / 10)%R.
Proof.
  intros Hn. apply Rmin_left.
  assert (INR n <= INR 10)%R by (apply le_INR; lia).
  simpl in H. lra.
Qed.

(** *** A window and a store used in the examples *)

Definition evt (id : string) : NetworkRequest.t :=
  NetworkRequest.mk id ("https://app.example/" ++ id)%string "GET" [] None
                    1700000000000 Source.fetch.

(** A running engine whose window holds the given ids, all stamped
    [1700000000000], over a log of the given ids and a pattern table. *)
Definition engine (window log : list string) (patterns : Dict nat) : t :=
  withRunning
    (withSequence
       (new (CellOptions.mk None None) (Storage.mk (map evt log) patterns [] []))
       (map evt window))
    true.

Lemma engine_timeDiff id1 id2 id3 log patterns :
  ConfidenceFacts.timeDiff 1700000000000 (engine [id1; id2; id3] log patterns) = 0%R.
Proof.
  unfold ConfidenceFacts.timeDiff. simpl.
  replace (sumTimestamps [evt id1; evt id2; evt id3]) with 5100000000000%Z by reflexivity.
  lra.
Qed.

Lemma engine_confidence id1 id2 id3 log patterns pattern frequency :
  frequency <= 10 -> length (split pattern) <= 10 ->
  calculateConfidence 1700000000000 (engine [id1; id2; id3] log patterns)
                      pattern frequency =
  (INR frequency / 10 * 0.6 + INR (length (split pattern)) / 10 * 0.3 + 0.1)%R.
Proof.
  intros Hf Hl. rewrite calculateConfidence_now.
  - now rewrite !Rmin_tenths.
  - discriminate.
  - apply engine_timeDiff.
Qed.

End ExactFacts.

Module ExactExamples.
Import Js JsFacts PatternEngine ExactFacts.

Lemma tryLengths_two now patterns sequenceIds st :
  tryLengths now patterns sequenceIds 2 st
  = scanPatterns now 2 (lookupKey 2 sequenceIds) patterns st.
Proof. simpl. now destruct (scanPatterns now 2 _ patterns st). Qed.

Lemma createPrediction_confidence actionId confidence st p st' :
  createPrediction actionId confidence st = Some (p, st') ->
  Prediction.confidence p = confidence.
Proof.
  unfold createPrediction. intros H.
  destruct (dget _ (actionCache st)); [now inversion H|].
  destruct actionId as [aid|]; [|discriminate].
  destruct (find _ _); [now inversion H | discriminate].
Qed.

Lemma scanPatterns_none now patternLength lookupPattern entries st :
  scanPatterns now patternLength lookupPattern entries st = None ->
  forall entry, In entry entries ->
    ~ (qualifies now st lookupPattern entry /\ resolves now st patternLength entry).
Proof.
  induction entries as [|[pattern frequency] entries IH]; intros H entry Hin;
    [destruct Hin|].
  intros [[He Hc] Hr]. destruct Hin as [<-|Hin].
  - unfold resolves in Hr. simpl in *. rewrite He in H.
    apply Rgeb_true in Hc. rewrite Hc in H.
    destruct (createPrediction _ _ st); [discriminate | congruence].
  - revert H. simpl.
    destruct (extends pattern lookupPattern);
      [destruct (Rgeb (calculateConfidence now st pattern frequency) 0.3);
       [destruct (createPrediction _ _ st); [discriminate|]|]|];
      intros H; apply (IH H entry Hin); repeat split; assumption.
Qed.

(** *** Two keys extend the window, the weaker one is stored first *)

Definition twoKeys : t :=
  engine ["x"; "a"; "b"]%string ["x"; "a"; "b"; "c"; "d"]%string
         [("a,b,c"%string, 3); ("a,b,d"%string, 10)].

Lemma twoKeys_first :
  calculateConfidence 1700000000000 twoKeys "a,b,c" 3 = 0.37%R.
Proof.
  unfold twoKeys. rewrite engine_confidence by (simpl; lia). simpl. lra.
Qed.

Lemma twoKeys_second :
  calculateConfidence 1700000000000 twoKeys "a,b,d" 10 = 0.79%R.
Proof.
  unfold twoKeys. rewrite engine_confidence by (simpl; lia). simpl. lra.
Qed.

(** The action derived for the request [c] of the log. *)
Definition actionFor (id : string) : Action.t :=
  Action.mk id ActionType.api ("GET https://app.example/" ++ id)%string
            (Some ("https://app.example/" ++ id)%string)
            (Some (RequestInit.mk "GET" [] None)) None None.

Lemma twoKeys_exactMatch :
  exists st',
    exactMatch 1700000000000 twoKeys =
    Some (Prediction.mk 0.37 (actionFor "c")
                        "After GET request to https://app.example/b", st').
Proof.
  unfold exactMatch.
  change (Nat.min (length (currentSequence twoKeys) - 1) (maxPatternLength twoKeys))
    with 2.
  rewrite tryLengths_two. eexists.
  apply scanPatterns_hit.
  - split; [reflexivity|]. simpl fst; simpl snd. rewrite twoKeys_first. lra.
  - rewrite twoKeys_first. reflexivity.
Qed.

(** The claim at one pattern length: no qualifying key of the table has a
    higher confidence than the prediction. *)
Definition highestAtLength (now : Z) (st : t) (patternLength : nat)
           (p : Prediction.t) : Prop :=
  forall entry,
    In entry (Storage.getPatterns (storage st)) ->
    qualifies now st
      (lookupKey patternLength (map NetworkRequest.id (currentSequence st))) entry ->
    (calculateConfidence now st (fst entry) (snd entry) <= Prediction.confidence p)%R.

End ExactExamples.

(** C1 (refuted as stated).  The window ends with [a, b]; the table holds
    ["a,b,c"] with count 3 and then ["a,b,d"] with count 10.  Both keys
    qualify at pattern length 2, with confidence 0.37 and 0.79; the
    prediction returned is the one for [c], with confidence 0.37. *)
Lemma exactMatch_first_found_not_highest :
  exists p st',
    PatternEngine.exactMatch 1700000000000 ExactExamples.twoKeys = Some (p, st') /\
    Action.id (Prediction.action p) = "c"%string /\
    ~ ExactExamples.highestAtLength 1700000000000 ExactExamples.twoKeys 2 p.
Proof.
  destruct ExactExamples.twoKeys_exactMatch as [st' H].
  eexists. exists st'. split; [exact H|]. split; [reflexivity|].
  intros Hbest.
  specialize (Hbest ("a,b,d"%string, 10)). simpl fst in Hbest; simpl snd in Hbest.
  rewrite ExactExamples.twoKeys_second in Hbest. simpl Prediction.confidence in Hbest.
  assert (0.79 <= 0.37)%R; [|lra].
  apply Hbest.
  - simpl. auto.
  - split; [reflexivity|]. simpl fst; simpl snd.
    rewrite ExactExamples.twoKeys_second. lra.
Qed.

(** C1 (amended).  A prediction of the exact n-gram path comes from the
    first key, in the enumeration order of the table, that qualifies (it
    extends the lookup key and its confidence is at least 0.3) and whose
    continuation resolves to an action, at the greatest pattern length at
    which the table holds such a key; its confidence is that of this key. *)
Theorem exactMatch_first_qualifying
        (now : Z) (st : PatternEngine.t) (p : Prediction.t) (st' : PatternEngine.t) :
  PatternEngine.exactMatch now st = Some (p, st') ->
  let ids := map NetworkRequest.id (PatternEngine.currentSequence st) in
  let table := Storage.getPatterns (PatternEngine.storage st) in
  exists patternLength before pattern frequency after,
    2 <= patternLength
      <= Nat.min (length (PatternEngine.currentSequence st) - 1)
                 (PatternEngine.maxPatternLength st) /\
    table = (before ++ (pattern, frequency) :: after)%list /\
    ExactFacts.qualifies now st (PatternEngine.lookupKey patternLength ids)
                         (pattern, frequency) /\
    PatternEngine.createPrediction (nth_error (Js.split pattern) patternLength)
      (PatternEngine.calculateConfidence now st pattern frequency) st = Some (p, st') /\
    Prediction.confidence p = PatternEngine.calculateConfidence now st pattern frequency /\
    (forall entry, In entry before ->
       ~ (ExactFacts.qualifies now st (PatternEngine.lookupKey patternLength ids) entry /\
          ExactFacts.resolves now st patternLength entry)) /\
    (forall longer entry,
       patternLength < longer
         <= Nat.min (length (PatternEngine.currentSequence st) - 1)
                    (PatternEngine.maxPatternLength st) ->
       In entry table ->
       ~ (ExactFacts.qualifies now st (PatternEngine.lookupKey longer ids) entry /\
          ExactFacts.resolves now st longer entry)).
Proof.
  unfold PatternEngine.exactMatch. intros H. simpl.
  apply ExactFacts.tryLengths_first in H as [L [HL [Hs Hlonger]]].
  destruct (@ExactFacts.scanPatterns_first _ _ _ _ _ _ Hs)
    as [before [pattern [frequency [after [E [Q [C F]]]]]]].
  exists L, before, pattern, frequency, after.
  repeat split; auto; try lia; try apply Q.
  - now apply ExactExamples.createPrediction_confidence in C.
  - intros longer entry Hl Hin.
    exact (@ExactExamples.scanPatterns_none _ _ _ _ _ (Hlonger longer Hl) entry Hin).
Qed.

Lemma exactMatch_first_qualifying_witness :
  exists patternLength pattern frequency after,
    Storage.getPatterns (PatternEngine.storage ExactExamples.twoKeys)
      = ([] ++ (pattern, frequency) :: after)%list /\
    2 <= patternLength <= 2.
Proof.
  destruct ExactExamples.twoKeys_exactMatch as [st' H].
  destruct (@exactMatch_first_qualifying _ _ _ _ H)
    as [L [before [pattern [frequency [after [HL [E [Q [C [_ [F _]]]]]]]]]]].
  exists L, pattern, frequency, after. split; [|exact HL].
  destruct before as [|entry before]; [exact E|].
  exfalso. simpl in E. inversion E as [[He Ha]]. subst entry.
  assert (L = 2) by (simpl in HL; lia). subst L.
  apply (F ("a,b,c"%string, 3) (or_introl eq_refl)). split.
  - split; [reflexivity|]. simpl fst; simpl snd.
    rewrite ExactExamples.twoKeys_first. lra.
  - unfold ExactFacts.resolves. simpl fst; simpl snd.
    rewrite ExactExamples.twoKeys_first. discriminate.
Defined.

Module ConfidenceExamples.
Import Js JsFacts PatternEngine ExactFacts ExactExamples.

(** The window ends with [a, b]; the only key has 10 tokens and count 10.
    The requests of the window are stamped [1700000000000]. *)
Definition longKey : string := "a,b,c,d,e,f,g,h,i,j".

Definition aheadWindow : t :=
  engine ["x"; "a"; "b"]%string ["x"; "a"; "b"; "c"]%string [(longKey, 10)].

(** Five seconds before the stamps of the window. *)
Definition earlier : Z := 1699999995000.

Lemma aheadWindow_timeDiff : ConfidenceFacts.timeDiff earlier aheadWindow = (-5000)%R.
Proof.
  unfold ConfidenceFacts.timeDiff, earlier. simpl.
  replace (sumTimestamps [evt "x"; evt "a"; evt "b"]) with 5100000000000%Z by reflexivity.
  lra.
Qed.

Lemma aheadWindow_confidence :
  calculateConfidence earlier aheadWindow longKey 10 = (0.9 + exp (1 / 720) * 0.1)%R.
Proof.
  unfold calculateConfidence.
  rewrite ConfidenceFacts.calculateRecencyFactor_nonempty by discriminate.
  rewrite aheadWindow_timeDiff.
  replace (length (split longKey)) with 10 by reflexivity.
  rewrite Rmin_tenths by lia.
  replace (- -5000 / 3600000)%R with (1 / 720)%R by lra.
  simpl INR. lra.
Qed.

Lemma exp_above_one : (1 < exp (1 / 720))%R.
Proof. pose proof (exp_ineq1 (1 / 720) ltac:(lra)). lra. Qed.

End ConfidenceExamples.

(** C3 (the code departs from the claim).  The requests of the window are
    stamped five seconds after [now], so the time difference is [-5000];
    with a stored count of 10 and a key of 10 tokens the confidence is
    [0.9 + 0.1 * exp (1 / 720)], above 1, and the exact path hands out a
    prediction with that confidence.  The first two factors are capped with
    [Math.min], the recency factor is not.
    [ConfidenceFacts.calculateConfidence_unit] gives the interval [[0,1]]
    when the time difference is not negative. *)
Theorem calculateConfidence_exceeds_one :
  (1 < PatternEngine.calculateConfidence ConfidenceExamples.earlier
         ConfidenceExamples.aheadWindow ConfidenceExamples.longKey 10)%R /\
  exists p st',
    PatternEngine.exactMatch ConfidenceExamples.earlier ConfidenceExamples.aheadWindow
      = Some (p, st') /\
    Action.id (Prediction.action p) = "c"%string /\
    (1 < Prediction.confidence p)%R.
Proof.
  pose proof ConfidenceExamples.exp_above_one as He.
  split.
  - rewrite ConfidenceExamples.aheadWindow_confidence. lra.
  - unfold PatternEngine.exactMatch.
    change (Nat.min (length (PatternEngine.currentSequence ConfidenceExamples.aheadWindow) - 1)
                    (PatternEngine.maxPatternLength ConfidenceExamples.aheadWindow))
      with 2.
    rewrite ExactExamples.tryLengths_two. eexists. eexists. split.
    + apply ExactFacts.scanPatterns_hit.
      * split; [reflexivity|]. simpl fst; simpl snd.
        rewrite ConfidenceExamples.aheadWindow_confidence. lra.
      * rewrite ConfidenceExamples.aheadWindow_confidence. reflexivity.
    + split; [reflexivity|]. simpl. lra.
Qed.

Module ContinuationExamples.
Import Js JsFacts PatternEngine ExactFacts ExactExamples.

(** The claim, read on tokens: the tokens of the key are the last
    [patternLength] ids of the window, then [next], then any others. *)
Definition continues (patternLength : nat) (sequenceIds : list string)
           (key next : string) : Prop :=
  exists more, split key = (sliceLast patternLength sequenceIds ++ next :: more)%list.

(** The claim, read on the key as a string: the lookup key, a comma, then
    [next] up to the end or the next comma. *)
Definition followsPrefix (lookupPattern key next : string) : Prop :=
  exists rest,
    key = (lookupPattern ++ "," ++ next ++ rest)%string /\
    (rest = EmptyString \/ exists rest', rest = String comma rest').

(** The window ends with [a, b]; the only key is ["a,bc,d"], which starts
    with the characters of ["a,b"]. *)
Definition prefixId : t :=
  engine ["x"; "a"; "b"]%string ["bc"; "d"; "x"; "a"; "b"]%string
         [("a,bc,d"%string, 10)].

(** The window ends with [p] and [q,r], an id that holds a comma; the only
    key is ["p,q,r,s"]. *)
Definition commaId : t :=
  engine ["w"; "p"; "q,r"]%string ["s"; "r"; "w"; "p"; "q,r"]%string
         [("p,q,r,s"%string, 10)].

Lemma prefixId_confidence :
  calculateConfidence 1700000000000 prefixId "a,bc,d" 10 = 0.79%R.
Proof.
  unfold prefixId. rewrite engine_confidence by (simpl; lia). simpl. lra.
Qed.

Lemma commaId_confidence :
  calculateConfidence 1700000000000 commaId "p,q,r,s" 10 = 0.82%R.
Proof.
  unfold commaId. rewrite engine_confidence by (simpl; lia). simpl. lra.
Qed.

Lemma prefixId_exactMatch :
  exists st',
    exactMatch 1700000000000 prefixId =
    Some (Prediction.mk 0.79 (actionFor "d")
                        "After GET request to https://app.example/b", st').
Proof.
  unfold exactMatch.
  change (Nat.min (length (currentSequence prefixId) - 1) (maxPatternLength prefixId))
    with 2.
  rewrite tryLengths_two. eexists.
  apply scanPatterns_hit.
  - split; [reflexivity|]. simpl fst; simpl snd. rewrite prefixId_confidence. lra.
  - rewrite prefixId_confidence. reflexivity.
Qed.

Lemma commaId_exactMatch :
  exists st',
    exactMatch 1700000000000 commaId =
    Some (Prediction.mk 0.82 (actionFor "r")
                        "After GET request to https://app.example/q,r", st').
Proof.
  unfold exactMatch.
  change (Nat.min (length (currentSequence commaId) - 1) (maxPatternLength commaId))
    with 2.
  rewrite tryLengths_two. eexists.
  apply scanPatterns_hit.
  - split; [reflexivity|]. simpl fst; simpl snd. rewrite commaId_confidence. lra.
  - rewrite commaId_confidence. reflexivity.
Qed.

(** When the key goes on with a comma after the lookup key, and the ids of
    the window hold no comma, the token the code reads at index
    [patternLength] is the one that follows the matched prefix. *)
Lemma continuation_after_delimiter patternLength sequenceIds rest :
  2 <= patternLength <= length sequenceIds ->
  Forall commaFree (sliceLast patternLength sequenceIds) ->
  let key := (lookupKey patternLength sequenceIds ++ String comma rest)%string in
  exists next more,
    split rest = next :: more /\
    nth_error (split key) patternLength = Some next /\
    continues patternLength sequenceIds key next.
Proof.
  intros HL Hf key.
  assert (Hlen : length (sliceLast patternLength sequenceIds) = patternLength).
  { unfold sliceLast. rewrite length_skipn. lia. }
  assert (Hne : sliceLast patternLength sequenceIds <> []).
  { intros E. rewrite E in Hlen. simpl in Hlen. lia. }
  pose proof (split_nonempty rest) as Hr.
  destruct (split rest) as [|next more] eqn:Es; [congruence|].
  exists next, more. unfold key, lookupKey, continues.
  rewrite split_app_comma, split_join, Es by assumption.
  repeat split.
  - rewrite nth_error_app2 by lia. rewrite Hlen, Nat.sub_diag. reflexivity.
  - now exists more.
Qed.

End ContinuationExamples.

(** C2 (the code departs from the claim).  With the window ending in
    [a, b] and the single key ["a,bc,d"], the exact path predicts [d]: the
    key starts with the characters of the lookup key ["a,b"], but its tokens
    are [a, bc, d], so [d] does not follow the matched prefix.  With the
    window ending in [p] and [q,r] and the single key ["p,q,r,s"], it
    predicts [r], a token inside the matched prefix ["p,q,r"], where [s]
    follows. *)
Theorem exactMatch_continuation_not_following :
  (exists p st',
     PatternEngine.exactMatch 1700000000000 ContinuationExamples.prefixId = Some (p, st') /\
     Action.id (Prediction.action p) = "d"%string /\
     ~ ContinuationExamples.continues 2 ["x"; "a"; "b"]%string "a,bc,d" "d" /\
     ~ ContinuationExamples.followsPrefix "a,b" "a,bc,d" "d") /\
  (exists p st',
     PatternEngine.exactMatch 1700000000000 ContinuationExamples.commaId = Some (p, st') /\
     Action.id (Prediction.action p) = "r"%string /\
     ~ ContinuationExamples.continues 2 ["w"; "p"; "q,r"]%string "p,q,r,s" "r" /\
     ~ ContinuationExamples.followsPrefix "p,q,r" "p,q,r,s" "r" /\
     ContinuationExamples.followsPrefix "p,q,r" "p,q,r,s" "s").
Proof.
  split.
  - destruct ContinuationExamples.prefixId_exactMatch as [st' H].
    eexists. exists st'. split; [exact H|]. split; [reflexivity|]. split.
    + intros [more Hm]. simpl in Hm. discriminate.
    + intros [rest [Hr _]]. simpl in Hr. discriminate.
  - destruct ContinuationExamples.commaId_exactMatch as [st' H].
    eexists. exists st'. split; [exact H|]. split; [reflexivity|]. repeat split.
    + intros [more Hm]. simpl in Hm. discriminate.
    + intros [rest [Hr _]]. simpl in Hr. discriminate.
    + exists EmptyString. split; [reflexivity | now left].
Qed.

(** ** Claims about the fuzzy fallback *)

Module FuzzyFacts.
Import Js JsFacts PatternEngine ExactFacts.

(** *** The similarity score *)

Lemma charEq_refl a i : Helpers.charEq a a i i = true.
Proof.
  unfold Helpers.charEq. destruct (String.get i a); auto. apply Ascii.eqb_refl.
Qed.

Lemma lev_diag a i : Helpers.lev a a i i = 0.
Proof.
  induction i as [|i IH]; [reflexivity|].
  rewrite HelpersFacts.lev_SS, IH. unfold Helpers.cost. rewrite charEq_refl.
  unfold Helpers.min3. lia.
Qed.

(** [stringSimilarity] is one minus the distance over the greater length
    (a quotient by 0 being 0, both strings are then empty and equal). *)
Lemma stringSimilarity_formula a b :
  Helpers.stringSimilarity a b =
  (1 - INR (Helpers.levenshtein a b)
       / INR (Nat.max (String.length a) (String.length b)))%R.
Proof.
  destruct (stringSimilarity_cases a b)
    as [[Heq H1] | [[Hne [Hlen H0]] | [Hne [Ha [Hb [Hd Hs]]]]]].
  - subst b. rewrite H1. unfold Helpers.levenshtein. rewrite lev_diag.
    simpl. unfold Rdiv. lra.
  - rewrite H0. unfold Helpers.levenshtein.
    assert (Hm : Helpers.lev a b (String.length a) (String.length b)
                 = Nat.max (String.length a) (String.length b)).
    { destruct Hlen as [Ha|Hb].
      - rewrite Ha. simpl. reflexivity.
      - rewrite Hb, HelpersFacts.lev_0_r. lia. }
    rewrite Hm.
    assert (Hpos : Nat.max (String.length a) (String.length b) <> 0).
    { intros Hz. apply Hne.
      destruct a, b; simpl in *; try lia; reflexivity. }
    assert (INR (Nat.max (String.length a) (String.length b)) <> 0)%R
      by now apply not_0_INR.
    unfold Rdiv. rewrite Rinv_r by assumption. lra.
  - exact Hs.
Qed.

(** The score of the specification. *)
Definition score (request lastRequest : NetworkRequest.t) : R :=
  (0.8 * (1 - INR (Helpers.levenshtein (NetworkRequest.url request)
                                       (NetworkRequest.url lastRequest))
              / INR (Nat.max (String.length (NetworkRequest.url request))
                             (String.length (NetworkRequest.url lastRequest))))
   + 0.2 * (if String.eqb (NetworkRequest.method request)
                          (NetworkRequest.method lastRequest)
            then 1 else 0))%R.

Lemma totalSimilarity_score request lastRequest :
  totalSimilarity request lastRequest = score request lastRequest.
Proof.
  unfold totalSimilarity, score. rewrite stringSimilarity_formula. lra.
Qed.

(** An event is kept exactly when its id is not that of the last event of
    the window and its score exceeds 0.8. *)
Lemma similarRequests_spec history lastRequest request :
  In request (similarRequests history lastRequest) <->
  In request history /\
  NetworkRequest.id request <> NetworkRequest.id lastRequest /\
  (0.8 < score request lastRequest)%R.
Proof.
  unfold similarRequests, isSimilar. rewrite filter_In, andb_true_iff, negb_true_iff.
  rewrite String.eqb_neq, Rgtb_true, totalSimilarity_score. tauto.
Qed.

(** *** The tally *)

(** The id the body of [similarRequests.forEach] counts for one kept
    event: that of the entry after the first entry of the log with the id
    of the kept event. *)
Definition followerOfFirst (history : list NetworkRequest.t)
           (similarRequest : NetworkRequest.t) : option string :=
  match findIndex (fun req => String.eqb (NetworkRequest.id req)
                                         (NetworkRequest.id similarRequest)) history with
  | Some index =>
      if index <? length history - 1
      then option_map NetworkRequest.id (nth_error history (index + 1))
      else None
  | None => None
  end.

Definition talliedIds (history similar : list NetworkRequest.t) : list string :=
  flat_map (fun r => match followerOfFirst history r with
                     | Some id => [id]
                     | None => []
                     end) similar.

(** The ids that follow a kept event, by position in the log. *)
Fixpoint followers (keep : NetworkRequest.t -> bool) (log : list NetworkRequest.t)
  : list string :=
  match log with
  | request :: rest =>
      match rest with
      | next :: _ => if keep request then NetworkRequest.id next :: followers keep rest
                     else followers keep rest
      | [] => []
      end
  | [] => []
  end.

(** How often [k] is in a list of ids. *)
Definition occurrencesOf (k : string) (l : list string) : nat :=
  length (filter (fun w => String.eqb w k) l).

Lemma tally_fold history similar : forall acc,
  fold_left (tallyFollower history) similar acc =
  (fold_left (fun d k => increment k d) (talliedIds history similar) (fst acc),
   snd acc + length (talliedIds history similar)).
Proof.
  induction similar as [|r similar IH]; intros [d n]; simpl.
  - now rewrite Nat.add_0_r.
  - rewrite IH. unfold tallyFollower, followerOfFirst.
    destruct (findIndex _ history) as [index|]; simpl; [|reflexivity].
    destruct (index <? length history - 1); simpl; [|reflexivity].
    destruct (nth_error history (index + 1)); simpl; [|reflexivity].
    f_equal. lia.
Qed.

(** [nextActions] holds, under each id, the number of times it was
    counted; [totalOccurrences] is the number of ids counted. *)
Lemma tally_spec history similar :
  (forall k, count k (fst (tally history similar))
             = occurrencesOf k (talliedIds history similar)) /\
  snd (tally history similar) = length (talliedIds history similar) /\
  NoDup (keys (fst (tally history similar))).
Proof.
  unfold tally. rewrite tally_fold. simpl. repeat split.
  - intros k.
    rewrite (RebuildFacts.fold_increment_count (fun w : string => w)). reflexivity.
  - apply (RebuildFacts.fold_increment_NoDup (fun w : string => w)). constructor.
Qed.

Lemma findIndex_unique (before : list NetworkRequest.t) request after :
  NoDup (map NetworkRequest.id (before ++ request :: after)) ->
  findIndex (fun req => String.eqb (NetworkRequest.id req) (NetworkRequest.id request))
            (before ++ request :: after) = Some (length before).
Proof.
  induction before as [|b before IH]; simpl; intros Hnd.
  - now rewrite String.eqb_refl.
  - inversion Hnd as [|? ? Hin Hnd']; subst.
    destruct (String.eqb (NetworkRequest.id b) (NetworkRequest.id request)) eqn:E.
    + apply String.eqb_eq in E. exfalso. apply Hin. rewrite E.
      rewrite map_app. apply in_or_app. right. now left.
    + rewrite IH by assumption. reflexivity.
Qed.

(** When no two entries of the log share an id, the ids counted are the
    followers by position. *)
Lemma talliedIds_unique keep history :
  NoDup (map NetworkRequest.id history) ->
  talliedIds history (filter keep history) = followers keep history.
Proof.
  intros Hnd.
  assert (H : forall after before, history = (before ++ after)%list ->
              talliedIds history (filter keep after) = followers keep after).
  { induction after as [|request after IH]; intros before E; [reflexivity|].
    assert (Hrest : talliedIds history (filter keep after) = followers keep after).
    { apply (IH (before ++ [request])%list). rewrite <- app_assoc. exact E. }
    simpl. destruct (keep request) eqn:Ek.
    - simpl. rewrite Hrest. unfold followerOfFirst.
      rewrite E, findIndex_unique by (rewrite <- E; exact Hnd).
      destruct after as [|next after'].
      + destruct (Nat.ltb_spec (length before) (length (before ++ [request]) - 1))
          as [Hlt|Hge]; [|reflexivity].
        rewrite length_app in Hlt. simpl in Hlt. lia.
      + destruct (Nat.ltb_spec (length before)
                    (length (before ++ request :: next :: after') - 1)) as [Hlt|Hge].
        * rewrite nth_error_app2 by lia.
          replace (length before + 1 - length before) with 1 by lia. reflexivity.
        * rewrite length_app in Hge. simpl in Hge. lia.
    - rewrite Hrest. destruct after; reflexivity. }
  apply (H history []). reflexivity.
Qed.

(** *** The choice of the most counted id *)

Lemma pickBest_acc (d : Dict nat) : forall acc,
  let result := fold_left (fun best entry =>
                             if snd best <? snd entry
                             then (Some (fst entry), snd entry) else best) d acc in
  snd acc <= snd result /\
  (forall entry, In entry d -> snd entry <= snd result) /\
  (result = acc \/ exists k, fst result = Some k /\ In (k, snd result) d).
Proof.
  induction d as [|[k v] d IH]; intros acc; simpl.
  { split; [lia|]. split; [intros entry []|now left]. }
  destruct (snd acc <? v) eqn:E.
  - destruct (IH (Some k, v)) as [H1 [H2 H3]]. simpl in H1.
    apply Nat.ltb_lt in E. repeat split; try lia.
    + intros entry [<-|Hin]; simpl; auto.
    + right. destruct H3 as [->|[k' [Hk Hin]]]; simpl; eauto.
  - destruct (IH acc) as [H1 [H2 H3]].
    apply Nat.ltb_ge in E. repeat split; auto.
    + intros entry [<-|Hin]; simpl; auto. lia.
    + destruct H3 as [->|[k' [Hk Hin]]]; eauto.
Qed.

Lemma dget_of_in (V : Type) (d : Dict V) k v :
  NoDup (keys d) -> In (k, v) d -> dget k d = Some v.
Proof.
  unfold keys. induction d as [|[k' v'] d IH]; simpl; intros Hnd Hin; [tauto|].
  inversion Hnd as [|? ? Hn Hnd']; subst. destruct Hin as [E|Hin].
  - inversion E; subst. now rewrite String.eqb_refl.
  - destruct (String.eqb k' k) eqn:Ek.
    + apply String.eqb_eq in Ek. subst. exfalso. apply Hn.
      change k with (fst (k, v)). now apply in_map.
    + auto.
Qed.

(** [pickBest] returns a most counted id and its count, as soon as some
    id is counted at least once. *)
Lemma pickBest_spec (d : Dict nat) k0 :
  NoDup (keys d) -> 0 < count k0 d ->
  exists best,
    pickBest d = (Some best, count best d) /\ forall k, count k d <= count best d.
Proof.
  intros Hnd Hpos. unfold pickBest.
  destruct (pickBest_acc d (None, 0)) as [_ [Hmax Hbest]].
  set (result := fold_left _ d (None, 0)) in *.
  assert (Hle : forall k, count k d <= snd result).
  { intros k. unfold count. destruct (dget k d) eqn:E; [|lia].
    apply dget_in in E. apply (Hmax _ E). }
  destruct Hbest as [Hnone|[best [Hb Hin]]].
  - specialize (Hle k0). rewrite Hnone in Hle. simpl in Hle. lia.
  - exists best. assert (Hc : count best d = snd result).
    { unfold count. now rewrite (@dget_of_in _ d best (snd result) Hnd Hin). }
    rewrite Hc. split; [|exact Hle].
    destruct result as [b n]. simpl in *. now subst b.
Qed.

End FuzzyFacts.

Module FuzzyPath.
Import Js JsFacts PatternEngine ExactFacts FuzzyFacts.

Lemma occurrencesOf_pos k l : 0 < occurrencesOf k l -> In k l.
Proof.
  unfold occurrencesOf. induction l as [|x l IH]; simpl; [lia|].
  destruct (String.eqb x k) eqn:E; simpl; intros H.
  - left. now apply String.eqb_eq.
  - right. auto.
Qed.

Lemma occurrencesOf_head k l : 0 < occurrencesOf k (k :: l).
Proof. unfold occurrencesOf. simpl. rewrite String.eqb_refl. simpl. lia. Qed.

(** What [fuzzyMatch] returns, in terms of the ids it counted. *)
Lemma fuzzyMatch_tallied st lastRequest previous earlier :
  rev (currentSequence st) = lastRequest :: previous :: earlier ->
  let history := Storage.getRequestHistory (storage st) in
  let counted := talliedIds history (similarRequests history lastRequest) in
  (counted = [] -> fuzzyMatch st = None) /\
  (counted <> [] ->
   exists best,
     In best counted /\
     (forall k, occurrencesOf k counted <= occurrencesOf best counted) /\
     fuzzyMatch st =
     if truthy best
     then createPrediction (Some best)
            (INR (occurrencesOf best counted) / INR (length counted))%R st
     else None).
Proof.
  intros Hrev history counted.
  assert (Hlen : (length (currentSequence st) <? 2) = false).
  { apply Nat.ltb_ge. rewrite <- length_rev, Hrev. simpl. lia. }
  unfold fuzzyMatch. rewrite Hlen, Hrev. fold history.
  destruct (tally_spec history (similarRequests history lastRequest))
    as [Hcount [Htotal Hnd]]. fold counted in Hcount, Htotal.
  destruct (tally history (similarRequests history lastRequest))
    as [nextActions totalOccurrences]. simpl in Hcount, Htotal, Hnd.
  split.
  - intros Hnil. destruct (length (similarRequests history lastRequest) =? 0); auto.
    rewrite Htotal, Hnil. reflexivity.
  - intros Hne.
    destruct (length (similarRequests history lastRequest) =? 0) eqn:Es.
    + exfalso. apply Hne. apply Nat.eqb_eq in Es. unfold counted.
      destruct (similarRequests history lastRequest); [reflexivity | discriminate].
    + destruct counted as [|k0 counted'] eqn:Ec; [congruence|].
      assert (Hpos : 0 < count k0 nextActions).
      { rewrite Hcount. apply occurrencesOf_head. }
      destruct (@pickBest_spec nextActions k0 Hnd Hpos) as [best [Hbest Hmax]].
      exists best. rewrite Htotal. simpl Nat.eqb. cbv iota.
      rewrite Hbest, !Hcount. repeat split.
      * apply occurrencesOf_pos. specialize (Hmax k0).
        rewrite !Hcount in Hmax. rewrite Hcount in Hpos. lia.
      * intros k. specialize (Hmax k). now rewrite !Hcount in Hmax.
Qed.

Lemma followers_in_log keep log k :
  In k (followers keep log) -> exists r, In r log /\ NetworkRequest.id r = k.
Proof.
  induction log as [|request rest IH]; simpl; [tauto|].
  destruct rest as [|next rest']; [simpl; tauto|].
  destruct (keep request); intros H.
  - destruct H as [<-|H].
    + exists next. split; [right; now left | reflexivity].
    + destruct (IH H) as [r [Hr Hk]]. exists r. split; [now right | exact Hk].
  - destruct (IH H) as [r [Hr Hk]]. exists r. split; [now right | exact Hk].
Qed.

(** An id of the log always resolves to an action. *)
Lemma createPrediction_of_log k confidence st :
  (exists r, In r (Storage.getRequestHistory (storage st)) /\ NetworkRequest.id r = k) ->
  exists p st',
    createPrediction (Some k) confidence st = Some (p, st') /\
    Prediction.confidence p = confidence.
Proof.
  intros [r [Hin Hk]]. unfold createPrediction.
  destruct (dget k (actionCache st)); [eauto|].
  destruct (find _ _) eqn:Ef; [eauto|].
  exfalso. apply (find_none _ _ Ef) in Hin. apply String.eqb_neq in Hin. auto.
Qed.

(** With pairwise distinct, non-empty ids in the log, the fuzzy path
    counts the followers of the kept events by position, and predicts a
    most counted one with confidence count over total. *)
Lemma fuzzyMatch_by_position st lastRequest previous earlier :
  rev (currentSequence st) = lastRequest :: previous :: earlier ->
  let history := Storage.getRequestHistory (storage st) in
  NoDup (map NetworkRequest.id history) ->
  (forall r, In r history -> truthy (NetworkRequest.id r) = true) ->
  let counted := followers (isSimilar lastRequest) history in
  (counted = [] -> fuzzyMatch st = None) /\
  (counted <> [] ->
   exists best p st',
     In best counted /\
     (forall k, occurrencesOf k counted <= occurrencesOf best counted) /\
     fuzzyMatch st = Some (p, st') /\
     createPrediction (Some best)
       (INR (occurrencesOf best counted) / INR (length counted))%R st = Some (p, st') /\
     Prediction.confidence p
     = (INR (occurrencesOf best counted) / INR (length counted))%R).
Proof.
  intros Hrev history Hnd Hids counted.
  destruct (fuzzyMatch_tallied st Hrev) as [Hnone Hsome].
  fold history in Hnone, Hsome. unfold similarRequests in Hnone, Hsome.
  rewrite (@talliedIds_unique (isSimilar lastRequest) history Hnd) in Hnone, Hsome. fold counted in Hnone, Hsome.
  split; [exact Hnone|]. intros Hne.
  destruct (Hsome Hne) as [best [Hin [Hmax Hf]]].
  destruct (@followers_in_log _ _ _ Hin) as [r [Hr Hk]].
  rewrite <- Hk, (Hids r Hr), Hk in Hf.
  destruct (@createPrediction_of_log best
              (INR (occurrencesOf best counted) / INR (length counted))%R st)
    as [p [st' [Hp Hc]]]; [eauto|].
  exists best, p, st'. rewrite Hf. auto.
Qed.

(** The exact path comes first: the fuzzy path decides the outcome of
    [predictNextAction] only when the exact path yields no prediction. *)
Lemma predictNextAction_order now st :
  2 <= length (currentSequence st) ->
  (forall p st', exactMatch now st = Some (p, st') ->
                 predictNextAction now st = notifyPredictionCallbacks p st') /\
  (exactMatch now st = None -> predictNextAction now st = fuzzyMatchAction st).
Proof.
  intros Hlen. apply Nat.ltb_ge in Hlen. unfold predictNextAction. rewrite Hlen.
  split; [intros p st' ->|intros ->]; reflexivity.
Qed.

End FuzzyPath.

Module FuzzyExamples.
Import Js JsFacts PatternEngine ExactFacts FuzzyFacts FuzzyPath.

Definition call (id url : string) : NetworkRequest.t :=
  NetworkRequest.mk id url "GET" [] None 1700000000000 Source.fetch.

Definition users1 : NetworkRequest.t := call "users" "/users/1".
Definition projects : NetworkRequest.t := call "projects" "/projects".
Definition billing : NetworkRequest.t := call "billing" "/billing".
Definition users2 : NetworkRequest.t := call "users2" "/users/2".

(** The request with id [users] is in the log twice, followed once by
    [projects] and once by [billing]. *)
Definition log : list NetworkRequest.t := [users1; projects; users1; billing; users2].

(** A running engine whose window and log both hold these five requests;
    no pattern is stored. *)
Definition repeatedId : t :=
  withRunning
    (withSequence (new (CellOptions.mk None None) (Storage.mk log [] [] [])) log)
    true.

Lemma isSimilar_iff lastRequest request :
  isSimilar lastRequest request = true <->
  NetworkRequest.id request <> NetworkRequest.id lastRequest /\
  (0.8 < score request lastRequest)%R.
Proof.
  unfold isSimilar. rewrite andb_true_iff, negb_true_iff.
  rewrite String.eqb_neq, Rgtb_true, totalSimilarity_score. tauto.
Qed.

Lemma isSimilar_false lastRequest request :
  (score request lastRequest <= 0.8)%R -> isSimilar lastRequest request = false.
Proof.
  intros Hs. destruct (isSimilar lastRequest request) eqn:E; [|reflexivity].
  apply isSimilar_iff in E. lra.
Qed.

(** Evaluates the score of two concrete requests whose urls are at
    distance [d]. *)
Ltac score_with d :=
  unfold score, users1, users2, projects, billing, call;
  cbn [NetworkRequest.url NetworkRequest.method];
  match goal with
  | |- context [Helpers.levenshtein ?a ?b] =>
      replace (Helpers.levenshtein a b) with d
        by (rewrite <- HelpersFacts.editDistance_levenshtein; vm_compute; reflexivity)
  end;
  match goal with
  | |- context [Nat.max ?x ?y] =>
      let m := eval vm_compute in (Nat.max x y) in change (Nat.max x y) with m
  end;
  match goal with
  | |- context [String.eqb ?x ?y] =>
      let e := eval vm_compute in (String.eqb x y) in change (String.eqb x y) with e
  end;
  cbv iota; simpl INR.

(** Same method, urls [/users/1] and [/users/2]: distance 1 over length
    8, url similarity 0.875, score 0.9. *)
Lemma users_score : score users1 users2 = 0.9%R.
Proof. score_with 1. lra. Qed.

Lemma users_similar : isSimilar users2 users1 = true.
Proof.
  apply isSimilar_iff. split; [discriminate|]. rewrite users_score. lra.
Qed.

Lemma projects_not_similar : isSimilar users2 projects = false.
Proof. apply isSimilar_false. score_with 8. lra. Qed.

Lemma billing_not_similar : isSimilar users2 billing = false.
Proof. apply isSimilar_false. score_with 7. lra. Qed.

Lemma self_not_similar : isSimilar users2 users2 = false.
Proof. unfold isSimilar. simpl. reflexivity. Qed.

Lemma log_similar : similarRequests log users2 = [users1; users1].
Proof.
  unfold similarRequests, log. cbn [filter].
  rewrite users_similar, projects_not_similar, billing_not_similar, self_not_similar.
  reflexivity.
Qed.

Lemma log_followers :
  followers (isSimilar users2) log = ["projects"; "billing"]%string.
Proof.
  unfold log. cbn [followers].
  rewrite users_similar, projects_not_similar, billing_not_similar.
  reflexivity.
Qed.

End FuzzyExamples.

(** C8 (the code departs from the claim).  The log holds the request with
    id [users] twice, followed once by [projects] and once by [billing]; the
    last event of the window, [/users/2], is similar to both (same method,
    urls [/users/1] and [/users/2], score 0.9).  By position the followers
    are [projects] and [billing], one each out of two.  The code looks each
    kept event up by id, finds the first entry both times, counts [projects]
    twice and predicts it with confidence 1.  [FuzzyPath.fuzzyMatch_by_position]
    gives the claim for logs whose ids are pairwise distinct and not empty. *)
Theorem fuzzyMatch_counts_follower_of_first_id :
  PatternEngine.similarRequests FuzzyExamples.log FuzzyExamples.users2
    = [FuzzyExamples.users1; FuzzyExamples.users1] /\
  FuzzyFacts.followers (PatternEngine.isSimilar FuzzyExamples.users2) FuzzyExamples.log
    = ["projects"; "billing"]%string /\
  fst (PatternEngine.tally FuzzyExamples.log
         [FuzzyExamples.users1; FuzzyExamples.users1]) = [("projects"%string, 2)] /\
  exists p st',
    PatternEngine.fuzzyMatch FuzzyExamples.repeatedId = Some (p, st') /\
    Action.id (Prediction.action p) = "projects"%string /\
    Prediction.confidence p = 1%R.
Proof.
  split; [exact FuzzyExamples.log_similar|].
  split; [exact FuzzyExamples.log_followers|].
  split; [vm_compute; reflexivity|].
  destruct (@FuzzyPath.fuzzyMatch_tallied FuzzyExamples.repeatedId
              FuzzyExamples.users2 FuzzyExamples.billing
              [FuzzyExamples.users1; FuzzyExamples.projects; FuzzyExamples.users1]
              eq_refl) as [_ H].
  change (Storage.getRequestHistory (PatternEngine.storage FuzzyExamples.repeatedId))
    with FuzzyExamples.log in H.
  rewrite FuzzyExamples.log_similar in H.
  replace (FuzzyFacts.talliedIds FuzzyExamples.log
             [FuzzyExamples.users1; FuzzyExamples.users1])
    with ["projects"; "projects"]%string in H by (vm_compute; reflexivity).
  destruct (H ltac:(discriminate)) as [best [Hin [_ Hf]]].
  assert (best = "projects"%string) by (destruct Hin as [<-|[<-|[]]]; reflexivity).
  subst best.
  eexists. eexists. split; [rewrite Hf; reflexivity|].
  split; [reflexivity|]. simpl. lra.
Qed.

(* ================================================================== *)
(** * Further properties of the code *)
(* ================================================================== *)

(** ** utils/storage: the remaining accessors *)

Module StorageRest.
Import Js.


(** [localStorage.removeItem] on the four keys; each getter then falls back
    to its empty value. *)
Definition clearAllData (s : Storage.t) : Storage.t := Storage.empty.

(** [incrementWorkflowFrequency(id)] called at each of the given times. *)
Definition incrementAt (times : list Z) (id : string) (s : Storage.t) : Storage.t :=
  fold_left (fun s now => Storage.incrementWorkflowFrequency now id s) times s.

End StorageRest.

Module StorageFacts.
Import Js JsFacts Storage StorageRest.

Lemma skipn_snoc (A : Type) (n : nat) (l : list A) (x : A) :
  n <= length l -> skipn n (l ++ [x]) = (skipn n l ++ [x])%list.
Proof.
  revert n. induction l as [|y l IH]; intros [|n] H; simpl in *; auto; try lia.
  apply IH. lia.
Qed.

Lemma increment_present now id w s :
  getWorkflowById id s = Some w ->
  getWorkflowById id (incrementWorkflowFrequency now id s)
  = Some (Workflow.mk (Workflow.id w) (Workflow.name w) (Workflow.description w)
                      (Workflow.actions w) (Workflow.frequency w + 1) (Some now)).
Proof.
  unfold getWorkflowById, incrementWorkflowFrequency. intros H. rewrite H. simpl.
  apply dget_dset_same.
Qed.

Lemma increment_other now id other s :
  other <> id ->
  getWorkflowById other (incrementWorkflowFrequency now id s) = getWorkflowById other s.
Proof.
  unfold getWorkflowById, incrementWorkflowFrequency. intros H.
  destruct (dget id (workflows s)); [|reflexivity]. simpl.
  apply dget_dset_other. congruence.
Qed.

Lemma increment_missing now id s :
  getWorkflowById id s = None -> incrementWorkflowFrequency now id s = s.
Proof.
  unfold getWorkflowById, incrementWorkflowFrequency. intros H. now rewrite H.
Qed.

Definition sampleWorkflow : Workflow.t :=
  Workflow.mk "wf" "Workflow 1" "open -> save" [] 1 None.

Definition sampleStore : Storage.t := Storage.mk [] [] [] [("wf"%string, sampleWorkflow)].

End StorageFacts.

(** X1. [saveRequest] appends the request and then keeps the newest
    [maxItems] entries: the stored log is the tail of the old log followed by
    the request, its length is the smaller of the old length plus one and
    [maxItems], the oldest entries are the ones dropped, and for a positive
    [maxItems] the request is its last entry.  The other tables are not
    touched. *)
Theorem saveRequest_keeps_newest
        (request : NetworkRequest.t) (maxItems : nat) (s : Storage.t) :
  let old := Storage.requestHistory s in
  let log := Storage.requestHistory (Storage.saveRequest request maxItems s) in
  log = skipn (length old + 1 - maxItems) (old ++ [request]) /\
  length log = Nat.min (length old + 1) maxItems /\
  (1 <= maxItems ->
   log = (skipn (length old + 1 - maxItems) old ++ [request])%list) /\
  Storage.patterns (Storage.saveRequest request maxItems s) = Storage.patterns s /\
  Storage.actions (Storage.saveRequest request maxItems s) = Storage.actions s /\
  Storage.workflows (Storage.saveRequest request maxItems s) = Storage.workflows s.
Proof.
  intros old log.
  assert (E : log = skipn (length old + 1 - maxItems) (old ++ [request])).
  { unfold log, Storage.saveRequest. simpl. fold old.
    rewrite length_app. simpl.
    destruct (Nat.ltb_spec maxItems (length old + 1)) as [Hlt|Hge]; [reflexivity|].
    replace (length old + 1 - maxItems) with 0 by lia. reflexivity. }
  split; [exact E|]. split; [|split].
  - rewrite E, length_skipn, length_app. simpl. lia.
  - intros Hm. rewrite E. apply StorageFacts.skipn_snoc. lia.
  - repeat split.
Qed.

Lemma saveRequest_keeps_newest_witness :
  Storage.requestHistory
    (Storage.saveRequest (RebuildFacts.req "c") 2
       (Storage.mk [RebuildFacts.req "a"; RebuildFacts.req "b"] [] [] []))
  = [RebuildFacts.req "b"; RebuildFacts.req "c"].
Proof.
  exact (proj1 (proj2 (proj2
    (saveRequest_keeps_newest (RebuildFacts.req "c") 2
       (Storage.mk [RebuildFacts.req "a"; RebuildFacts.req "b"] [] [] []))))
    ltac:(lia)).
Defined.



(** X3. [incrementWorkflowFrequency] on an id that is not stored changes
    nothing.  On a stored workflow, calls at the times [times ++ [final]] add
    the number of calls to its frequency, set [lastExecuted] to the time of
    the last call and keep its id, name, description and action list; the
    workflows stored under other ids are not touched. *)
Theorem incrementWorkflowFrequency_counts_calls (id : string) (s : Storage.t) :
  (Storage.getWorkflowById id s = None ->
   forall times, StorageRest.incrementAt times id s = s) /\
  (forall w times final,
     Storage.getWorkflowById id s = Some w ->
     Storage.getWorkflowById id (StorageRest.incrementAt (times ++ [final]) id s)
     = Some (Workflow.mk (Workflow.id w) (Workflow.name w) (Workflow.description w)
                         (Workflow.actions w)
                         (Workflow.frequency w + length times + 1) (Some final))) /\
  (forall other times,
     other <> id ->
     Storage.getWorkflowById other (StorageRest.incrementAt times id s)
     = Storage.getWorkflowById other s).
Proof.
  split; [|split].
  - intros Hn times. unfold StorageRest.incrementAt.
    induction times as [|t times IH]; simpl; [reflexivity|].
    now rewrite StorageFacts.increment_missing.
  - intros w times. revert s w.
    unfold StorageRest.incrementAt.
    induction times as [|t times IH]; intros s w final Hw; simpl.
    + rewrite (@StorageFacts.increment_present final id w s Hw). do 2 f_equal. lia.
    + rewrite (IH _ _ final (@StorageFacts.increment_present t id w s Hw)). simpl.
      do 2 f_equal. lia.
  - intros other times Hne. revert s. unfold StorageRest.incrementAt.
    induction times as [|t times IH]; intros s; simpl; [reflexivity|].
    rewrite IH. now apply StorageFacts.increment_other.
Qed.

Lemma incrementWorkflowFrequency_counts_calls_witness :
  Storage.getWorkflowById "wf"
    (StorageRest.incrementAt [1700000000000; 1700000005000]%Z "wf"
                             StorageFacts.sampleStore)
  = Some (Workflow.mk "wf" "Workflow 1" "open -> save" [] 3 (Some 1700000005000%Z)).
Proof.
  exact (proj1 (proj2 (incrementWorkflowFrequency_counts_calls "wf"
                         StorageFacts.sampleStore))
               StorageFacts.sampleWorkflow [1700000000000%Z] 1700000005000%Z eq_refl).
Defined.

(** ** PatternEngine: what a prediction may change *)

Module EngineShape.
Import Js JsFacts PatternEngine.

(** The state with another action cache and another stored action table. *)
Definition withActions (st : t) (cache actions : Dict Action.t) : t :=
  withStorage (withCache st cache) (Storage.withActions (storage st) actions).

Lemma withActions_same st :
  withActions st (actionCache st) (Storage.actions (storage st)) = st.
Proof. destruct st as [o c p r a t [h pt ac w] d pe n]. reflexivity. Qed.

(** [createPrediction] changes at most the cache and the action table. *)
Lemma createPrediction_shape actionId confidence st p st' :
  createPrediction actionId confidence st = Some (p, st') ->
  exists cache actions,
    st' = withActions st cache actions /\
    Prediction.confidence p = confidence.
Proof.
  unfold createPrediction. intros H.
  destruct (dget _ (actionCache st)).
  - inversion H; subst. exists (actionCache st'), (Storage.actions (storage st')).
    now rewrite withActions_same.
  - destruct actionId as [aid|]; [|discriminate].
    destruct (find _ _); [|discriminate]. inversion H; subst.
    eexists. eexists. split; reflexivity.
Qed.

Lemma scanPatterns_shape now patternLength lookupPattern entries st p st' :
  scanPatterns now patternLength lookupPattern entries st = Some (p, st') ->
  exists cache actions, st' = withActions st cache actions.
Proof.
  induction entries as [|[pattern frequency] entries IH]; simpl; [discriminate|].
  destruct (extends pattern lookupPattern); auto.
  destruct (Rgeb _ 0.3); auto.
  destruct (createPrediction _ _ st) as [[p0 st0]|] eqn:E; auto.
  intros H. inversion H; subst.
  destruct (createPrediction_shape _ _ _ E) as [c [a [Hs _]]]. eauto.
Qed.

Lemma exactMatch_shape now st p st' :
  exactMatch now st = Some (p, st') ->
  exists cache actions, st' = withActions st cache actions.
Proof.
  unfold exactMatch.
  generalize (Nat.min (length (currentSequence st) - 1) (maxPatternLength st)).
  intros longest. induction longest as [|shorter IH]; simpl; [discriminate|].
  destruct shorter as [|k]; [discriminate|].
  destruct (scanPatterns now (S (S k)) _ _ st) as [[p0 st0]|] eqn:E; auto.
  intros H. inversion H; subst. eapply scanPatterns_shape; eauto.
Qed.

Lemma fuzzyMatch_shape st p st' :
  fuzzyMatch st = Some (p, st') ->
  exists cache actions, st' = withActions st cache actions.
Proof.
  unfold fuzzyMatch.
  destruct (length (currentSequence st) <? 2); [discriminate|].
  destruct (rev (currentSequence st)) as [|lastRequest ?]; [discriminate|].
  destruct (length _ =? 0); [discriminate|].
  destruct (tally _ _) as [nextActions totalOccurrences].
  destruct (totalOccurrences =? 0); [discriminate|].
  destruct (pickBest nextActions) as [[best|] bestCount]; [|discriminate].
  destruct (truthy best); [|discriminate].
  intros H. destruct (createPrediction_shape _ _ _ H) as [c [a [Hs _]]]. eauto.
Qed.

(** [predictNextAction] either changes nothing, or derives at most one
    action and hands one prediction to every registered callback. *)
Lemma predictNextAction_shape now st :
  predictNextAction now st = st \/
  exists p cache actions,
    predictNextAction now st =
    withDelivered (withActions st cache actions)
      (delivered st ++ map (fun callback => (callback, p)) (predictionCallbacks st))%list.
Proof.
  unfold predictNextAction, fuzzyMatchAction.
  destruct (length (currentSequence st) <? 2); [now left|].
  destruct (exactMatch now st) as [[p st']|] eqn:E.
  - right. destruct (exactMatch_shape _ _ E) as [c [a Hs]]. subst st'.
    exists p, c, a. reflexivity.
  - destruct (fuzzyMatch st) as [[p st']|] eqn:F; [|now left].
    right. destruct (fuzzyMatch_shape _ F) as [c [a Hs]]. subst st'.
    exists p, c, a. reflexivity.
Qed.

End EngineShape.

Module EngineFrame.
Import Js JsFacts PatternEngine EngineShape.

(** What [predictNextAction] never touches. *)
Lemma predictNextAction_frame now st :
  let st' := predictNextAction now st in
  options st' = options st /\ currentSequence st' = currentSequence st /\
  predictionCallbacks st' = predictionCallbacks st /\ isRunning st' = isRunning st /\
  patternAnalysisTimer st' = patternAnalysisTimer st /\
  pendingTimers st' = pendingTimers st /\ nextTimer st' = nextTimer st /\
  Storage.requestHistory (storage st') = Storage.requestHistory (storage st) /\
  Storage.workflows (storage st') = Storage.workflows (storage st).
Proof.
  destruct (predictNextAction_shape now st) as [E|[p [c [a E]]]]; simpl; rewrite E;
    repeat split.
Qed.

Lemma maxPatternLength_pos st : 1 <= maxPatternLength st.
Proof.
  unfold maxPatternLength, orDefault.
  destruct (CellOptions.maxPatternLength (options st)) as [[|m]|]; lia.
Qed.

Lemma maxStoredPatterns_pos st : 1 <= maxStoredPatterns st.
Proof.
  unfold maxStoredPatterns, orDefault.
  destruct (CellOptions.maxStoredPatterns (options st)) as [[|m]|]; lia.
Qed.

(** The three stages of [addRequest] on a running engine: the request is
    saved and pushed on the window, a prediction is attempted, the rebuild
    is scheduled unless a handle is already held. *)
Definition pushed (request : NetworkRequest.t) (st : t) : t :=
  let st := withStorage st (Storage.saveRequest request (maxStoredPatterns st) (storage st)) in
  let st := withSequence st (currentSequence st ++ [request])%list in
  if maxPatternLength st <? length (currentSequence st)
  then withSequence st (tl (currentSequence st)) else st.

Definition scheduled (st : t) : t :=
  match patternAnalysisTimer st with
  | Some (S _) => st
  | _ => withTimer st (Some (nextTimer st)) (nextTimer st :: pendingTimers st)
                   (S (nextTimer st))
  end.

Lemma addRequest_running now request st :
  isRunning st = true ->
  addRequest now request st = scheduled (predictNextAction now (pushed request st)).
Proof. intros Hr. unfold addRequest. rewrite Hr. reflexivity. Qed.

Lemma scheduled_frame st :
  options (scheduled st) = options st /\
  currentSequence (scheduled st) = currentSequence st /\
  storage (scheduled st) = storage st /\ delivered (scheduled st) = delivered st /\
  actionCache (scheduled st) = actionCache st /\ isRunning (scheduled st) = isRunning st /\
  predictionCallbacks (scheduled st) = predictionCallbacks st.
Proof.
  unfold scheduled. destruct (patternAnalysisTimer st) as [[|h]|]; repeat split.
Qed.

Lemma pushed_frame request st :
  options (pushed request st) = options st /\
  currentSequence (pushed request st) =
    (if maxPatternLength st <? length (currentSequence st) + 1
     then tl (currentSequence st ++ [request])
     else currentSequence st ++ [request])%list /\
  storage (pushed request st)
    = Storage.saveRequest request (maxStoredPatterns st) (storage st) /\
  delivered (pushed request st) = delivered st /\
  actionCache (pushed request st) = actionCache st /\
  predictionCallbacks (pushed request st) = predictionCallbacks st /\
  patternAnalysisTimer (pushed request st) = patternAnalysisTimer st /\
  pendingTimers (pushed request st) = pendingTimers st /\
  nextTimer (pushed request st) = nextTimer st /\
  isRunning (pushed request st) = isRunning st.
Proof.
  unfold pushed, maxPatternLength. simpl. rewrite length_app. simpl.
  destruct (_ <? _); repeat split.
Qed.

(** The window after [addRequest] on a running engine: the request is
    appended and one entry is shifted off the front when the window is
    longer than [maxPatternLength]. *)
Lemma addRequest_sequence now request st :
  isRunning st = true ->
  currentSequence (addRequest now request st) =
  if maxPatternLength st <? length (currentSequence st) + 1
  then (tl (currentSequence st ++ [request]))%list
  else (currentSequence st ++ [request])%list.
Proof.
  intros Hr. rewrite addRequest_running by assumption.
  destruct (scheduled_frame (predictNextAction now (pushed request st)))
    as [_ [Hs _]]. rewrite Hs.
  destruct (predictNextAction_frame now (pushed request st)) as [_ [Hp _]].
  simpl in Hp. rewrite Hp.
  now destruct (pushed_frame request st) as [_ [Hq _]].
Qed.

Lemma addRequest_options now request st :
  options (addRequest now request st) = options st.
Proof.
  destruct (isRunning st) eqn:Hr.
  - rewrite addRequest_running by assumption.
    destruct (scheduled_frame (predictNextAction now (pushed request st))) as [Hs _].
    rewrite Hs.
    destruct (predictNextAction_frame now (pushed request st)) as [Hp _].
    simpl in Hp. rewrite Hp.
    now destruct (pushed_frame request st) as [Hq _].
  - unfold addRequest. now rewrite Hr.
Qed.

Lemma analyze_sequence st :
  currentSequence (analyzeHistoricalPatterns st) = currentSequence st /\
  options (analyzeHistoricalPatterns st) = options st.
Proof.
  unfold analyzeHistoricalPatterns. destruct (isRunning st); simpl; auto.
Qed.

Lemma handle_window e st :
  options (handle e st) = options st /\
  (length (currentSequence st) <= maxPatternLength st ->
   length (currentSequence (handle e st)) <= maxPatternLength st).
Proof.
  destruct e as [| |now request|h]; simpl.
  - unfold start. destruct (isRunning st); [auto|].
    destruct (analyze_sequence (withRunning st true)) as [Hs Ho].
    rewrite Hs, Ho. auto.
  - unfold stop. destruct (isRunning st); simpl; auto.
    destruct (patternAnalysisTimer st) as [[|h]|]; simpl; auto.
  - split; [apply addRequest_options|]. intros Hlen.
    destruct (isRunning st) eqn:Hr.
    + rewrite addRequest_sequence by assumption.
      destruct (Nat.ltb_spec (maxPatternLength st) (length (currentSequence st) + 1)).
      * destruct (currentSequence st); simpl in *; [lia|].
        rewrite length_app. simpl. lia.
      * rewrite length_app. simpl. lia.
    + unfold addRequest. rewrite Hr. simpl. exact Hlen.
  - unfold timerFired. destruct (existsb _ _); auto.
    destruct (analyze_sequence st) as [Hs Ho]. simpl. rewrite Hs, Ho. auto.
Qed.

Lemma run_window events : forall st,
  options (run events st) = options st /\
  (length (currentSequence st) <= maxPatternLength st ->
   length (currentSequence (run events st)) <= maxPatternLength st).
Proof.
  induction events as [|e events IH]; intros st; simpl; [auto|].
  destruct (handle_window e st) as [Ho Hl].
  destruct (IH (handle e st)) as [Ho' Hl'].
  assert (Hm : maxPatternLength (handle e st) = maxPatternLength st)
    by (unfold maxPatternLength; now rewrite Ho).
  rewrite Hm in Hl'. split; [congruence | auto].
Qed.

End EngineFrame.

(** X4. The current sequence is a bounded first-in first-out window.  On a
    running engine [addRequest] appends the request, which becomes the last
    entry, and drops at most one entry, the oldest; and whatever is started,
    stopped, added or fired on an engine created by the constructor, the
    window never holds more than [maxPatternLength] requests. *)
Theorem currentSequence_bounded_window :
  (forall now request st,
     PatternEngine.isRunning st = true ->
     exists dropped kept,
       (PatternEngine.currentSequence st ++ [request] = dropped ++ kept ++ [request])%list /\
       PatternEngine.currentSequence (PatternEngine.addRequest now request st)
       = (kept ++ [request])%list /\
       length dropped <= 1) /\
  (forall opts store events,
     length (PatternEngine.currentSequence
               (PatternEngine.run events (PatternEngine.new opts store)))
     <= PatternEngine.maxPatternLength (PatternEngine.new opts store)).
Proof.
  split.
  - intros now request st Hr.
    rewrite EngineFrame.addRequest_sequence by assumption.
    pose proof (EngineFrame.maxPatternLength_pos st) as Hpos.
    destruct (Nat.ltb_spec (PatternEngine.maxPatternLength st)
                (length (PatternEngine.currentSequence st) + 1)) as [Hlt|Hge].
    + destruct (PatternEngine.currentSequence st) as [|oldest rest];
        [simpl in Hlt; lia|].
      exists [oldest], rest. simpl. auto.
    + exists [], (PatternEngine.currentSequence st). simpl. auto.
  - intros opts store events.
    destruct (EngineFrame.run_window events (PatternEngine.new opts store)) as [_ H].
    apply H. simpl. lia.
Qed.

Lemma currentSequence_bounded_window_witness :
  exists dropped kept,
    (PatternEngine.currentSequence (ExactFacts.engine ["x"; "a"]%string [] [])
       ++ [ExactFacts.evt "b"]
     = dropped ++ kept ++ [ExactFacts.evt "b"])%list /\
    PatternEngine.currentSequence
      (PatternEngine.addRequest 1700000000000 (ExactFacts.evt "b")
         (ExactFacts.engine ["x"; "a"]%string [] []))
    = (kept ++ [ExactFacts.evt "b"])%list /\
    length dropped <= 1.
Proof.
  exact (proj1 currentSequence_bounded_window 1700000000000%Z (ExactFacts.evt "b")
               (ExactFacts.engine ["x"; "a"]%string [] []) eq_refl).
Defined.

(** X5. On a running engine [addRequest] stores the request as the last
    entry of the persisted log and keeps the log within the configured
    capacity ([maxStoredPatterns], 1000 by default), dropping only entries
    from the front. *)
Theorem addRequest_log_capped
        (now : Z) (request : NetworkRequest.t) (st : PatternEngine.t) :
  PatternEngine.isRunning st = true ->
  let old := Storage.requestHistory (PatternEngine.storage st) in
  let log := Storage.requestHistory
               (PatternEngine.storage (PatternEngine.addRequest now request st)) in
  length log <= PatternEngine.maxStoredPatterns st /\
  exists dropped kept,
    old = (dropped ++ kept)%list /\ log = (kept ++ [request])%list.
Proof.
  intros Hr old log.
  assert (E : log = skipn (length old + 1 - PatternEngine.maxStoredPatterns st)
                          (old ++ [request])).
  { unfold log. rewrite EngineFrame.addRequest_running by assumption.
    destruct (EngineFrame.scheduled_frame
                (PatternEngine.predictNextAction now (EngineFrame.pushed request st)))
      as [_ [_ [Hs _]]]. rewrite Hs.
    destruct (EngineFrame.predictNextAction_frame now (EngineFrame.pushed request st))
      as [_ [_ [_ [_ [_ [_ [_ [Hh _]]]]]]]]. simpl in Hh. rewrite Hh.
    destruct (EngineFrame.pushed_frame request st) as [_ [_ [Hq _]]]. rewrite Hq.
    unfold Storage.saveRequest. simpl. fold old. rewrite length_app. simpl.
    destruct (Nat.ltb_spec (PatternEngine.maxStoredPatterns st) (length old + 1));
      [reflexivity|].
    replace (length old + 1 - PatternEngine.maxStoredPatterns st) with 0 by lia.
    reflexivity. }
  pose proof (EngineFrame.maxStoredPatterns_pos st) as Hpos.
  split.
  - rewrite E, length_skipn, length_app. simpl. lia.
  - exists (firstn (length old + 1 - PatternEngine.maxStoredPatterns st) old),
           (skipn (length old + 1 - PatternEngine.maxStoredPatterns st) old).
    split; [now rewrite firstn_skipn|].
    rewrite E. apply StorageFacts.skipn_snoc. lia.
Qed.

Lemma addRequest_log_capped_witness :
  length (Storage.requestHistory
            (PatternEngine.storage
               (PatternEngine.addRequest 1700000000000 (ExactFacts.evt "b")
                  (ExactFacts.engine ["x"; "a"]%string ["x"; "a"]%string []))))
  <= 1000.
Proof.
  exact (proj1 (@addRequest_log_capped 1700000000000 (ExactFacts.evt "b")
                  (ExactFacts.engine ["x"; "a"]%string ["x"; "a"]%string []) eq_refl)).
Defined.

Module PredictionFacts.
Import Js JsFacts PatternEngine EngineShape EngineFrame.

Lemma tryLengths_short now patterns sequenceIds st longest :
  longest <= 1 -> tryLengths now patterns sequenceIds longest st = None.
Proof.
  intros H. destruct longest as [|[|k]]; try reflexivity. lia.
Qed.

Lemma addRequest_delivered now request st :
  delivered (addRequest now request st)
  = delivered (predictNextAction now (pushed request st)) \/
  addRequest now request st = st.
Proof.
  destruct (isRunning st) eqn:Hr.
  - left. rewrite addRequest_running by assumption.
    now destruct (scheduled_frame (predictNextAction now (pushed request st)))
      as [_ [_ [_ [Hd _]]]].
  - right. unfold addRequest. now rewrite Hr.
Qed.

End PredictionFacts.

(** X6. The exact n-gram path needs three events: with a window of at most
    two requests it yields nothing, so with fewer than two requests
    [predictNextAction] changes nothing and with exactly two only the fuzzy
    path can predict.  In particular the first request added to a running
    engine whose window is empty is delivered to no callback. *)
Theorem prediction_needs_context (now : Z) (st : PatternEngine.t) :
  (length (PatternEngine.currentSequence st) <= 2 ->
   PatternEngine.exactMatch now st = None) /\
  (length (PatternEngine.currentSequence st) < 2 ->
   PatternEngine.predictNextAction now st = st) /\
  (length (PatternEngine.currentSequence st) = 2 ->
   PatternEngine.predictNextAction now st = PatternEngine.fuzzyMatchAction st) /\
  (forall request,
     PatternEngine.currentSequence st = [] ->
     PatternEngine.delivered (PatternEngine.addRequest now request st)
     = PatternEngine.delivered st).
Proof.
  assert (Hexact : length (PatternEngine.currentSequence st) <= 2 ->
                   PatternEngine.exactMatch now st = None).
  { intros H. unfold PatternEngine.exactMatch.
    apply PredictionFacts.tryLengths_short. lia. }
  split; [exact Hexact|]. split; [|split].
  - intros H. unfold PatternEngine.predictNextAction.
    apply Nat.ltb_lt in H. now rewrite H.
  - intros H. unfold PatternEngine.predictNextAction.
    rewrite H, Hexact by lia. reflexivity.
  - intros request Hempty.
    destruct (PredictionFacts.addRequest_delivered now request st) as [E|E];
      [|now rewrite E].
    rewrite E.
    destruct (EngineFrame.pushed_frame request st) as [_ [Hs [_ [Hd _]]]].
    rewrite Hempty in Hs. simpl in Hs.
    pose proof (EngineFrame.maxPatternLength_pos st) as Hpos.
    destruct (Nat.ltb_spec (PatternEngine.maxPatternLength st) 1) as [Hlt|_]; [lia|].
    unfold PatternEngine.predictNextAction. rewrite Hs. simpl. exact Hd.
Qed.

Lemma prediction_needs_context_witness :
  PatternEngine.exactMatch 1700000000000
    (ExactFacts.engine ["a"; "b"]%string ["a"; "b"; "c"]%string [("a,b,c"%string, 10)])
  = None.
Proof.
  apply (proj1 (prediction_needs_context 1700000000000
                 (ExactFacts.engine ["a"; "b"]%string ["a"; "b"; "c"]%string
                                    [("a,b,c"%string, 10)]))).
  simpl. lia.
Defined.

(** X7. One call of [addRequest] hands at most one prediction to the
    callbacks: either nothing is delivered, or each registered callback
    receives the same prediction once, in registration order; with no
    callback registered nothing is delivered. *)
Theorem addRequest_delivers_at_most_one
        (now : Z) (request : NetworkRequest.t) (st : PatternEngine.t) :
  PatternEngine.delivered (PatternEngine.addRequest now request st)
    = PatternEngine.delivered st \/
  exists p,
    PatternEngine.delivered (PatternEngine.addRequest now request st)
    = (PatternEngine.delivered st
       ++ map (fun callback => (callback, p)) (PatternEngine.predictionCallbacks st))%list.
Proof.
  destruct (PredictionFacts.addRequest_delivered now request st) as [E|E];
    [|left; now rewrite E].
  rewrite E.
  destruct (EngineFrame.pushed_frame request st) as [_ [_ [_ [Hd [_ [Hc _]]]]]].
  destruct (EngineShape.predictNextAction_shape now (EngineFrame.pushed request st))
    as [H|[p [c [a H]]]]; rewrite H.
  - left. exact Hd.
  - right. exists p. simpl. now rewrite Hd, Hc.
Qed.



Module SimilarityFacts.
Import Js JsFacts PatternEngine FuzzyFacts FuzzyPath.

Lemma stringSimilarity_unit a b : (0 <= Helpers.stringSimilarity a b <= 1)%R.
Proof.
  destruct (stringSimilarity_cases a b)
    as [[_ H] | [[_ [_ H]] | [_ [_ [_ [Hd H]]]]]]; rewrite H; try lra.
  pose proof (ratio_bounds Hd). lra.
Qed.

Lemma occurrencesOf_le k l : occurrencesOf k l <= length l.
Proof. unfold occurrencesOf. apply filter_length_le. Qed.

Lemma occurrencesOf_in k l : In k l -> 0 < occurrencesOf k l.
Proof.
  unfold occurrencesOf. induction l as [|x l IH]; simpl; [tauto|].
  intros [->|H].
  - rewrite String.eqb_refl. simpl. lia.
  - destruct (String.eqb x k); simpl; auto. specialize (IH H). lia.
Qed.

Lemma rev_two (A : Type) (l : list A) :
  2 <= length l -> exists x y rest, rev l = x :: y :: rest.
Proof.
  intros H. rewrite <- length_rev in H.
  destruct (rev l) as [|x [|y rest]]; simpl in H; try lia. eauto.
Qed.

(** The bound of the distance from below, as a bound of the similarity:
    two strings are at most as similar as the shorter is long relative to
    the longer. *)
Lemma stringSimilarity_length_ratio a b :
  0 < Nat.max (String.length a) (String.length b) ->
  (Helpers.stringSimilarity a b
   <= INR (Nat.min (String.length a) (String.length b))
      / INR (Nat.max (String.length a) (String.length b)))%R.
Proof.
  intros Hmax.
  set (lo := Nat.min (String.length a) (String.length b)).
  set (hi := Nat.max (String.length a) (String.length b)) in *.
  assert (Hhi : (0 < INR hi)%R) by (apply lt_0_INR; exact Hmax).
  assert (Hlo : (0 <= INR lo)%R) by apply pos_INR.
  assert (Hle : lo <= hi) by (unfold lo, hi; lia).
  assert (Hratio : (0 <= INR lo / INR hi)%R).
  { apply Rmult_le_pos; [exact Hlo|]. left. now apply Rinv_0_lt_compat. }
  destruct (stringSimilarity_cases a b)
    as [[Heq H] | [[_ [_ H]] | [_ [_ [_ [Hd H]]]]]]; rewrite H.
  - subst b. assert (lo = hi) by (unfold lo, hi; lia).
    replace lo with hi by congruence. unfold Rdiv. rewrite Rinv_r; lra.
  - exact Hratio.
  - fold hi. fold hi in Hd.
    assert (Hlow : hi - lo <= Helpers.levenshtein a b).
    { unfold Helpers.levenshtein, hi, lo.
      pose proof (HelpersFacts.lev_lower a b (String.length a) (String.length b)). lia. }
    apply le_INR in Hlow. rewrite minus_INR in Hlow by exact Hle.
    assert (INR hi / INR hi = 1)%R by (unfold Rdiv; rewrite Rinv_r; lra).
    assert ((INR hi - INR lo) / INR hi <= INR (Helpers.levenshtein a b) / INR hi)%R.
    { unfold Rdiv. apply Rmult_le_compat_r; [|exact Hlow].
      left. now apply Rinv_0_lt_compat. }
    unfold Rdiv in *. lra.
Qed.

(** The confidence of the fuzzy path is the share of the chosen
    continuation among the continuations counted. *)
Lemma fuzzyMatch_confidence (st st' : PatternEngine.t) (p : Prediction.t) :
  PatternEngine.fuzzyMatch st = Some (p, st') ->
  (0 < Prediction.confidence p <= 1)%R.
Proof.
  intros H.
  assert (Hlen : 2 <= length (PatternEngine.currentSequence st)).
  { unfold PatternEngine.fuzzyMatch in H.
    destruct (Nat.ltb_spec (length (PatternEngine.currentSequence st)) 2);
      [discriminate | assumption]. }
  destruct (rev_two _ Hlen) as [lastRequest [previous [earlier Hrev]]].
  destruct (@FuzzyPath.fuzzyMatch_tallied st lastRequest previous earlier Hrev)
    as [Hnone Hsome].
  set (counted := FuzzyFacts.talliedIds _ _) in *.
  destruct counted as [|k0 rest] eqn:Ec; [rewrite Hnone in H by reflexivity; discriminate|].
  destruct (Hsome ltac:(discriminate)) as [best [Hin [_ Hf]]].
  rewrite Hf in H. destruct (Js.truthy best); [|discriminate].
  destruct (EngineShape.createPrediction_shape _ _ _ H) as [_ [_ [_ Hc]]].
  rewrite Hc.
  pose proof (occurrencesOf_in _ _ Hin) as Hpos.
  pose proof (occurrencesOf_le best (k0 :: rest)) as Hle.
  apply lt_INR in Hpos. apply le_INR in Hle. simpl INR at 1 in Hpos.
  set (n := INR (FuzzyFacts.occurrencesOf best (k0 :: rest))) in *.
  set (m := INR (length (k0 :: rest))) in *.
  assert (0 < m)%R by lra.
  split.
  - apply Rdiv_lt_0_compat; assumption.
  - apply Rmult_le_reg_r with m; [assumption|].
    unfold Rdiv. rewrite Rmult_assoc, Rinv_l by lra. lra.
Qed.

End SimilarityFacts.

(** X9. A prediction of the fuzzy path has a confidence in the interval
    (0, 1]: it is the count of the chosen continuation over the number of
    continuations counted, and the chosen one is counted at least once. *)
Theorem fuzzyMatch_confidence_unit
        (st st' : PatternEngine.t) (p : Prediction.t) :
  PatternEngine.fuzzyMatch st = Some (p, st') ->
  (0 < Prediction.confidence p <= 1)%R.
Proof. exact (@SimilarityFacts.fuzzyMatch_confidence st st' p). Qed.

Lemma fuzzyMatch_confidence_unit_witness :
  exists p st',
    PatternEngine.fuzzyMatch
      (PatternEngine.withStorage FuzzyExamples.repeatedId
         (Storage.mk [FuzzyExamples.users1; FuzzyExamples.projects; FuzzyExamples.users2]
                     [] [] []))
    = Some (p, st') /\
    (0 < Prediction.confidence p <= 1)%R.
Proof.
  set (st := PatternEngine.withStorage FuzzyExamples.repeatedId
               (Storage.mk [FuzzyExamples.users1; FuzzyExamples.projects;
                            FuzzyExamples.users2] [] [] [])).
  destruct (@FuzzyPath.fuzzyMatch_tallied st FuzzyExamples.users2 FuzzyExamples.billing
              [FuzzyExamples.users1; FuzzyExamples.projects; FuzzyExamples.users1]
              eq_refl) as [_ H].
  change (Storage.getRequestHistory (PatternEngine.storage st))
    with [FuzzyExamples.users1; FuzzyExamples.projects; FuzzyExamples.users2] in H.
  assert (Hs : PatternEngine.similarRequests
                 [FuzzyExamples.users1; FuzzyExamples.projects; FuzzyExamples.users2]
                 FuzzyExamples.users2 = [FuzzyExamples.users1]).
  { unfold PatternEngine.similarRequests. cbn [filter].
    rewrite FuzzyExamples.users_similar, FuzzyExamples.projects_not_similar,
      FuzzyExamples.self_not_similar. reflexivity. }
  rewrite Hs in H.
  replace (FuzzyFacts.talliedIds
             [FuzzyExamples.users1; FuzzyExamples.projects; FuzzyExamples.users2]
             [FuzzyExamples.users1])
    with ["projects"%string] in H by (vm_compute; reflexivity).
  destruct (H ltac:(discriminate)) as [best [Hin [_ Hf]]].
  assert (best = "projects"%string) by (destruct Hin as [<-|[]]; reflexivity).
  subst best.
  assert (Hm : exists p st', PatternEngine.fuzzyMatch st = Some (p, st')).
  { eexists. eexists. rewrite Hf. reflexivity. }
  destruct Hm as [p [st' Hm]]. exists p, st'. split; [exact Hm|].
  exact (fuzzyMatch_confidence_unit _ Hm).
Defined.

(** X10. What the fuzzy path counts as similar.  With the weights 0.8 for
    the url and 0.2 for the method and the threshold 0.8, a logged event is
    similar to the last event of the window exactly when it is another event
    (a different id) of the same method whose url similarity exceeds 0.75:
    an event of another method is never similar, however close its url. *)
Theorem isSimilar_same_method_close_url (lastRequest request : NetworkRequest.t) :
  PatternEngine.isSimilar lastRequest request = true <->
  NetworkRequest.id request <> NetworkRequest.id lastRequest /\
  NetworkRequest.method request = NetworkRequest.method lastRequest /\
  (0.75 < Helpers.stringSimilarity (NetworkRequest.url request)
                                   (NetworkRequest.url lastRequest))%R.
Proof.
  unfold PatternEngine.isSimilar, PatternEngine.totalSimilarity.
  pose proof (SimilarityFacts.stringSimilarity_unit
                (NetworkRequest.url request) (NetworkRequest.url lastRequest)) as Hu.
  rewrite andb_true_iff, negb_true_iff, ExactFacts.Rgtb_true.
  destruct (String.eqb_spec (NetworkRequest.id request) (NetworkRequest.id lastRequest))
    as [Hi|Hi];
    destruct (String.eqb_spec (NetworkRequest.method request)
                              (NetworkRequest.method lastRequest)) as [Hm|Hm];
    split; intros [H1 H2]; try discriminate; try tauto.
  - split; [assumption|]. split; [assumption|]. lra.
  - split; [reflexivity|]. lra.
  - lra.
Qed.

(** X11. Urls of too different lengths are never similar.  The similarity of
    two strings is at most the length of the shorter over the length of the
    longer, so an event whose url has at most three quarters of the length
    of the other url (or the other way round) is never counted as similar,
    whatever the two urls share. *)
Theorem isSimilar_needs_close_lengths (lastRequest request : NetworkRequest.t) :
  0 < Nat.max (String.length (NetworkRequest.url request))
              (String.length (NetworkRequest.url lastRequest)) ->
  4 * Nat.min (String.length (NetworkRequest.url request))
              (String.length (NetworkRequest.url lastRequest))
  <= 3 * Nat.max (String.length (NetworkRequest.url request))
                 (String.length (NetworkRequest.url lastRequest)) ->
  PatternEngine.isSimilar lastRequest request = false.
Proof.
  intros Hpos Hlen.
  unfold PatternEngine.isSimilar, PatternEngine.totalSimilarity.
  pose proof (@SimilarityFacts.stringSimilarity_length_ratio
                (NetworkRequest.url request) (NetworkRequest.url lastRequest) Hpos) as Hr.
  set (lo := Nat.min _ _) in *. set (hi := Nat.max _ _) in *.
  assert (Hhi : (0 < INR hi)%R) by (apply lt_0_INR; exact Hpos).
  assert (Hq : (INR lo / INR hi <= 0.75)%R).
  { apply Rmult_le_reg_r with (INR hi); [assumption|].
    unfold Rdiv. rewrite Rmult_assoc, Rinv_l by lra.
    apply le_INR in Hlen. rewrite !mult_INR in Hlen. simpl INR in Hlen. lra. }
  apply andb_false_iff. right.
  apply not_true_is_false. rewrite ExactFacts.Rgtb_true.
  destruct (String.eqb _ _); lra.
Qed.

Lemma isSimilar_needs_close_lengths_witness :
  PatternEngine.isSimilar
    (NetworkRequest.mk "r2" "/api/users/42/settings" "GET" [] None 2000 Source.fetch)
    (NetworkRequest.mk "r1" "/api/users" "GET" [] None 1000 Source.fetch) = false.
Proof.
  apply isSimilar_needs_close_lengths; vm_compute; lia.
Defined.

Module TimerFacts.
Import Js PatternEngine EngineFrame.

(** The timer discipline: handles are positive and below the next handle;
    at most one timeout is pending, and it is the one the field holds. *)
Definition disciplined (st : t) : Prop :=
  1 <= nextTimer st /\
  (forall h, patternAnalysisTimer st = Some h -> 1 <= h < nextTimer st) /\
  (pendingTimers st = [] \/
   exists h, pendingTimers st = [h] /\ patternAnalysisTimer st = Some h).

Lemma new_disciplined opts store : disciplined (new opts store).
Proof.
  unfold disciplined, new. simpl. split; [lia|]. split; [discriminate|]. now left.
Qed.

Lemma analyze_timers st :
  patternAnalysisTimer (analyzeHistoricalPatterns st) = patternAnalysisTimer st /\
  pendingTimers (analyzeHistoricalPatterns st) = pendingTimers st /\
  nextTimer (analyzeHistoricalPatterns st) = nextTimer st /\
  isRunning (analyzeHistoricalPatterns st) = isRunning st.
Proof.
  unfold analyzeHistoricalPatterns. destruct (isRunning st) eqn:Hr; simpl; auto.
Qed.

Lemma pushed_timers request st :
  patternAnalysisTimer (pushed request st) = patternAnalysisTimer st /\
  pendingTimers (pushed request st) = pendingTimers st /\
  nextTimer (pushed request st) = nextTimer st.
Proof.
  unfold pushed. cbv zeta. destruct (_ <? _); simpl; auto.
Qed.

Lemma filter_single h : filter (fun x => negb (x =? h)) [h] = [].
Proof. simpl. rewrite Nat.eqb_refl. reflexivity. Qed.

(** The timer fields after each operation. *)
Lemma start_timers st :
  patternAnalysisTimer (start st) = patternAnalysisTimer st /\
  pendingTimers (start st) = pendingTimers st /\ nextTimer (start st) = nextTimer st.
Proof.
  unfold start. destruct (isRunning st); [auto|].
  destruct (analyze_timers (withRunning st true)) as [H1 [H2 [H3 _]]].
  rewrite H1, H2, H3. auto.
Qed.

Lemma stop_timers st :
  disciplined st ->
  patternAnalysisTimer (stop st) = patternAnalysisTimer st /\
  nextTimer (stop st) = nextTimer st /\
  (pendingTimers (stop st) = pendingTimers st \/ pendingTimers (stop st) = []).
Proof.
  intros [Hn [Hh Hp]]. unfold stop.
  destruct (isRunning st); simpl; [|auto].
  destruct (patternAnalysisTimer st) as [[|h]|] eqn:Et; simpl; auto.
  split; [auto|]. split; [reflexivity|]. right.
  destruct Hp as [Hp | [h' [Hp Ht]]]; rewrite Hp; [reflexivity|].
  inversion Ht; subst. apply filter_single.
Qed.

Lemma addRequest_timers now request st :
  disciplined st -> isRunning st = true ->
  match patternAnalysisTimer st with
  | Some h =>
      patternAnalysisTimer (addRequest now request st) = Some h /\
      pendingTimers (addRequest now request st) = pendingTimers st /\
      nextTimer (addRequest now request st) = nextTimer st
  | None =>
      patternAnalysisTimer (addRequest now request st) = Some (nextTimer st) /\
      pendingTimers (addRequest now request st) = [nextTimer st] /\
      nextTimer (addRequest now request st) = S (nextTimer st)
  end.
Proof.
  intros [Hn [Hh Hp]] Hr. rewrite addRequest_running by assumption.
  destruct (predictNextAction_frame now (pushed request st))
    as [_ [_ [_ [_ [H1 [H2 [H3 _]]]]]]].
  destruct (pushed_timers request st) as [P1 [P2 P3]].
  cbv zeta in H1, H2, H3. rewrite P1 in H1. rewrite P2 in H2. rewrite P3 in H3.
  unfold scheduled. rewrite H1.
  destruct (patternAnalysisTimer st) as [[|h]|] eqn:Et.
  - specialize (Hh 0 eq_refl). lia.
  - rewrite H1, H2, H3. auto.
  - simpl. rewrite H2, H3.
    destruct Hp as [Hp | [h' [_ Ht]]]; [|discriminate].
    rewrite Hp. auto.
Qed.

Lemma timerFired_timers h st :
  disciplined st ->
  (patternAnalysisTimer (timerFired h st) = patternAnalysisTimer st /\
   pendingTimers (timerFired h st) = pendingTimers st /\
   nextTimer (timerFired h st) = nextTimer st /\ ~ In h (pendingTimers st)) \/
  (patternAnalysisTimer (timerFired h st) = None /\
   pendingTimers (timerFired h st) = [] /\
   nextTimer (timerFired h st) = nextTimer st /\ pendingTimers st = [h]).
Proof.
  intros [Hn [Hh Hp]]. unfold timerFired.
  destruct (existsb (Nat.eqb h) (pendingTimers st)) eqn:Ex.
  - right. destruct (analyze_timers st) as [A1 [A2 [A3 _]]].
    simpl. rewrite A2, A3.
    destruct Hp as [Hp | [h' [Hp Ht]]]; rewrite Hp in *; [discriminate|].
    simpl in Ex. rewrite orb_false_r in Ex. apply Nat.eqb_eq in Ex. subst h'.
    rewrite filter_single. auto.
  - left. repeat split; auto.
    intros Hin. assert (existsb (Nat.eqb h) (pendingTimers st) = true).
    { apply existsb_exists. exists h. split; [assumption | apply Nat.eqb_refl]. }
    congruence.
Qed.

Lemma handle_disciplined e st : disciplined st -> disciplined (handle e st).
Proof.
  intros Hd. pose proof Hd as [Hn [Hh Hp]].
  destruct e as [| |now request|h]; simpl.
  - destruct (start_timers st) as [H1 [H2 H3]].
    unfold disciplined. rewrite H1, H2, H3. exact Hd.
  - destruct (stop_timers Hd) as [H1 [H3 H2]].
    unfold disciplined. rewrite H1, H3.
    split; [assumption|]. split; [assumption|].
    destruct H2 as [H2|H2]; rewrite H2; auto.
  - destruct (isRunning st) eqn:Hr.
    + pose proof (@addRequest_timers now request st Hd Hr) as Ha.
      destruct (patternAnalysisTimer st) as [h|] eqn:Et.
      * destruct Ha as [H1 [H2 H3]]. unfold disciplined. rewrite H1, H2, H3.
        split; [assumption|]. split; [|assumption].
        intros h' Hh'. inversion Hh'; subst. apply Hh. reflexivity.
      * destruct Ha as [H1 [H2 H3]]. unfold disciplined. rewrite H1, H2, H3.
        split; [lia|]. split.
        -- intros h' Hh'. inversion Hh'; subst. lia.
        -- right. eauto.
    + unfold addRequest. rewrite Hr. exact Hd.
  - destruct (timerFired_timers h Hd) as [[H1 [H2 [H3 _]]] | [H1 [H2 [H3 _]]]];
      unfold disciplined; rewrite H1, H2, H3.
    + exact Hd.
    + split; [assumption|]. split; [discriminate|]. now left.
Qed.

Lemma run_disciplined events st : disciplined st -> disciplined (run events st).
Proof.
  unfold run. revert st. induction events as [|e events IH]; simpl; auto.
  intros st Hd. apply IH. now apply handle_disciplined.
Qed.

(** Once a handle is held and nothing is pending, it stays so. *)
Definition stale (st : t) : Prop :=
  disciplined st /\ pendingTimers st = [] /\ patternAnalysisTimer st <> None.

Lemma handle_stale e st : stale st -> stale (handle e st) /\
  patternAnalysisTimer (handle e st) = patternAnalysisTimer st.
Proof.
  intros [Hd [Hp Ht]].
  assert (Hd' : disciplined (handle e st)) by now apply handle_disciplined.
  unfold stale. destruct e as [| |now request|h]; simpl in *.
  - destruct (start_timers st) as [H1 [H2 H3]]. rewrite H1, H2. auto.
  - destruct (stop_timers Hd) as [H1 [H3 H2]]. rewrite H1.
    destruct H2 as [H2|H2]; rewrite H2; auto.
  - destruct (isRunning st) eqn:Hr.
    + pose proof (@addRequest_timers now request st Hd Hr) as Ha.
      destruct (patternAnalysisTimer st) as [h|] eqn:Et; [|congruence].
      destruct Ha as [H1 [H2 H3]]. rewrite H1, H2. auto.
    + unfold addRequest in *. rewrite Hr in *. auto.
  - destruct (timerFired_timers h Hd) as [[H1 [H2 [H3 _]]] | [H1 [H2 [H3 H4]]]].
    + rewrite H1, H2. auto.
    + rewrite Hp in H4. discriminate.
Qed.

Lemma run_stale events st : stale st ->
  stale (run events st) /\
  patternAnalysisTimer (run events st) = patternAnalysisTimer st.
Proof.
  unfold run. revert st. induction events as [|e events IH]; simpl; auto.
  intros st Hs. destruct (handle_stale e Hs) as [Hs' Ht].
  destruct (IH _ Hs') as [Hs'' Ht']. split; [assumption | congruence].
Qed.

Lemma stop_stale st :
  disciplined st -> isRunning st = true -> pendingTimers st <> [] -> stale (stop st).
Proof.
  intros Hd Hr Hp. pose proof Hd as [Hn [Hh Hq]].
  destruct Hq as [Hq | [h [Hq Ht]]]; [contradiction|].
  assert (Hd' : disciplined (stop st)) by (apply (handle_disciplined Stop); assumption).
  split; [assumption|].
  unfold stop. rewrite Hr. simpl. rewrite Ht.
  destruct h as [|h]; [specialize (Hh 0 Ht); lia|].
  simpl. rewrite Hq, filter_single. split; [reflexivity | discriminate].
Qed.

End TimerFacts.

(** X12. The background rebuild is debounced.  Whatever sequence of starts,
    stops, requests and timeouts an engine goes through from its
    construction, at most one rebuild timeout is pending at any time, so the
    rebuilds never pile up however fast requests arrive. *)
Theorem rebuild_timer_debounced
        (opts : CellOptions.t) (store : Storage.t) (events : list PatternEngine.Event) :
  length (PatternEngine.pendingTimers
            (PatternEngine.run events (PatternEngine.new opts store))) <= 1.
Proof.
  destruct (@TimerFacts.run_disciplined events _ (TimerFacts.new_disciplined opts store))
    as [_ [_ [H | [h [H _]]]]]; rewrite H; simpl; lia.
Qed.

(** X13. Stopping an engine while a rebuild is pending switches the
    background rebuild off for good.  [stop] cancels the timeout and keeps
    its handle in the field; [addRequest] schedules a rebuild only when the
    field is empty, and only the timeout's own callback empties it.  So
    after such a stop no timeout is ever pending again, whatever follows,
    also after the engine is started again. *)
Theorem stop_with_pending_rebuild_disables_it
        (opts : CellOptions.t) (store : Storage.t)
        (before after : list PatternEngine.Event) :
  let st := PatternEngine.run before (PatternEngine.new opts store) in
  PatternEngine.isRunning st = true ->
  PatternEngine.pendingTimers st <> [] ->
  PatternEngine.pendingTimers (PatternEngine.run after (PatternEngine.stop st)) = [] /\
  PatternEngine.patternAnalysisTimer (PatternEngine.run after (PatternEngine.stop st))
  = PatternEngine.patternAnalysisTimer st.
Proof.
  intros st Hr Hp.
  assert (Hd : TimerFacts.disciplined st)
    by (apply TimerFacts.run_disciplined, TimerFacts.new_disciplined).
  pose proof (@TimerFacts.stop_stale st Hd Hr Hp) as Hs.
  destruct (@TimerFacts.run_stale after _ Hs) as [[_ [Hq _]] Ht].
  split; [assumption|]. rewrite Ht.
  destruct (TimerFacts.stop_timers Hd) as [H1 _]. exact H1.
Qed.

Lemma stop_with_pending_rebuild_disables_it_witness :
  let before := [PatternEngine.Start;
                 PatternEngine.AddRequest 1000 (RebuildFacts.req "a")] in
  let after := [PatternEngine.Start;
                PatternEngine.AddRequest 2000 (RebuildFacts.req "b");
                PatternEngine.AddRequest 40000 (RebuildFacts.req "c")] in
  let st := PatternEngine.run before
              (PatternEngine.new (CellOptions.mk None None) Storage.empty) in
  PatternEngine.pendingTimers (PatternEngine.run after (PatternEngine.stop st)) = [] /\
  PatternEngine.patternAnalysisTimer (PatternEngine.run after (PatternEngine.stop st))
  = PatternEngine.patternAnalysisTimer st.
Proof.
  intros before after st.
  apply (@stop_with_pending_rebuild_disables_it
           (CellOptions.mk None None) Storage.empty before after).
  - vm_compute. reflexivity.
  - vm_compute. discriminate.
Defined.

(* ================================================================== *)
(** ** WorkflowAutomation: the recorder and the matcher *)
(* ================================================================== *)

Module WorkflowMatch.
Import Js WorkflowAutomation.

(** The inner loop of [detectWorkflowMatch]: [isMatch] starts as [true], and
    the first position where the ids differ sets it to [false] and leaves
    the loop, so that a [false] stays.  The loop runs only when the workflow
    is not longer than [actions]; then both indices are in range. *)
Definition matchesEnd (actions : list Action.t) (workflow : Workflow.t) : bool :=
  let n := length (Workflow.actions workflow) in
  for_range 0 n
    (fun (isMatch : bool) (i : nat) =>
       if isMatch then
         match nth_error actions (length actions - n + i),
               nth_error (Workflow.actions workflow) i with
         | Some recent, Some step => String.eqb (Action.id recent) (Action.id step)
         | _, _ => false
         end
       else false)
    true.

(** [for (const id in this.workflows)]: the first workflow that is not too
    long and matches is returned. *)
Fixpoint firstMatch (cache : Dict Workflow.t) (actions : list Action.t)
  : option Workflow.t :=
  match cache with
  | [] => None
  | (_, workflow) :: rest =>
      if length actions <? length (Workflow.actions workflow)
      then firstMatch rest actions
      else if matchesEnd actions workflow then Some workflow
           else firstMatch rest actions
  end.

Definition detectWorkflowMatch (actions : list Action.t) (st : t) : option Workflow.t :=
  if length actions <? 2 then None else firstMatch (workflows st) actions.

(** [getWorkflows()] hands out a copy of the cache. *)
Definition getWorkflows (st : t) : Dict Workflow.t := workflows st.

(** Several [addAction] calls in a row. *)
Definition addActions (actions : list Action.t) (st : t) : t :=
  fold_left (fun st action => addAction action st) actions st.

(** The ids of the workflow's actions are those of the last actions. *)
Definition endsWithIds (actions : list Action.t) (workflow : Workflow.t) : Prop :=
  exists earlier recent,
    actions = (earlier ++ recent)%list /\
    map Action.id recent = map Action.id (Workflow.actions workflow).

End WorkflowMatch.

Module MatchFacts.
Import Js JsFacts WorkflowAutomation WorkflowMatch.

Lemma fold_break (test : nat -> bool) (l : list nat) (b : bool) :
  fold_left (fun (isMatch : bool) i => if isMatch then test i else false) l b
  = b && forallb test l.
Proof.
  revert b. induction l as [|i l IH]; intros b; simpl.
  - now rewrite andb_true_r.
  - rewrite IH. destruct b; reflexivity.
Qed.

Lemma ids_eq_nth (l1 l2 : list Action.t) :
  length l1 = length l2 ->
  (forall i, i < length l2 ->
     match nth_error l1 i, nth_error l2 i with
     | Some a, Some b => String.eqb (Action.id a) (Action.id b)
     | _, _ => false
     end = true) ->
  map Action.id l1 = map Action.id l2.
Proof.
  revert l2. induction l1 as [|a l1 IH]; intros [|b l2] Hlen H; simpl in *;
    try discriminate; auto.
  f_equal.
  - specialize (H 0 ltac:(lia)). simpl in H. now apply String.eqb_eq.
  - apply IH; [lia|]. intros i Hi. apply (H (S i)). lia.
Qed.

Lemma nth_ids_eq (l1 l2 : list Action.t) i :
  map Action.id l1 = map Action.id l2 -> i < length l2 ->
  match nth_error l1 i, nth_error l2 i with
  | Some a, Some b => String.eqb (Action.id a) (Action.id b)
  | _, _ => false
  end = true.
Proof.
  revert l2 i. induction l1 as [|a l1 IH]; intros [|b l2] i H Hi; simpl in *;
    try discriminate; try lia.
  inversion H. destruct i as [|i]; simpl.
  - now apply String.eqb_eq.
  - apply IH; [assumption | lia].
Qed.

(** The loop decides whether the last actions have the workflow's ids. *)
Lemma matchesEnd_spec actions workflow :
  length (Workflow.actions workflow) <= length actions ->
  matchesEnd actions workflow = true <->
  map Action.id (skipn (length actions - length (Workflow.actions workflow)) actions)
  = map Action.id (Workflow.actions workflow).
Proof.
  intros Hle. unfold matchesEnd, for_range. cbv zeta.
  set (n := length (Workflow.actions workflow)) in *.
  rewrite (fold_break
             (fun i => match nth_error actions (length actions - n + i),
                             nth_error (Workflow.actions workflow) i with
                       | Some recent, Some step =>
                           String.eqb (Action.id recent) (Action.id step)
                       | _, _ => false
                       end)).
  simpl. rewrite forallb_forall. split.
  - intros H. apply ids_eq_nth.
    + rewrite length_skipn. fold n. lia.
    + intros i Hi. rewrite nth_error_skipn. apply H. apply in_seq. fold n in Hi. lia.
  - intros H i Hi. apply in_seq in Hi.
    rewrite <- nth_error_skipn. apply nth_ids_eq; [assumption | fold n; lia].
Qed.

Lemma endsWithIds_skipn actions workflow :
  endsWithIds actions workflow <->
  length (Workflow.actions workflow) <= length actions /\
  map Action.id (skipn (length actions - length (Workflow.actions workflow)) actions)
  = map Action.id (Workflow.actions workflow).
Proof.
  unfold endsWithIds. split.
  - intros [earlier [recent [-> H]]].
    assert (Hl : length recent = length (Workflow.actions workflow)).
    { rewrite <- (length_map Action.id recent), H. apply length_map. }
    rewrite length_app, <- Hl. split; [lia|].
    replace (length earlier + length recent - length recent) with (length earlier) by lia.
    rewrite skipn_app, skipn_all, Nat.sub_diag. simpl. assumption.
  - intros [Hle H].
    exists (firstn (length actions - length (Workflow.actions workflow)) actions).
    exists (skipn (length actions - length (Workflow.actions workflow)) actions).
    split; [symmetry; apply firstn_skipn | assumption].
Qed.

Lemma firstMatch_sound cache actions workflow :
  firstMatch cache actions = Some workflow ->
  (exists key, In (key, workflow) cache) /\ endsWithIds actions workflow.
Proof.
  induction cache as [|[key w] cache IH]; simpl; [discriminate|].
  destruct (Nat.ltb_spec (length actions) (length (Workflow.actions w))) as [Hlt|Hle].
  - intros H. destruct (IH H) as [[k Hk] He]. split; [exists k; now right | assumption].
  - destruct (matchesEnd actions w) eqn:Em.
    + intros H. inversion H. subst w. split; [exists key; now left|].
      apply endsWithIds_skipn. split; [assumption|].
      now apply matchesEnd_spec.
    + intros H. destruct (IH H) as [[k Hk] He]. split; [exists k; now right | assumption].
Qed.

Lemma firstMatch_complete cache actions :
  firstMatch cache actions = None ->
  forall key workflow, In (key, workflow) cache -> ~ endsWithIds actions workflow.
Proof.
  induction cache as [|[key w] cache IH]; simpl; [tauto|].
  intros H k workflow [E|Hin] He.
  - inversion E. subst. apply endsWithIds_skipn in He. destruct He as [Hle He].
    apply matchesEnd_spec in He; [|assumption].
    destruct (Nat.ltb_spec (length actions) (length (Workflow.actions workflow)));
      [lia|]. rewrite He in H. discriminate.
  - destruct (length actions <? length (Workflow.actions w)).
    + exact (IH H k workflow Hin He).
    + destruct (matchesEnd actions w); [discriminate|].
      exact (IH H k workflow Hin He).
Qed.

Lemma addActions_detecting actions st :
  detectingWorkflow st = true ->
  addActions actions st
  = mk (workflows st) true (currentWorkflow st ++ actions) (executionQueue st)
       (isExecuting st) (storage st) (waiting st) (attempts st).
Proof.
  unfold addActions. revert st. induction actions as [|a actions IH]; intros st Hd; simpl.
  - rewrite app_nil_r. destruct st; simpl in *; subst; reflexivity.
  - rewrite IH.
    + unfold addAction. rewrite Hd. simpl. rewrite <- app_assoc. reflexivity.
    + unfold addAction. rewrite Hd. reflexivity.
Qed.

Lemma addActions_idle actions st :
  detectingWorkflow st = false -> addActions actions st = st.
Proof.
  unfold addActions. intros Hd. induction actions as [|a actions IH]; simpl; auto.
  unfold addAction at 2. rewrite Hd. simpl. exact IH.
Qed.

(** The recorder after a session: what was added before the first
    [startDetection] is not there, the second [startDetection] changed
    nothing. *)
Lemma session_state st dropped first second :
  detectingWorkflow st = false ->
  addActions second (startDetection (addActions first (startDetection
                                                         (addActions dropped st))))
  = mk (workflows st) true (first ++ second) (executionQueue st)
       (isExecuting st) (storage st) (waiting st) (attempts st).
Proof.
  intros Hd. rewrite (@addActions_idle dropped st Hd).
  assert (Hs : startDetection st
               = mk (workflows st) true [] (executionQueue st) (isExecuting st)
                    (storage st) (waiting st) (attempts st)).
  { unfold startDetection. now rewrite Hd. }
  rewrite Hs.
  rewrite (@addActions_detecting first
             (mk (workflows st) true [] (executionQueue st) (isExecuting st)
                 (storage st) (waiting st) (attempts st)) eq_refl).
  cbn [workflows currentWorkflow executionQueue isExecuting storage waiting attempts app].
  unfold startDetection. cbn [detectingWorkflow].
  rewrite (@addActions_detecting second
             (mk (workflows st) true first (executionQueue st) (isExecuting st)
                 (storage st) (waiting st) (attempts st)) eq_refl).
  reflexivity.
Qed.

Definition openSaveExport : list Action.t :=
  [RecorderFacts.sampleAction "open"; RecorderFacts.sampleAction "save";
   RecorderFacts.sampleAction "export"].

End MatchFacts.

(** X14. A recording session.  On a recorder that is not recording, actions
    added before [startDetection] are dropped, a second [startDetection]
    during the recording does not restart it, and [stopDetection] then
    returns a workflow whose steps are exactly the actions added during the
    recording, in that order, however many (at least two); it is numbered
    after the workflows cached so far, stored under its id, and the
    recorder is idle again. *)
Theorem recording_session_keeps_actions
        (now : Z) (id : string) (st : WorkflowAutomation.t)
        (dropped first second : list Action.t) :
  WorkflowAutomation.detectingWorkflow st = false ->
  2 <= length (first ++ second) ->
  let recorded :=
    WorkflowMatch.addActions second
      (WorkflowAutomation.startDetection
         (WorkflowMatch.addActions first
            (WorkflowAutomation.startDetection
               (WorkflowMatch.addActions dropped st)))) in
  exists w,
    fst (WorkflowAutomation.stopDetection now id recorded) = Some w /\
    Workflow.actions w = (first ++ second)%list /\
    Workflow.id w = id /\
    Workflow.name w
    = ("Workflow "
       ++ WorkflowAutomation.decimal
            (length (Js.keys (WorkflowAutomation.workflows st)) + 1))%string /\
    Storage.getWorkflowById id
      (WorkflowAutomation.storage (snd (WorkflowAutomation.stopDetection now id recorded)))
    = Some w /\
    WorkflowAutomation.detectingWorkflow
      (snd (WorkflowAutomation.stopDetection now id recorded)) = false.
Proof.
  intros Hd Hlen recorded.
  rewrite (@MatchFacts.session_state st dropped first second Hd : recorded = _).
  unfold WorkflowAutomation.stopDetection. cbn -[Nat.leb].
  rewrite (proj2 (Nat.leb_le _ _) Hlen).
  eexists. split; [reflexivity|]. simpl.
  repeat split.
  unfold Storage.getWorkflowById, Storage.saveWorkflow. simpl.
  apply JsFacts.dget_dset_same.
Qed.

Lemma recording_session_keeps_actions_witness :
  exists w,
    fst (WorkflowAutomation.stopDetection 1700000000000 "wf1"
           (WorkflowMatch.addActions [RecorderFacts.sampleAction "export"]
              (WorkflowAutomation.startDetection
                 (WorkflowMatch.addActions
                    [RecorderFacts.sampleAction "open"; RecorderFacts.sampleAction "save"]
                    (WorkflowAutomation.startDetection
                       (WorkflowMatch.addActions [RecorderFacts.sampleAction "login"]
                          (WorkflowAutomation.new Storage.empty)))))))
    = Some w /\
    Workflow.actions w = MatchFacts.openSaveExport.
Proof.
  destruct (@recording_session_keeps_actions 1700000000000 "wf1"
              (WorkflowAutomation.new Storage.empty)
              [RecorderFacts.sampleAction "login"]
              [RecorderFacts.sampleAction "open"; RecorderFacts.sampleAction "save"]
              [RecorderFacts.sampleAction "export"] eq_refl ltac:(simpl; lia))
    as [w [H1 [H2 _]]].
  exists w. split; [exact H1 | exact H2].
Defined.

(** X15. What [detectWorkflowMatch] finds.  A workflow it returns is one of
    the cached workflows, and the ids of its steps are, in order, the ids of
    the last actions given; it returns nothing exactly when fewer than two
    actions are given or no cached workflow has this property.  Only the ids
    are compared, and the match is with the end of the actions. *)
Theorem detectWorkflowMatch_sound_complete
        (actions : list Action.t) (st : WorkflowAutomation.t) :
  (forall workflow,
     WorkflowMatch.detectWorkflowMatch actions st = Some workflow ->
     2 <= length actions /\
     (exists key, In (key, workflow) (WorkflowMatch.getWorkflows st)) /\
     WorkflowMatch.endsWithIds actions workflow) /\
  (WorkflowMatch.detectWorkflowMatch actions st = None <->
   length actions < 2 \/
   forall key workflow,
     In (key, workflow) (WorkflowMatch.getWorkflows st) ->
     ~ WorkflowMatch.endsWithIds actions workflow).
Proof.
  unfold WorkflowMatch.detectWorkflowMatch, WorkflowMatch.getWorkflows.
  destruct (Nat.ltb_spec (length actions) 2) as [Hlt|Hge].
  - split; [discriminate|]. split; auto.
  - split.
    + intros workflow H. split; [assumption|].
      now apply MatchFacts.firstMatch_sound.
    + split.
      * intros H. right. now apply MatchFacts.firstMatch_complete.
      * intros [Hlt|Hnone]; [lia|].
        destruct (WorkflowMatch.firstMatch (WorkflowAutomation.workflows st) actions)
          as [workflow|] eqn:Ef; [|reflexivity].
        destruct (MatchFacts.firstMatch_sound _ _ Ef) as [[key Hk] He].
        exfalso. exact (Hnone key workflow Hk He).
Qed.

(** X16. What was recorded is recognised.  After [stopDetection] has saved a
    workflow, any later actions that end with the recorded actions match a
    cached workflow: [detectWorkflowMatch] returns one whose step ids are
    the ids of the last actions (the recorded workflow, or one cached before
    it with ids that also match). *)
Theorem recorded_workflow_is_detected
        (now : Z) (id : string) (st : WorkflowAutomation.t)
        (w : Workflow.t) (earlier : list Action.t) :
  fst (WorkflowAutomation.stopDetection now id st) = Some w ->
  exists found,
    WorkflowMatch.detectWorkflowMatch (earlier ++ Workflow.actions w)
      (snd (WorkflowAutomation.stopDetection now id st)) = Some found /\
    WorkflowMatch.endsWithIds (earlier ++ Workflow.actions w) found.
Proof.
  intros Hw.
  set (st' := snd (WorkflowAutomation.stopDetection now id st)).
  assert (Hst : 2 <= length (Workflow.actions w) /\
                Js.dget id (WorkflowAutomation.workflows st') = Some w).
  { subst st'. revert Hw. unfold WorkflowAutomation.stopDetection.
    destruct (WorkflowAutomation.detectingWorkflow st); cbn -[Nat.leb]; [|discriminate].
    destruct (Nat.leb_spec 2 (length (WorkflowAutomation.currentWorkflow st)));
      cbn -[Nat.leb]; [|discriminate].
    intros Hw. inversion Hw. simpl. split; [assumption|].
    apply JsFacts.dget_dset_same. }
  destruct Hst as [Hlen Hc].
  destruct (WorkflowMatch.detectWorkflowMatch (earlier ++ Workflow.actions w) st')
    as [found|] eqn:Ed.
  - exists found. split; [reflexivity|].
    unfold WorkflowMatch.detectWorkflowMatch in Ed.
    destruct (length (earlier ++ Workflow.actions w) <? 2); [discriminate|].
    exact (proj2 (@MatchFacts.firstMatch_sound _ _ _ Ed)).
  - exfalso. unfold WorkflowMatch.detectWorkflowMatch in Ed.
    destruct (Nat.ltb_spec (length (earlier ++ Workflow.actions w)) 2) as [Hlt|_].
    + rewrite length_app in Hlt. lia.
    + apply (@MatchFacts.firstMatch_complete _ _ Ed id w (@JsFacts.dget_in _ _ _ _ Hc)).
      exists earlier, (Workflow.actions w). split; reflexivity.
Qed.

Lemma recorded_workflow_is_detected_witness :
  exists w found,
    fst (WorkflowAutomation.stopDetection 1700000000000 "wf1" RecorderFacts.recordedTwo)
    = Some w /\
    WorkflowMatch.detectWorkflowMatch
      ([RecorderFacts.sampleAction "login"] ++ Workflow.actions w)
      (snd (WorkflowAutomation.stopDetection 1700000000000 "wf1"
              RecorderFacts.recordedTwo)) = Some found.
Proof.
  eexists. 
  destruct (@recorded_workflow_is_detected 1700000000000 "wf1" RecorderFacts.recordedTwo
              _ [RecorderFacts.sampleAction "login"] eq_refl) as [found [H _]].
  exists found. split; [reflexivity | exact H].
Defined.

Module ResolutionFacts.
Import Js JsFacts WorkflowAutomation ExecutorFacts.

(** The action found for an id is a step of a cached workflow. *)
Lemma findAction_some cache actionId action :
  findAction cache actionId = Some action ->
  Action.id action = actionId /\
  exists key cached, In (key, cached) cache /\ In action (Workflow.actions cached).
Proof.
  induction cache as [|[key w] cache IH]; simpl; [discriminate|].
  destruct (find _ (Workflow.actions w)) as [a|] eqn:Ef.
  - intros H. inversion H. subst a. apply find_some in Ef. destruct Ef as [Hin He].
    apply String.eqb_eq in He. split; [assumption|].
    exists key, w. split; [now left | assumption].
  - intros H. destruct (IH H) as [Hid [k [c [Hk Hc]]]]. split; [assumption|].
    exists k, c. split; [now right | assumption].
Qed.

Lemma findAction_none cache actionId :
  findAction cache actionId = None ->
  forall key cached action,
    In (key, cached) cache -> In action (Workflow.actions cached) ->
    Action.id action <> actionId.
Proof.
  induction cache as [|[key w] cache IH]; simpl; [tauto|].
  destruct (find _ (Workflow.actions w)) as [a|] eqn:Ef; [discriminate|].
  intros H k cached action [E|Hin] Ha Hid.
  - inversion E. subst.
    pose proof (find_none _ _ Ef action Ha) as Hn. simpl in Hn.
    rewrite String.eqb_refl in Hn. discriminate.
  - exact (IH H k cached action Hin Ha Hid).
Qed.

(** The id of an attempt is the id it was made for. *)
Lemma attemptId_attempt cache actionId : attemptId (attempt cache actionId) = actionId.
Proof.
  unfold attempt. destruct (negb (truthy actionId)); [reflexivity|].
  destruct (findAction cache actionId) as [a|] eqn:Ef; [|reflexivity].
  simpl. exact (proj1 (findAction_some _ _ Ef)).
Qed.

Lemma attemptIds_map cache ids : map attemptId (map (attempt cache) ids) = ids.
Proof.
  induction ids as [|i ids IH]; simpl; [reflexivity|].
  now rewrite attemptId_attempt, IH.
Qed.

Lemma called_in_map cache ids action :
  In (Called action) (map (attempt cache) ids) ->
  In (Action.id action) ids /\
  exists key cached, In (key, cached) cache /\ In action (Workflow.actions cached).
Proof.
  rewrite in_map_iff. intros [actionId [Ha Hin]]. unfold attempt in Ha.
  destruct (negb (truthy actionId)); [discriminate|].
  destruct (findAction cache actionId) as [a|] eqn:Ef; [|discriminate].
  inversion Ha. subst a. destruct (findAction_some _ _ Ef) as [Hid Hc].
  split; [now rewrite Hid | assumption].
Qed.

Lemma no_called_in_map cache ids :
  (forall key cached action,
     In (key, cached) cache -> In action (Workflow.actions cached) ->
     ~ In (Action.id action) ids) ->
  forall a, In a (map (attempt cache) ids) ->
            match a with Called _ => False | _ => True end.
Proof.
  intros Hstale a Hin. destruct a as [i|i|action]; auto.
  destruct (called_in_map _ _ _ Hin) as [Hid [key [cached [Hk Ha]]]].
  exact (Hstale key cached action Hk Ha Hid).
Qed.

(** A workflow saved to storage behind the back of an executor that was
    constructed before: the executor's cache does not have it. *)
Definition behindTheBack : t :=
  let st := new Storage.empty in
  mk (workflows st) (detectingWorkflow st) (currentWorkflow st) (executionQueue st)
     (isExecuting st) (Storage.saveWorkflow threeSteps (storage st))
     (waiting st) (attempts st).

End ResolutionFacts.

(** X17. The executor runs steps of cached workflows only.  [executeWorkflow]
    reads the workflow from storage, but each queued id is looked up in the
    cache of the instance: an action it calls is a step of some cached
    workflow and has a queued id.  So for a stored workflow none of whose
    step ids occurs in the cache (one stored after the instance was
    constructed, say), no action is called at all, and the run still counts:
    the stored frequency goes up by one. *)
Theorem executeWorkflow_calls_cached_steps_only
        (now : Z) (workflowId : string) (w : Workflow.t)
        (st : WorkflowAutomation.t) (outcome : nat -> bool) (steps : nat) :
  ExecutorFacts.consistent st ->
  WorkflowAutomation.isExecuting st = false ->
  Storage.getWorkflowById workflowId (WorkflowAutomation.storage st) = Some w ->
  2 * length (Workflow.actions w) + 2 <= steps ->
  let st' := WorkflowAutomation.run outcome steps
               (WorkflowAutomation.executeWorkflow now workflowId st) in
  exists made,
    WorkflowAutomation.attempts st' = (WorkflowAutomation.attempts st ++ made)%list /\
    map WorkflowAutomation.attemptId made = map Action.id (Workflow.actions w) /\
    (forall action,
       In (WorkflowAutomation.Called action) made ->
       In (Action.id action) (map Action.id (Workflow.actions w)) /\
       exists key cached,
         In (key, cached) (WorkflowAutomation.workflows st) /\
         In action (Workflow.actions cached)) /\
    ((forall key cached action,
        In (key, cached) (WorkflowAutomation.workflows st) ->
        In action (Workflow.actions cached) ->
        ~ In (Action.id action) (map Action.id (Workflow.actions w))) ->
     (forall action, ~ In (WorkflowAutomation.Called action) made) /\
     Storage.getWorkflowById workflowId (WorkflowAutomation.storage st')
     = Some (ExecutorFacts.executed now w)).
Proof.
  intros Hc He Hw Hsteps.
  destruct (@ExecutorFacts.consistent_executing st Hc He) as [_ Hq].
  destruct (@ExecutorFacts.executeWorkflow_spec now workflowId w st Hc Hw)
    as [H1 [H2 [H3 [H4 H5]]]].
  assert (Hb : ExecutorFacts.budget (WorkflowAutomation.executeWorkflow now workflowId st)
               <= steps).
  { rewrite Hq in H5. cbn [length Nat.add] in H5. lia. }
  destruct (@ExecutorFacts.run_drains outcome steps _ H4 Hb)
    as [G1 [G2 [G3 [G4 [G5 G6]]]]].
  cbv zeta.
  exists (map (WorkflowAutomation.attempt (WorkflowAutomation.workflows st))
              (map Action.id (Workflow.actions w))).
  split; [|split; [|split]].
  - rewrite G4, H1, Hq. reflexivity.
  - apply ResolutionFacts.attemptIds_map.
  - intros action Hin. exact (@ResolutionFacts.called_in_map _ _ _ Hin).
  - intros Hstale. split.
    + intros action Hin.
      exact (@ResolutionFacts.no_called_in_map _ _ Hstale _ Hin).
    + rewrite G6, H3.
      unfold Storage.getWorkflowById, Storage.incrementWorkflowFrequency in *.
      rewrite Hw. simpl. apply JsFacts.dget_dset_same.
Qed.

Lemma executeWorkflow_calls_cached_steps_only_witness :
  let st' := WorkflowAutomation.run (fun _ => true) 8
               (WorkflowAutomation.executeWorkflow 1700000000000 "wf"
                  ResolutionFacts.behindTheBack) in
  exists made,
    WorkflowAutomation.attempts st' = made /\
    (forall action, ~ In (WorkflowAutomation.Called action) made) /\
    Storage.getWorkflowById "wf" (WorkflowAutomation.storage st')
    = Some (ExecutorFacts.executed 1700000000000 ExecutorFacts.threeSteps).
Proof.
  destruct (@executeWorkflow_calls_cached_steps_only 1700000000000 "wf"
              ExecutorFacts.threeSteps ResolutionFacts.behindTheBack (fun _ => true) 8
              ltac:(split; reflexivity) eq_refl eq_refl ltac:(simpl; lia))
    as [made [H1 [_ [_ H2]]]].
  exists made. split; [exact H1|].
  apply H2. intros key cached action Hin. destruct Hin.
Defined.

Module SubscriptionFacts.
Import Js PatternEngine EngineShape EngineFrame.

(** What an event adds to the deliveries goes to the registered callbacks;
    the registrations stay as they are. *)
Lemma handle_deliveries e st :
  predictionCallbacks (handle e st) = predictionCallbacks st /\
  exists later,
    delivered (handle e st) = (delivered st ++ later)%list /\
    forall c p, In (c, p) later -> In c (predictionCallbacks st).
Proof.
  assert (Hnone : forall st' : t,
            predictionCallbacks st' = predictionCallbacks st ->
            delivered st' = delivered st ->
            predictionCallbacks st' = predictionCallbacks st /\
            exists later,
              delivered st' = (delivered st ++ later)%list /\
              forall c p, In (c, p) later -> In c (predictionCallbacks st)).
  { intros st' Hc Hd. split; [assumption|]. exists []. rewrite app_nil_r.
    split; [assumption | intros c p []]. }
  destruct e as [| |now request|h]; simpl.
  - apply Hnone; unfold start; destruct (isRunning st); auto;
      unfold analyzeHistoricalPatterns; simpl; reflexivity.
  - apply Hnone; unfold stop; destruct (isRunning st); simpl; auto;
      destruct (patternAnalysisTimer st) as [[|k]|]; reflexivity.
  - destruct (isRunning st) eqn:Hr.
    + rewrite addRequest_running by assumption.
      destruct (scheduled_frame (predictNextAction now (pushed request st)))
        as [_ [_ [_ [Hd [_ [_ Hc]]]]]].
      rewrite Hd, Hc.
      destruct (pushed_frame request st) as [_ [_ [_ [Pd [_ [Pc _]]]]]].
      destruct (predictNextAction_frame now (pushed request st))
        as [_ [_ [Fc _]]]. cbv zeta in Fc. rewrite Fc, Pc.
      split; [reflexivity|].
      destruct (predictNextAction_shape now (pushed request st))
        as [H|[p [c [a H]]]]; rewrite H.
      * exists []. rewrite app_nil_r. split; [assumption | intros ? ? []].
      * exists (map (fun callback => (callback, p)) (predictionCallbacks st)).
        simpl. rewrite Pd, Pc. split; [reflexivity|].
        intros c0 p0 Hin. apply in_map_iff in Hin.
        destruct Hin as [x [E Hx]]. inversion E. now subst.
    + unfold addRequest. rewrite Hr. now apply Hnone.
  - apply Hnone; unfold timerFired;
      destruct (existsb (Nat.eqb h) (pendingTimers st)); auto;
      unfold analyzeHistoricalPatterns; destruct (isRunning st); reflexivity.
Qed.

Lemma run_deliveries events st :
  predictionCallbacks (run events st) = predictionCallbacks st /\
  exists later,
    delivered (run events st) = (delivered st ++ later)%list /\
    forall c p, In (c, p) later -> In c (predictionCallbacks st).
Proof.
  unfold run. revert st. induction events as [|e events IH]; intros st; simpl.
  - split; [reflexivity|]. exists []. rewrite app_nil_r.
    split; [reflexivity | intros ? ? []].
  - destruct (handle_deliveries e st) as [Hc [later1 [Hd1 Hin1]]].
    destruct (IH (handle e st)) as [Hc' [later2 [Hd2 Hin2]]].
    split; [congruence|].
    exists (later1 ++ later2)%list. split.
    + rewrite Hd2, Hd1, app_assoc. reflexivity.
    + intros c p Hin. apply in_app_or in Hin. destruct Hin as [Hin|Hin].
      * exact (Hin1 c p Hin).
      * rewrite <- Hc. exact (Hin2 c p Hin).
Qed.

End SubscriptionFacts.

(** X18. A callback removed with [offPrediction] is never called again.
    Whatever the engine goes through afterwards (starts, stops, requests,
    timeouts), every later delivery goes to a callback that was registered
    and is not the removed one, also when the removed callback had been
    registered several times. *)
Theorem offPrediction_silences_callback
        (callback : nat) (st : PatternEngine.t) (events : list PatternEngine.Event) :
  exists later,
    PatternEngine.delivered
      (PatternEngine.run events (PatternEngine.offPrediction callback st))
    = (PatternEngine.delivered st ++ later)%list /\
    forall c p, In (c, p) later ->
                c <> callback /\ In c (PatternEngine.predictionCallbacks st).
Proof.
  destruct (SubscriptionFacts.run_deliveries events
              (PatternEngine.offPrediction callback st)) as [_ [later [Hd Hin]]].
  exists later. split; [exact Hd|].
  intros c p H. specialize (Hin c p H). simpl in Hin.
  apply filter_In in Hin. destruct Hin as [Hc Hne].
  split; [|assumption].
  intros ->. rewrite Nat.eqb_refl in Hne. discriminate.
Qed.

(* ================================================================== *)
(** ** src/utils/helpers.ts : truncate *)
(* ================================================================== *)

Module HelpersRest.

(** [str.substring(0, n)]: a negative [n] counts as 0, one beyond the end
    as the length. *)
Definition substringTo (n : Z) (str : string) : string :=
  String.substring 0 (Z.to_nat n) str.

Definition truncate (str : string) (maxLength : Z) : string :=
  if (Z.of_nat (String.length str) <=? maxLength)%Z then str
  else (substringTo (maxLength - 3) str ++ "...")%string.

End HelpersRest.

Module TruncateFacts.
Import HelpersRest.

Lemma length_append (a b : string) :
  String.length (a ++ b) = String.length a + String.length b.
Proof. induction a as [|c a IH]; simpl; auto. Qed.

Lemma length_prefix (n : nat) (s : string) :
  String.length (String.substring 0 n s) = Nat.min n (String.length s).
Proof.
  revert n. induction s as [|c s IH]; intros [|n]; simpl; auto.
Qed.

Lemma prefix_substring (n : nat) (s : string) :
  String.prefix (String.substring 0 n s) s = true.
Proof.
  revert n. induction s as [|c s IH]; intros [|n]; simpl; auto.
  destruct (Ascii.ascii_dec c c) as [_|Hne]; [apply IH | now elim Hne].
Qed.

End TruncateFacts.

(** X19. [truncate] makes a string fit.  A string that fits is returned as
    it is.  A longer one is cut to its first [maxLength - 3] characters
    followed by three dots; when [maxLength] is at least 3 the result has
    exactly [maxLength] characters, so the result never exceeds the limit.
    (Below 3 the result of cutting is the three dots alone.) *)
Theorem truncate_fits (str : string) (maxLength : Z) :
  (3 <= maxLength)%Z ->
  (Z.of_nat (String.length (HelpersRest.truncate str maxLength)) <= maxLength)%Z /\
  ((Z.of_nat (String.length str) <= maxLength)%Z ->
   HelpersRest.truncate str maxLength = str) /\
  ((maxLength < Z.of_nat (String.length str))%Z ->
   exists kept,
     HelpersRest.truncate str maxLength = (kept ++ "...")%string /\
     String.prefix kept str = true /\
     Z.of_nat (String.length kept) = (maxLength - 3)%Z /\
     Z.of_nat (String.length (HelpersRest.truncate str maxLength)) = maxLength).
Proof.
  intros Hmax. unfold HelpersRest.truncate, HelpersRest.substringTo.
  destruct (Z.leb_spec (Z.of_nat (String.length str)) maxLength) as [Hfit|Hlong].
  - split; [assumption|]. split; [reflexivity|]. intros H. lia.
  - assert (Hk : String.length (String.substring 0 (Z.to_nat (maxLength - 3)) str)
                 = Z.to_nat (maxLength - 3)).
    { rewrite TruncateFacts.length_prefix. lia. }
    assert (Hl : String.length
                   (String.substring 0 (Z.to_nat (maxLength - 3)) str ++ "...")
                 = Z.to_nat (maxLength - 3) + 3).
    { rewrite TruncateFacts.length_append, Hk. reflexivity. }
    split; [rewrite Hl; lia|]. split; [intros H; lia|]. intros _.
    exists (String.substring 0 (Z.to_nat (maxLength - 3)) str).
    split; [reflexivity|]. split; [apply TruncateFacts.prefix_substring|].
    split; [rewrite Hk; lia | rewrite Hl; lia].
Qed.

Lemma truncate_fits_witness :
  (Z.of_nat (String.length
               (HelpersRest.truncate "GET https://app.example/api/users" 12)) <= 12)%Z /\
  HelpersRest.truncate "GET https://app.example/api/users" 12 = "GET https..."%string.
Proof.
  split.
  - apply (proj1 (@truncate_fits "GET https://app.example/api/users" 12 ltac:(lia))).
  - reflexivity.
Defined.

(* ================================================================== *)
(** ** standalone-cell.js : capture, suggestions, recording *)
(* ================================================================== *)

Module StandaloneRest.
Import Js Standalone.

Definition colon : ascii := ":"%char.

(** [s.indexOf(":")], [None] for [-1]. *)
Fixpoint indexOfColon (s : string) : option nat :=
  match s with
  | EmptyString => None
  | String c s' =>
      if Ascii.eqb c colon then Some 0 else option_map S (indexOfColon s')
  end.

(** [s.slice(0, i)] and [s.slice(i)] for [i] within the string. *)
Definition sliceTo (i : nat) (s : string) : string := String.substring 0 i s.

Definition sliceFrom (i : nat) (s : string) : string :=
  String.substring i (String.length s - i) s.

Definition validUrl (url : string) : bool :=
  startsWith url "http://" || startsWith url "https://".

(** What the [fetch] override records for a call with [url] and
    [args[1]?.method]: nothing when the url is not absolute. *)
Definition capture (id : string) (now : Z) (url : string) (method : option string)
  : option Request.t :=
  let method :=
    match method with
    | Some m => if truthy m then m else "GET"%string
    | None => "GET"%string
    end in
  if negb (startsWith url "http://") && negb (startsWith url "https://") then None
  else Some (Request.mk id url method now (method ++ ":" ++ url)%string).

(** [this.activeSuggestion]; [url] and [method] are those its [action]
    passes to [fetch]. *)
Module ActiveSuggestion.
Record t := mk {
  signature : string;
  description : string;
  confidence : R;
  url : string;
  method : string
}.
End ActiveSuggestion.

(** [createSuggestion]: the suggestion it makes active, [None] when it
    returns before. *)
Definition createSuggestion (suggestionThreshold : R) (actionSignature : string)
           (confidence : R) : option ActiveSuggestion.t :=
  if Rgtb suggestionThreshold confidence then None else
  match indexOfColon actionSignature with
  | None => None
  | Some splitIndex =>
      let method := sliceTo splitIndex actionSignature in
      let url := sliceFrom (splitIndex + 1) actionSignature in
      if negb (startsWith url "http://") && negb (startsWith url "https://") then None
      else Some (ActiveSuggestion.mk actionSignature (method ++ " " ++ url)%string
                                     confidence url method)
  end.

(** A step of a recorded workflow, and a saved workflow. *)
Module Step.
Record t := mk {
  id : string;
  url : string;
  method : string;
  signature : string
}.
End Step.

Module SavedWorkflow.
Record t := mk {
  id : string;
  name : string;
  description : string;
  steps : list Step.t;
  created : Z
}.
End SavedWorkflow.

Module Recorder.
Record t := mk {
  recordingWorkflow : bool;
  currentWorkflow : list Step.t;
  workflows : list SavedWorkflow.t
}.
End Recorder.

Definition stepOf (request : Request.t) : Step.t :=
  Step.mk (Request.id request) (Request.url request) (Request.method request)
          (Request.signature request).

Definition startWorkflowRecording (st : Recorder.t) : Recorder.t :=
  if Recorder.recordingWorkflow st then st
  else Recorder.mk true [] (Recorder.workflows st).

Definition addToWorkflow (request : Request.t) (st : Recorder.t) : Recorder.t :=
  if negb (Recorder.recordingWorkflow st) then st
  else Recorder.mk (Recorder.recordingWorkflow st)
                   (Recorder.currentWorkflow st ++ [stepOf request])
                   (Recorder.workflows st).

(** [id] is the result of [generateId()], [now] of [Date.now()]. *)
Definition stopWorkflowRecording (now : Z) (id : string) (st : Recorder.t)
  : option SavedWorkflow.t * Recorder.t :=
  if negb (Recorder.recordingWorkflow st) then (None, st)
  else if length (Recorder.currentWorkflow st) =? 0 then
    (None, Recorder.mk false (Recorder.currentWorkflow st) (Recorder.workflows st))
  else
    let workflow :=
      SavedWorkflow.mk id
        ("Workflow "
         ++ WorkflowAutomation.decimal (length (Recorder.workflows st) + 1))%string
        (WorkflowAutomation.decimal (length (Recorder.currentWorkflow st))
         ++ " steps workflow")%string
        (Recorder.currentWorkflow st) now in
    (Some workflow, Recorder.mk false [] (Recorder.workflows st ++ [workflow])).

(** The handler of the Yes button of an automation suggestion for the pair
    [current], [next]. *)
Definition acceptAutomation (now : Z) (id : string) (current next : Request.t)
           (st : Recorder.t) : option SavedWorkflow.t * Recorder.t :=
  stopWorkflowRecording now id
    (addToWorkflow next (addToWorkflow current (startWorkflowRecording st))).

End StandaloneRest.

Module SignatureFacts.
Import Js Standalone StandaloneRest.

Lemma indexOfColon_append method rest :
  indexOfColon method = None ->
  indexOfColon (method ++ String ":"%char rest) = Some (String.length method).
Proof.
  induction method as [|c method IH]; simpl.
  - intros _. reflexivity.
  - destruct (Ascii.eqb c colon); [discriminate|].
    destruct (indexOfColon method); [discriminate|].
    intros _. rewrite IH by reflexivity. reflexivity.
Qed.

Lemma sliceTo_append a b : sliceTo (String.length a) (a ++ b) = a.
Proof.
  unfold sliceTo. induction a as [|c a IH]; simpl.
  - destruct b; reflexivity.
  - now rewrite IH.
Qed.

Lemma substring_all s : String.substring 0 (String.length s) s = s.
Proof. induction s as [|c s IH]; simpl; [reflexivity | now rewrite IH]. Qed.

Lemma sliceFrom_append a c b :
  sliceFrom (String.length a + 1) (a ++ String c b) = b.
Proof.
  unfold sliceFrom. induction a as [|x a IH]; simpl.
  - rewrite Nat.sub_0_r. apply substring_all.
  - exact IH.
Qed.

End SignatureFacts.

(** X20. The signature of a captured request leads back to the request.  A
    request the [fetch] override records has an absolute url, and when its
    method contains no colon, a suggestion created from its signature with
    a confidence that reaches the threshold fetches exactly the url of the
    request with exactly its method.  No suggestion is ever made active
    with a url that is not absolute or a confidence below the threshold. *)
Theorem signature_round_trip
        (id : string) (now : Z) (url : string) (method : option string)
        (request : Standalone.Request.t) (threshold confidence : R) :
  StandaloneRest.capture id now url method = Some request ->
  StandaloneRest.indexOfColon (Standalone.Request.method request) = None ->
  (threshold <= confidence)%R ->
  StandaloneRest.createSuggestion threshold (Standalone.Request.signature request)
                                  confidence
  = Some (StandaloneRest.ActiveSuggestion.mk
            (Standalone.Request.signature request)
            (Standalone.Request.method request ++ " "
             ++ Standalone.Request.url request)%string
            confidence
            (Standalone.Request.url request)
            (Standalone.Request.method request)) /\
  (forall signature c s,
     StandaloneRest.createSuggestion threshold signature c = Some s ->
     StandaloneRest.validUrl (StandaloneRest.ActiveSuggestion.url s) = true /\
     (threshold <= StandaloneRest.ActiveSuggestion.confidence s)%R).
Proof.
  intros Hcap Hcolon Hconf. split.
  - unfold StandaloneRest.capture in Hcap.
    destruct (negb (Js.startsWith url "http://") && negb (Js.startsWith url "https://"))
      eqn:Hv; [discriminate|].
    inversion Hcap as [Hr]. rewrite <- Hr in Hcolon. simpl in Hcolon. simpl.
    set (m := match method with
              | Some m => if Js.truthy m then m else "GET"%string
              | None => "GET"%string
              end) in *.
    unfold StandaloneRest.createSuggestion.
    assert (Hg : Js.Rgtb threshold confidence = false).
    { apply not_true_is_false. rewrite ExactFacts.Rgtb_true. lra. }
    rewrite Hg.
    change (m ++ ":" ++ url)%string with (m ++ String ":"%char url)%string.
    rewrite (@SignatureFacts.indexOfColon_append m url Hcolon).
    cbv zeta. rewrite SignatureFacts.sliceTo_append, SignatureFacts.sliceFrom_append.
    rewrite Hv. reflexivity.
  - intros signature c s. unfold StandaloneRest.createSuggestion.
    destruct (Js.Rgtb threshold c) eqn:Hg; [discriminate|].
    destruct (StandaloneRest.indexOfColon signature) as [i|]; [|discriminate].
    cbv zeta.
    destruct (negb (Js.startsWith _ "http://") && negb (Js.startsWith _ "https://"))
      eqn:Hv; [discriminate|].
    intros H. inversion H. simpl. split.
    + unfold StandaloneRest.validUrl.
      destruct (Js.startsWith _ "http://"); [reflexivity|].
      destruct (Js.startsWith _ "https://"); [reflexivity | discriminate].
    + destruct (Rle_dec threshold c) as [Hle|Hn]; [assumption|].
      exfalso. assert (Js.Rgtb threshold c = true) by (apply ExactFacts.Rgtb_true; lra).
      congruence.
Qed.

Lemma signature_round_trip_witness :
  StandaloneRest.createSuggestion 0.7 "POST:https://app.example/api/export" 0.9
  = Some (StandaloneRest.ActiveSuggestion.mk
            "POST:https://app.example/api/export"
            "POST https://app.example/api/export" 0.9
            "https://app.example/api/export" "POST").
Proof.
  apply (proj1 (@signature_round_trip "r1" 1000 "https://app.example/api/export"
                  (Some "POST"%string) _ 0.7 0.9 eq_refl eq_refl ltac:(lra))).
Defined.

(** X21. Accepting an automation suggestion always saves a workflow and
    leaves the recorder idle.  When nothing is being recorded the workflow
    has exactly the two requests of the suggestion as its steps.  When the
    user is recording, the handler does not start a new recording: the saved
    workflow holds the steps recorded so far followed by the two requests,
    and the user's recording is over. *)
Theorem acceptAutomation_saves_and_stops
        (now : Z) (id : string) (current next : Standalone.Request.t)
        (st : StandaloneRest.Recorder.t) :
  exists workflow,
    StandaloneRest.acceptAutomation now id current next st
    = (Some workflow,
       StandaloneRest.Recorder.mk false []
         (StandaloneRest.Recorder.workflows st ++ [workflow])) /\
    StandaloneRest.SavedWorkflow.id workflow = id /\
    StandaloneRest.SavedWorkflow.steps workflow
    = ((if StandaloneRest.Recorder.recordingWorkflow st
        then StandaloneRest.Recorder.currentWorkflow st else [])
       ++ [StandaloneRest.stepOf current; StandaloneRest.stepOf next])%list.
Proof.
  unfold StandaloneRest.acceptAutomation, StandaloneRest.startWorkflowRecording.
  destruct (StandaloneRest.Recorder.recordingWorkflow st) eqn:Hr.
  - unfold StandaloneRest.addToWorkflow. rewrite Hr.
    cbn [negb StandaloneRest.Recorder.recordingWorkflow
         StandaloneRest.Recorder.currentWorkflow StandaloneRest.Recorder.workflows].
    unfold StandaloneRest.stopWorkflowRecording.
    cbn [negb StandaloneRest.Recorder.recordingWorkflow
         StandaloneRest.Recorder.currentWorkflow StandaloneRest.Recorder.workflows].
    rewrite <- app_assoc. cbn [app].
    destruct (Nat.eqb_spec
                (length (StandaloneRest.Recorder.currentWorkflow st
                         ++ [StandaloneRest.stepOf current; StandaloneRest.stepOf next]))
                0) as [H0|_].
    + rewrite length_app in H0. simpl in H0. lia.
    + eexists. split; [reflexivity|]. split; reflexivity.
  - eexists. split; [reflexivity|]. split; reflexivity.
Qed.

(** ** The repetition watcher over any sequence of checks *)

Module WatcherInvariant.
Import Js JsFacts Standalone WatcherFacts.

(** The watcher before any check. *)
Definition fresh : t := mk [] [].

(** Each suggestion comes more than 3,600,000 ms after the one before,
    the first more than 3,600,000 ms after [previous]. *)
Fixpoint spacedFrom (previous : Z) (l : list Suggestion.t) : Prop :=
  match l with
  | [] => True
  | s :: l' =>
      (3600000 < Suggestion.time s - previous)%Z /\ spacedFrom (Suggestion.time s) l'
  end.

(** The time of the last suggestion of [l], [previous] when there is none. *)
Definition lastTime (previous : Z) (l : list Suggestion.t) : Z :=
  fold_left (fun _ s => Suggestion.time s) l previous.

Definition countedb (c : Check.t) : bool :=
  truthy (Request.url (Check.current c)) && truthy (Request.url (Check.next c))
  && negb (String.eqb (Request.signature (Check.current c))
                      (Request.signature (Check.next c))).

(** The number of counted checks of the pair with this key. *)
Definition hits (key : string) (calls : list Check.t) : nat :=
  length (filter (fun c => countedb c && String.eqb (keyOf c) key) calls).

(** What the watcher holds for a key after [calls]. *)
Definition tracks (key : string) (calls : list Check.t) (st : t) : Prop :=
  match dget key (patterns st) with
  | None => hits key calls = 0 /\ suggestionsFor key st = []
  | Some (Followers _ _) => False
  | Some (Repetition count lastSuggested threshold _) =>
      count = hits key calls /\ 0 < count /\ threshold = 3 /\
      lastSuggested = lastTime 0 (suggestionsFor key st) /\
      spacedFrom 0 (suggestionsFor key st) /\
      Forall (fun s => 3 <= Suggestion.count s <= count) (suggestionsFor key st)
  end.

Lemma countedb_spec c : countedb c = true <-> counted c.
Proof.
  unfold countedb, counted. rewrite !andb_true_iff, negb_true_iff, String.eqb_neq.
  tauto.
Qed.

Lemma hits_snoc key calls c :
  hits key (calls ++ [c])
  = hits key calls + (if countedb c && String.eqb (keyOf c) key then 1 else 0).
Proof.
  unfold hits. rewrite filter_app, length_app. simpl.
  destruct (countedb c && String.eqb (keyOf c) key); reflexivity.
Qed.

Lemma lastTime_snoc previous l s :
  lastTime previous (l ++ [s]) = Suggestion.time s.
Proof. unfold lastTime. rewrite fold_left_app. reflexivity. Qed.

Lemma spacedFrom_snoc l s : forall previous,
  spacedFrom previous (l ++ [s]) <->
  spacedFrom previous l /\ (3600000 < Suggestion.time s - lastTime previous l)%Z.
Proof.
  induction l as [|x l IH]; intros previous; simpl.
  - unfold lastTime. simpl. tauto.
  - rewrite IH. unfold lastTime. simpl. tauto.
Qed.

(** Two suggestions next to each other in a spaced list. *)
Lemma spacedFrom_adjacent l : forall previous pre s1 s2 post,
  spacedFrom previous l -> l = (pre ++ s1 :: s2 :: post)%list ->
  (3600000 < Suggestion.time s2 - Suggestion.time s1)%Z.
Proof.
  induction l as [|x l IH]; intros previous pre s1 s2 post Hs E.
  - destruct pre; discriminate.
  - destruct pre as [|y pre]; simpl in E; inversion E; subst.
    + simpl in Hs. tauto.
    + simpl in Hs. destruct Hs as [_ Hs]. exact (IH _ pre s1 s2 post Hs eq_refl).
Qed.

Lemma spacedFrom_late l : forall previous s,
  (0 <= previous)%Z -> spacedFrom previous l -> In s l ->
  (3600000 < Suggestion.time s)%Z.
Proof.
  induction l as [|x l IH]; intros previous s Hp Hs Hin; [destruct Hin|].
  simpl in Hs. destruct Hs as [Hx Hs]. destruct Hin as [->|Hin]; [lia|].
  apply (IH (Suggestion.time x)); auto. lia.
Qed.

Lemma fresh_tracks key : tracks key [] fresh.
Proof. unfold tracks, fresh. simpl. auto. Qed.

Lemma check_followers c st total followers :
  dget (keyOf c) (patterns st) = Some (Followers total followers) -> check c st = st.
Proof.
  intros Hk. unfold check, checkForRepetitivePatterns.
  destruct (negb (truthy (Request.url (Check.current c)))
            || negb (truthy (Request.url (Check.next c)))); [reflexivity|].
  destruct (String.eqb (Request.signature (Check.current c))
                       (Request.signature (Check.next c))); [reflexivity|].
  unfold keyOf in Hk. rewrite Hk. reflexivity.
Qed.

Lemma suggestionsFor_own c n st :
  suggested (check c st) = (suggested st ++ [suggestionOf c n])%list ->
  suggestionsFor (keyOf c) (check c st)
  = (suggestionsFor (keyOf c) st ++ [suggestionOf c n])%list.
Proof.
  intros E. rewrite (@suggestionsFor_snoc (keyOf c) (check c st) _ _ E).
  simpl. unfold keyOf. rewrite String.eqb_refl. reflexivity.
Qed.

Lemma suggestionsFor_same key st st' :
  suggested st' = suggested st -> suggestionsFor key st' = suggestionsFor key st.
Proof. unfold suggestionsFor. now intros ->. Qed.

(** One more check keeps the account of every key. *)
Lemma check_tracks key calls c st :
  tracks key calls st -> tracks key (calls ++ [c]) (check c st).
Proof.
  intros Ht. unfold tracks in *. rewrite hits_snoc.
  destruct (string_dec (keyOf c) key) as [Ek|Hne].
  - destruct (countedb c) eqn:Hcb.
    + assert (Hc : counted c) by now apply countedb_spec.
      subst key. rewrite String.eqb_refl. simpl.
      destruct (dget (keyOf c) (patterns st)) as [[total followers|count last th steps]|]
        eqn:Hk.
      * destruct Ht.
      * destruct Ht as [Hcount [Hpos [Hth [Hlast [Hsp Hall]]]]].
        destruct (@check_counter c st count last th steps Hc Hk) as [Hd Hs].
        cbv zeta in Hd, Hs. rewrite Hd.
        destruct ((th <=? count + 1) && (3600000 <? Check.time c - last)%Z) eqn:He.
        -- apply andb_true_iff in He. destruct He as [He1 He2].
           apply Nat.leb_le in He1. apply Z.ltb_lt in He2.
           rewrite (@suggestionsFor_own c (count + 1) st Hs).
           split; [lia|]. split; [lia|]. split; [assumption|].
           split; [now rewrite lastTime_snoc|]. split.
           ++ apply spacedFrom_snoc. split; [assumption|].
              rewrite <- Hlast. simpl. exact He2.
           ++ apply Forall_app. split.
              ** eapply Forall_impl; [|exact Hall]. simpl. intros s Hs'. lia.
              ** constructor; [simpl; lia | constructor].
        -- rewrite app_nil_r in Hs.
           rewrite (@suggestionsFor_same (keyOf c) _ _ Hs).
           split; [lia|]. split; [lia|]. split; [assumption|].
           split; [assumption|]. split; [assumption|].
           eapply Forall_impl; [|exact Hall]. simpl. intros s Hs'. lia.
      * destruct Ht as [Hh Hs0].
        destruct (@check_fresh c st Hc Hk) as [Hd Hs]. rewrite Hd.
        rewrite (@suggestionsFor_same (keyOf c) _ _ Hs), Hs0, Hh.
        split; [reflexivity|]. split; [lia|]. split; [reflexivity|].
        split; [reflexivity|]. split; [exact I | constructor].
    + rewrite check_not_counted; [|rewrite <- countedb_spec; congruence].
      simpl. rewrite Nat.add_0_r. exact Ht.
  - destruct (@check_other_key c st key Hne) as [Hd Hs]. rewrite Hd, Hs.
    apply String.eqb_neq in Hne. rewrite Hne, andb_false_r, Nat.add_0_r. exact Ht.
Qed.

Lemma checks_tracks key calls : tracks key calls (checks calls fresh).
Proof.
  induction calls as [|c calls IH] using rev_ind.
  - apply fresh_tracks.
  - rewrite checks_app. simpl. apply check_tracks. exact IH.
Qed.

End WatcherInvariant.

(** X22. Suggestions for one pair are never closer than an hour.  Whatever
    sequence of checks the watcher goes through from its start, two
    successive automation suggestions for the same pair are made more than
    3,600,000 ms apart, and each is made at a count of at least 3 and more
    than 3,600,000 ms after the epoch.  The clock need not be monotone for
    this. *)
Theorem suggestions_spaced_by_cooldown (key : string) (calls : list Standalone.Check.t) :
  let st := Standalone.checks calls WatcherInvariant.fresh in
  (forall pre s1 s2 post,
     WatcherFacts.suggestionsFor key st = (pre ++ s1 :: s2 :: post)%list ->
     (3600000 < Standalone.Suggestion.time s2 - Standalone.Suggestion.time s1)%Z) /\
  (forall s,
     In s (WatcherFacts.suggestionsFor key st) ->
     3 <= Standalone.Suggestion.count s /\
     (3600000 < Standalone.Suggestion.time s)%Z).
Proof.
  cbv zeta. pose proof (WatcherInvariant.checks_tracks key calls) as Ht.
  unfold WatcherInvariant.tracks in Ht.
  destruct (Js.dget key (Standalone.patterns (Standalone.checks calls WatcherInvariant.fresh)))
    as [[total followers|count last th steps]|].
  - destruct Ht.
  - destruct Ht as [_ [_ [_ [_ [Hsp Hall]]]]]. split.
    + intros pre s1 s2 post E.
      exact (@WatcherInvariant.spacedFrom_adjacent _ 0%Z pre s1 s2 post Hsp E).
    + intros s Hin. split.
      * rewrite Forall_forall in Hall. apply (Hall s Hin).
      * exact (@WatcherInvariant.spacedFrom_late _ 0%Z s ltac:(lia) Hsp Hin).
  - destruct Ht as [_ Hs]. rewrite Hs. split.
    + intros pre s1 s2 post E. destruct pre; discriminate.
    + intros s [].
Qed.

(** X23. The counter of a pair is the number of its counted checks.  After
    any sequence of checks from the start, a pair that was never counted has
    no entry and no suggestion; otherwise its entry holds the threshold 3
    and a count equal to the number of checks of this pair made with both
    urls present and two different signatures. *)
Theorem repetition_count_is_number_of_checks
        (key : string) (calls : list Standalone.Check.t) :
  let st := Standalone.checks calls WatcherInvariant.fresh in
  (WatcherInvariant.hits key calls = 0 ->
   Js.dget key (Standalone.patterns st) = None /\
   WatcherFacts.suggestionsFor key st = []) /\
  (0 < WatcherInvariant.hits key calls ->
   exists lastSuggested steps,
     Js.dget key (Standalone.patterns st)
     = Some (Standalone.Repetition (WatcherInvariant.hits key calls) lastSuggested 3
                                   steps)).
Proof.
  cbv zeta. pose proof (WatcherInvariant.checks_tracks key calls) as Ht.
  unfold WatcherInvariant.tracks in Ht.
  destruct (Js.dget key (Standalone.patterns (Standalone.checks calls WatcherInvariant.fresh)))
    as [[total followers|count last th steps]|].
  - destruct Ht.
  - destruct Ht as [Hc [Hpos [Hth _]]]. split.
    + intros H0. lia.
    + intros _. exists last, steps. now rewrite Hc, Hth.
  - destruct Ht as [Hh Hs]. split; [auto|]. intros H. lia.
Qed.

(** ** The follower statistics of [analyzePatterns] *)

Module FollowerFacts.
Import Js JsFacts Standalone.

(** [patterns[key].total] and [patterns[key].followers[next]], 0 when there
    is no such entry. *)
Definition totalOf (key : string) (st : t) : nat :=
  match dget key (patterns st) with
  | Some (Followers total _) => total
  | _ => 0
  end.

Definition followerOf (key next : string) (st : t) : nat :=
  match dget key (patterns st) with
  | Some (Followers _ followers) =>
      match dget next followers with Some n => n | None => 0 end
  | _ => 0
  end.

(** The adjacent pairs of the log that start with this signature, and those
    that also end with [next]. *)
Fixpoint leads (key : string) (requests : list Request.t) : nat :=
  match requests with
  | current :: ((_ :: _) as rest) =>
      (if String.eqb (Request.signature current) key then 1 else 0) + leads key rest
  | _ => 0
  end.

Fixpoint pairs (key next : string) (requests : list Request.t) : nat :=
  match requests with
  | current :: ((following :: _) as rest) =>
      (if String.eqb (Request.signature current) key
          && String.eqb (Request.signature following) next then 1 else 0)
      + pairs key next rest
  | _ => 0
  end.

Definition sumCounts (followers : Dict nat) : nat := list_sum (map snd followers).

(** Every total is the sum of the counts of its followers. *)
Definition balanced (st : t) : Prop :=
  forall key total followers,
    dget key (patterns st) = Some (Followers total followers) ->
    total = sumCounts followers.

Lemma sumCounts_increment next followers :
  sumCounts (dset next (S (match dget next followers with
                           | Some n => n | None => 0 end)) followers)
  = S (sumCounts followers).
Proof.
  unfold sumCounts. induction followers as [|[k n] followers IH]; simpl.
  - reflexivity.
  - destruct (String.eqb k next); simpl; [reflexivity|].
    rewrite IH. lia.
Qed.

Lemma dget_le_sumCounts next followers n :
  dget next followers = Some n -> n <= sumCounts followers.
Proof.
  unfold sumCounts. induction followers as [|[k m] followers IH]; simpl; [discriminate|].
  destruct (String.eqb k next).
  - intros H. inversion H. lia.
  - intros H. specialize (IH H). lia.
Qed.

(** The watcher writes transition counters only: an entry of follower
    statistics is there after a check exactly when it was there before. *)
Lemma check_keeps_followers now current next st key :
  match dget key (patterns (checkForRepetitivePatterns now current next st)) with
  | Some (Followers total followers) =>
      dget key (patterns st) = Some (Followers total followers)
  | _ => match dget key (patterns st) with
         | Some (Followers _ _) => False
         | _ => True
         end
  end.
Proof.
  assert (Hsame : match dget key (patterns st) with
                  | Some (Followers total followers) =>
                      dget key (patterns st) = Some (Followers total followers)
                  | _ => match dget key (patterns st) with
                         | Some (Followers _ _) => False
                         | _ => True
                         end
                  end).
  { destruct (dget key (patterns st)) as [[t f|c l th s]|]; auto. }
  unfold checkForRepetitivePatterns.
  destruct (negb (truthy (Request.url current)) || negb (truthy (Request.url next)));
    [exact Hsame|].
  destruct (String.eqb (Request.signature current) (Request.signature next));
    [exact Hsame|].
  destruct (dget (patternKey current next) (patterns st))
    as [[t f|c l th steps]|] eqn:Hk; cbv zeta; [exact Hsame| |].
  - destruct (string_dec (patternKey current next) key) as [<-|Hne].
    + destruct ((th <=? c + 1) && (3600000 <? now - l)%Z); simpl;
        rewrite dget_dset_same, Hk; exact I.
    + destruct ((th <=? c + 1) && (3600000 <? now - l)%Z); simpl;
        rewrite (dget_dset_other _ _ Hne); exact Hsame.
  - destruct (string_dec (patternKey current next) key) as [<-|Hne].
    + destruct ((3 <=? 0 + 1) && (3600000 <? now - 0)%Z); simpl;
        rewrite dget_dset_same, Hk; exact I.
    + destruct ((3 <=? 0 + 1) && (3600000 <? now - 0)%Z); simpl;
        rewrite (dget_dset_other _ _ Hne); exact Hsame.
Qed.

Lemma check_counts now current next st key :
  totalOf key (checkForRepetitivePatterns now current next st) = totalOf key st /\
  (forall nx, followerOf key nx (checkForRepetitivePatterns now current next st)
              = followerOf key nx st).
Proof.
  pose proof (check_keeps_followers now current next st key) as H.
  unfold totalOf, followerOf.
  destruct (dget key (patterns (checkForRepetitivePatterns now current next st)))
    as [[t f|c l th s]|].
  - rewrite H. auto.
  - destruct (dget key (patterns st)) as [[t f|c' l' th' s']|]; [destruct H| |]; auto.
  - destruct (dget key (patterns st)) as [[t f|c' l' th' s']|]; [destruct H| |]; auto.
Qed.

Lemma check_balanced now current next st :
  balanced st -> balanced (checkForRepetitivePatterns now current next st).
Proof.
  intros Hb key total followers Hk.
  pose proof (check_keeps_followers now current next st key) as H.
  rewrite Hk in H. exact (Hb key total followers H).
Qed.

(** One iteration of the loop. *)
Lemma analyzePair_counts now current next st st' key :
  analyzePair now current next st = Some st' ->
  totalOf key st'
  = totalOf key st + (if String.eqb (Request.signature current) key then 1 else 0) /\
  (forall nx,
     followerOf key nx st'
     = followerOf key nx st
       + (if String.eqb (Request.signature current) key
             && String.eqb (Request.signature next) nx then 1 else 0)).
Proof.
  unfold analyzePair.
  destruct (dget (Request.signature current) (patterns st))
    as [[total followers|c l th steps]|] eqn:Hk; cbv zeta; try discriminate.
  - intros H. inversion H as [Hst]. clear H Hst.
    match goal with
    | |- context [checkForRepetitivePatterns now current next ?s] =>
        destruct (check_counts now current next s key) as [Ht Hf]
    end.
    rewrite Ht. split.
    + unfold totalOf. simpl.
      destruct (String.eqb_spec (Request.signature current) key) as [<-|Hne].
      * rewrite dget_dset_same, Hk. lia.
      * rewrite (dget_dset_other _ _ Hne). lia.
    + intros nx. rewrite Hf. unfold followerOf. simpl.
      destruct (String.eqb_spec (Request.signature current) key) as [<-|Hne].
      * rewrite dget_dset_same, Hk. simpl.
        destruct (String.eqb_spec (Request.signature next) nx) as [<-|Hn].
        -- rewrite dget_dset_same. lia.
        -- rewrite (dget_dset_other _ _ Hn). lia.
      * rewrite (dget_dset_other _ _ Hne). simpl. lia.
  - intros H. inversion H as [Hst]. clear H Hst.
    match goal with
    | |- context [checkForRepetitivePatterns now current next ?s] =>
        destruct (check_counts now current next s key) as [Ht Hf]
    end.
    rewrite Ht. split.
    + unfold totalOf. simpl.
      destruct (String.eqb_spec (Request.signature current) key) as [<-|Hne].
      * rewrite dget_dset_same, Hk. lia.
      * rewrite (dget_dset_other _ _ Hne). lia.
    + intros nx. rewrite Hf. unfold followerOf. simpl.
      destruct (String.eqb_spec (Request.signature current) key) as [<-|Hne].
      * rewrite dget_dset_same, Hk. simpl.
        destruct (String.eqb_spec (Request.signature next) nx) as [<-|Hn].
        -- reflexivity.
        -- reflexivity.
      * rewrite (dget_dset_other _ _ Hne). simpl. lia.
Qed.

Lemma analyzePair_balanced now current next st st' :
  balanced st -> analyzePair now current next st = Some st' -> balanced st'.
Proof.
  intros Hb. unfold analyzePair.
  destruct (dget (Request.signature current) (patterns st))
    as [[total followers|c l th steps]|] eqn:Hk; cbv zeta; try discriminate.
  - intros H. inversion H. apply check_balanced.
    intros key t f. simpl.
    destruct (string_dec (Request.signature current) key) as [<-|Hne].
    + rewrite dget_dset_same. intros E. inversion E.
      rewrite sumCounts_increment. rewrite (Hb _ _ _ Hk). lia.
    + rewrite (dget_dset_other _ _ Hne). apply Hb.
  - intros H. inversion H. apply check_balanced.
    intros key t f. simpl.
    destruct (string_dec (Request.signature current) key) as [<-|Hne].
    + rewrite dget_dset_same. intros E. inversion E. reflexivity.
    + rewrite (dget_dset_other _ _ Hne). apply Hb.
Qed.

Lemma leads_step key current next rest :
  leads key (current :: next :: rest)
  = (if String.eqb (Request.signature current) key then 1 else 0)
    + leads key (next :: rest).
Proof. reflexivity. Qed.

Lemma pairs_step key nx current next rest :
  pairs key nx (current :: next :: rest)
  = (if String.eqb (Request.signature current) key
        && String.eqb (Request.signature next) nx then 1 else 0)
    + pairs key nx (next :: rest).
Proof. reflexivity. Qed.

Lemma analyzeFrom_counts clock requests key : forall i st st',
  analyzeFrom clock i requests st = Some st' ->
  totalOf key st' = totalOf key st + leads key requests /\
  (forall nx, followerOf key nx st' = followerOf key nx st + pairs key nx requests).
Proof.
  induction requests as [|current rest IH]; intros i st st' H.
  - inversion H; subst. simpl. split; [lia | intros; lia].
  - destruct rest as [|next rest'].
    + inversion H; subst. simpl. split; [lia | intros; lia].
    + cbn [analyzeFrom] in H.
      destruct (analyzePair (clock i) current next st) as [st1|] eqn:Hp; [|discriminate].
      destruct (@analyzePair_counts _ _ _ _ _ key Hp) as [Ht Hf].
      destruct (IH (S i) st1 st' H) as [Ht' Hf'].
      split.
      * rewrite leads_step, Ht', Ht. lia.
      * intros nx. rewrite pairs_step, Hf', Hf. lia.
Qed.

Lemma analyzeFrom_balanced clock requests : forall i st st',
  balanced st -> analyzeFrom clock i requests st = Some st' -> balanced st'.
Proof.
  induction requests as [|current rest IH]; intros i st st' Hb H.
  - inversion H. now subst.
  - destruct rest as [|next rest'].
    + inversion H. now subst.
    + cbn [analyzeFrom] in H.
      destruct (analyzePair (clock i) current next st) as [st1|] eqn:Hp; [|discriminate].
      apply (IH (S i) st1 st'); [|assumption].
      exact (@analyzePair_balanced _ _ _ _ _ Hb Hp).
Qed.

Lemma fresh_balanced : balanced (mk [] []).
Proof. intros key total followers H. discriminate. Qed.

(** Several passes of [analyzePatterns] over the same log. *)
Fixpoint passes (clocks : list (nat -> Z)) (requests : list Request.t) (st : t)
  : option t :=
  match clocks with
  | [] => Some st
  | clock :: later =>
      match analyzePatterns clock requests st with
      | Some st' => passes later requests st'
      | None => None
      end
  end.

End FollowerFacts.

(** X24. Every pass of [analyzePatterns] counts the whole log again.  A pass
    over a log of at least three requests that ends without error adds, for
    every signature, the number of adjacent pairs of the log that start with
    it to its total, and the number of those that end with a given
    signature to the count of that follower; so after [n] passes over an
    unchanged log, started from nothing, the totals and counts are [n]
    times those of the log. *)
Theorem analyzePatterns_recounts_log
        (clocks : list (nat -> Z)) (requests : list Standalone.Request.t)
        (st' : Standalone.t) (key next : string) :
  3 <= length requests ->
  FollowerFacts.passes clocks requests (Standalone.mk [] []) = Some st' ->
  FollowerFacts.totalOf key st' = length clocks * FollowerFacts.leads key requests /\
  FollowerFacts.followerOf key next st'
  = length clocks * FollowerFacts.pairs key next requests.
Proof.
  intros Hlen.
  assert (Hgen : forall st,
            FollowerFacts.passes clocks requests st = Some st' ->
            FollowerFacts.totalOf key st'
            = FollowerFacts.totalOf key st
              + length clocks * FollowerFacts.leads key requests /\
            FollowerFacts.followerOf key next st'
            = FollowerFacts.followerOf key next st
              + length clocks * FollowerFacts.pairs key next requests).
  { induction clocks as [|clock later IH]; intros st H; simpl in H.
    - inversion H; subst. simpl. split; lia.
    - destruct (Standalone.analyzePatterns clock requests st) as [st1|] eqn:Hp;
        [|discriminate].
      destruct (IH st1 H) as [Ht Hf].
      unfold Standalone.analyzePatterns in Hp.
      destruct (Nat.ltb_spec (length requests) 3) as [Hlt|_]; [lia|].
      destruct (@FollowerFacts.analyzeFrom_counts clock requests key 0 st st1 Hp)
        as [Ht1 Hf1].
      rewrite Ht, Hf, Ht1, (Hf1 next). simpl. split; lia. }
  intros H. destruct (Hgen _ H) as [Ht Hf]. rewrite Ht, Hf.
  unfold FollowerFacts.totalOf, FollowerFacts.followerOf. simpl. split; lia.
Qed.

Lemma analyzePatterns_recounts_log_witness :
  exists st',
    FollowerFacts.passes [fun _ => 1700000010000%Z; fun _ => 1700000020000%Z]
      [WatcherFacts.listRequest; WatcherFacts.exportRequest; WatcherFacts.listRequest]
      (Standalone.mk [] []) = Some st' /\
    FollowerFacts.totalOf (Standalone.Request.signature WatcherFacts.listRequest) st'
    = 2 * 1.
Proof.
  eexists. split; [vm_compute; reflexivity|].
  apply (proj1 (@analyzePatterns_recounts_log
                  [fun _ => 1700000010000%Z; fun _ => 1700000020000%Z]
                  [WatcherFacts.listRequest; WatcherFacts.exportRequest;
                   WatcherFacts.listRequest]
                  _ (Standalone.Request.signature WatcherFacts.listRequest)
                  ""%string ltac:(simpl; lia) ltac:(vm_compute; reflexivity))).
Defined.

(** X25. The follower statistics stay balanced.  If every total is the sum
    of the counts of its followers before a pass of [analyzePatterns], it is
    so after the pass, whatever the watcher writes in between; in
    particular no follower is counted more often than its signature, so
    the ratio of a follower's count to the total is at most 1. *)
Theorem analyzePatterns_keeps_totals_balanced
        (clock : nat -> Z) (requests : list Standalone.Request.t)
        (st st' : Standalone.t) :
  FollowerFacts.balanced st ->
  Standalone.analyzePatterns clock requests st = Some st' ->
  FollowerFacts.balanced st' /\
  forall key next, FollowerFacts.followerOf key next st' <= FollowerFacts.totalOf key st'.
Proof.
  intros Hb H.
  assert (Hb' : FollowerFacts.balanced st').
  { unfold Standalone.analyzePatterns in H.
    destruct (length requests <? 3).
    - inversion H. now subst.
    - exact (@FollowerFacts.analyzeFrom_balanced clock requests 0 st st' Hb H). }
  split; [exact Hb'|].
  intros key next. unfold FollowerFacts.followerOf, FollowerFacts.totalOf.
  destruct (Js.dget key (Standalone.patterns st')) as [[total followers|c l th s]|] eqn:Hk;
    try lia.
  rewrite (Hb' _ _ _ Hk).
  destruct (Js.dget next followers) as [n|] eqn:Hn; [|lia].
  exact (@FollowerFacts.dget_le_sumCounts next followers n Hn).
Qed.

Lemma analyzePatterns_keeps_totals_balanced_witness :
  exists st',
    Standalone.analyzePatterns (fun _ => 1700000010000%Z)
      [WatcherFacts.listRequest; WatcherFacts.exportRequest; WatcherFacts.listRequest]
      (Standalone.mk [] []) = Some st' /\
    FollowerFacts.balanced st'.
Proof.
  eexists. split; [vm_compute; reflexivity|].
  apply (proj1 (@analyzePatterns_keeps_totals_balanced
                  (fun _ => 1700000010000%Z)
                  [WatcherFacts.listRequest; WatcherFacts.exportRequest;
                   WatcherFacts.listRequest]
                  (Standalone.mk [] []) _ FollowerFacts.fresh_balanced
                  ltac:(vm_compute; reflexivity))).
Defined.

(** ** The confidence of what is delivered *)

Module RangeFacts.
Import Js JsFacts PatternEngine EngineShape EngineFrame ConfidenceFacts.

Lemma fold_timestamps_le now l : forall acc,
  (forall r, In r l -> (NetworkRequest.timestamp r <= now)%Z) ->
  (fold_left (fun sum req => (sum + NetworkRequest.timestamp req)%Z) l acc
   <= acc + Z.of_nat (length l) * now)%Z.
Proof.
  induction l as [|r l IH]; intros acc H.
  - simpl. lia.
  - cbn [fold_left length].
    specialize (IH (acc + NetworkRequest.timestamp r)%Z
                   (fun r' Hr => H r' (or_intror Hr))).
    specialize (H r (or_introl eq_refl)). lia.
Qed.

(** A window none of whose events is stamped after [now] has a
    non-negative age. *)
Lemma timeDiff_nonneg now st :
  currentSequence st <> [] ->
  (forall r, In r (currentSequence st) -> (NetworkRequest.timestamp r <= now)%Z) ->
  (0 <= timeDiff now st)%R.
Proof.
  intros Hne H. unfold timeDiff, sumTimestamps.
  pose proof (@fold_timestamps_le now (currentSequence st) 0%Z H) as Hs.
  set (total := fold_left _ _ _) in *.
  set (n := length (currentSequence st)) in *.
  assert (Hn : (0 < INR n)%R).
  { apply lt_0_INR. unfold n. destruct (currentSequence st); [congruence | simpl; lia]. }
  apply IZR_le in Hs. rewrite plus_IZR, mult_IZR, <- INR_IZR_INZ in Hs.
  assert (IZR total / INR n <= IZR now)%R.
  { apply Rmult_le_reg_r with (INR n); [assumption|].
    unfold Rdiv. rewrite Rmult_assoc, Rinv_l by lra. lra. }
  lra.
Qed.

Lemma calculateConfidence_range now st pattern frequency :
  (forall r, In r (currentSequence st) -> (NetworkRequest.timestamp r <= now)%Z) ->
  (0 <= calculateConfidence now st pattern frequency <= 1)%R.
Proof.
  intros H. destruct (currentSequence st) as [|r l] eqn:E.
  - pose proof (calculateConfidence_bounds now st pattern frequency) as Hb.
    unfold calculateRecencyFactor in Hb. rewrite E in Hb. lra.
  - apply calculateConfidence_unit. apply timeDiff_nonneg.
    + rewrite E. discriminate.
    + rewrite E. exact H.
Qed.

(** A prediction of the exact path carries the confidence computed for the
    entry it was made from, and that is at least 0.3. *)
Lemma scanPatterns_confidence now patternLength lookupPattern entries st p st' :
  scanPatterns now patternLength lookupPattern entries st = Some (p, st') ->
  exists pattern frequency,
    Prediction.confidence p = calculateConfidence now st pattern frequency /\
    (0.3 <= calculateConfidence now st pattern frequency)%R.
Proof.
  induction entries as [|[pattern frequency] entries IH]; simpl; [discriminate|].
  destruct (extends pattern lookupPattern); auto.
  destruct (Rgeb _ 0.3) eqn:Hg; auto.
  destruct (createPrediction _ _ st) as [[p0 st0]|] eqn:E; auto.
  intros H. inversion H; subst.
  destruct (createPrediction_shape _ _ _ E) as [c [a [_ Hc]]].
  exists pattern, frequency. split; [assumption|].
  now apply ExactFacts.Rgeb_true.
Qed.

Lemma exactMatch_confidence now st p st' :
  exactMatch now st = Some (p, st') ->
  exists pattern frequency,
    Prediction.confidence p = calculateConfidence now st pattern frequency /\
    (0.3 <= calculateConfidence now st pattern frequency)%R.
Proof.
  unfold exactMatch.
  generalize (Nat.min (length (currentSequence st) - 1) (maxPatternLength st)).
  intros longest. induction longest as [|shorter IH]; simpl; [discriminate|].
  destruct shorter as [|k]; [discriminate|].
  destruct (scanPatterns now (S (S k)) _ _ st) as [[p0 st0]|] eqn:E; auto.
  intros H. inversion H; subst. eapply scanPatterns_confidence; eauto.
Qed.

Definition inUnit (delivery : nat * Prediction.t) : Prop :=
  (0 < Prediction.confidence (snd delivery) <= 1)%R.

Lemma notified_inUnit p (callbacks : list nat) :
  (0 < Prediction.confidence p <= 1)%R ->
  Forall inUnit (map (fun callback => (callback, p)) callbacks).
Proof.
  intros Hp. apply Forall_forall. intros [c q] Hin.
  apply in_map_iff in Hin. destruct Hin as [x [E _]]. inversion E. subst.
  exact Hp.
Qed.

Lemma predictNextAction_deliveries now st :
  (forall r, In r (currentSequence st) -> (NetworkRequest.timestamp r <= now)%Z) ->
  exists later,
    delivered (predictNextAction now st) = (delivered st ++ later)%list /\
    Forall inUnit later.
Proof.
  intros Hts. unfold predictNextAction, fuzzyMatchAction.
  destruct (length (currentSequence st) <? 2).
  { exists []. rewrite app_nil_r. split; [reflexivity | constructor]. }
  destruct (exactMatch now st) as [[p st']|] eqn:E.
  - destruct (exactMatch_shape _ _ E) as [c [a Hs]]. subst st'.
    destruct (@exactMatch_confidence _ _ _ _ E) as [pattern [frequency [Hc Hq]]].
    pose proof (@calculateConfidence_range now st pattern frequency Hts) as Hr.
    eexists. split; [reflexivity|]. apply notified_inUnit. rewrite Hc. lra.
  - destruct (fuzzyMatch st) as [[p st']|] eqn:F.
    + destruct (fuzzyMatch_shape _ F) as [c [a Hs]]. subst st'.
      eexists. split; [reflexivity|]. apply notified_inUnit.
      exact (@SimilarityFacts.fuzzyMatch_confidence _ _ _ F).
    + exists []. rewrite app_nil_r. split; [reflexivity | constructor].
Qed.

End RangeFacts.

(** X26. What [addRequest] delivers has a confidence in (0, 1], provided no
    event of the window (the request included) is stamped after the time of
    the call.  The predictions of the exact path are at least 0.3 by the
    test of the loop; without the proviso the exact path can exceed 1. *)
Theorem addRequest_delivers_confidence_in_unit
        (now : Z) (request : NetworkRequest.t) (st : PatternEngine.t) :
  (forall r, In r (PatternEngine.currentSequence st ++ [request]) ->
             (NetworkRequest.timestamp r <= now)%Z) ->
  exists later,
    PatternEngine.delivered (PatternEngine.addRequest now request st)
    = (PatternEngine.delivered st ++ later)%list /\
    Forall (fun delivery => (0 < Prediction.confidence (snd delivery) <= 1)%R) later.
Proof.
  intros Hts.
  destruct (PredictionFacts.addRequest_delivered now request st) as [E|E].
  - rewrite E.
    destruct (EngineFrame.pushed_frame request st) as [_ [Hs [_ [Hd _]]]].
    destruct (@RangeFacts.predictNextAction_deliveries now
                (EngineFrame.pushed request st)) as [later [Hl Hu]].
    + intros r Hin. apply Hts. rewrite Hs in Hin.
      destruct (_ <? _); [|assumption].
      destruct (PatternEngine.currentSequence st ++ [request])%list as [|x l];
        [destruct Hin | now right].
    + exists later. rewrite Hl, Hd. split; [reflexivity | exact Hu].
  - exists []. rewrite E, app_nil_r. split; [reflexivity | constructor].
Qed.

Lemma addRequest_delivers_confidence_in_unit_witness :
  exists later,
    PatternEngine.delivered
      (PatternEngine.addRequest 1700000000500 (ExactFacts.evt "b")
         (PatternEngine.onPrediction 7
            (ExactFacts.engine ["x"; "a"]%string ["a"; "b"; "c"]%string
                               [("a,b,c"%string, 8)])))
    = (PatternEngine.delivered
         (PatternEngine.onPrediction 7
            (ExactFacts.engine ["x"; "a"]%string ["a"; "b"; "c"]%string
                               [("a,b,c"%string, 8)]))
       ++ later)%list /\
    Forall (fun delivery => (0 < Prediction.confidence (snd delivery) <= 1)%R) later.
Proof.
  apply addRequest_delivers_confidence_in_unit.
  intros r Hin. simpl in Hin.
  destruct Hin as [<-|[<-|[<-|[]]]]; simpl; lia.
Defined.

(** ** standalone-cell.js : checkPatterns *)

Module StandaloneSuggest.
Import Js Standalone StandaloneRest.

(** The loop of [checkPatterns] over the followers of a signature: the
    pair is [bestMatch] and [highestConfidence].  (For a total of 0 the
    quotient of the source is [Infinity] or [NaN]; an entry written by
    [analyzePatterns] has a positive total, and the properties below are
    stated for positive totals.) *)
Definition bestFollower (suggestionThreshold : R) (total : nat) (followers : Dict nat)
  : option string * R :=
  fold_left (fun best entry =>
               let confidence := (INR (snd entry) / INR total)%R in
               if Rgtb confidence (snd best) && Rgeb confidence suggestionThreshold
               then (Some (fst entry), confidence) else best)
            followers (None, 0%R).

(** [checkPatterns] on the window: the suggestion it makes active. *)
Definition checkPatterns (suggestionThreshold : R) (currentSequence : list Request.t)
           (st : t) : option ActiveSuggestion.t :=
  if length currentSequence <? 2 then None else
  match rev currentSequence with
  | [] => None
  | lastRequest :: _ =>
      match dget (Request.signature lastRequest) (patterns st) with
      | Some (Followers total followers) =>
          match bestFollower suggestionThreshold total followers with
          | (Some bestMatch, highestConfidence) =>
              if truthy bestMatch
              then createSuggestion suggestionThreshold bestMatch highestConfidence
              else None
          | (None, _) => None
          end
      | _ => None
      end
  end.

(** [addToSequence]: the window keeps the last 20 requests. *)
Definition addToSequence (suggestionThreshold : R) (request : Request.t)
           (currentSequence : list Request.t) (st : t)
  : list Request.t * option ActiveSuggestion.t :=
  let currentSequence := (currentSequence ++ [request])%list in
  let currentSequence :=
    if 20 <? length currentSequence then tl currentSequence else currentSequence in
  (currentSequence, checkPatterns suggestionThreshold currentSequence st).

End StandaloneSuggest.

Module SuggestFacts.
Import Js JsFacts Standalone StandaloneRest StandaloneSuggest FollowerFacts.

Definition share (total n : nat) : R := (INR n / INR total)%R.

(** What the loop holds after the entries [seen]. *)
Definition chosen (threshold : R) (total : nat) (seen : Dict nat)
           (best : option string * R) : Prop :=
  match best with
  | (Some k, highest) =>
      (exists count, In (k, count) seen /\ highest = share total count) /\
      (threshold <= highest)%R /\ (0 < highest)%R /\
      forall k' n, In (k', n) seen -> (share total n <= highest)%R
  | (None, highest) =>
      highest = 0%R /\
      forall k' n, In (k', n) seen ->
                   ~ (0 < share total n /\ threshold <= share total n)%R
  end.

Lemma bestFollower_snoc threshold total followers entry :
  bestFollower threshold total (followers ++ [entry])
  = let best := bestFollower threshold total followers in
    let confidence := share total (snd entry) in
    if Rgtb confidence (snd best) && Rgeb confidence threshold
    then (Some (fst entry), confidence) else best.
Proof. unfold bestFollower. rewrite fold_left_app. reflexivity. Qed.

Lemma bestFollower_chosen threshold total followers :
  chosen threshold total followers (bestFollower threshold total followers).
Proof.
  induction followers as [|[k n] followers IH] using rev_ind.
  - simpl. split; [reflexivity | intros ? ? []].
  - rewrite bestFollower_snoc. cbv zeta. simpl fst. simpl snd.
    destruct (bestFollower threshold total followers) as [[best|] highest];
      simpl snd; unfold chosen in *.
    + destruct IH as [[count [Hin Hh]] [Hth [Hpos Hmax]]].
      destruct (Rgtb (share total n) highest) eqn:Hg;
        destruct (Rgeb (share total n) threshold) eqn:He; simpl.
      * apply ExactFacts.Rgtb_true in Hg. apply ExactFacts.Rgeb_true in He.
        split; [exists n; split; [apply in_or_app; right; now left | reflexivity]|].
        split; [assumption|]. split; [lra|].
        intros k' n' Hin'. apply in_app_or in Hin'. destruct Hin' as [Hin'|[E|[]]].
        -- specialize (Hmax k' n' Hin'). lra.
        -- inversion E. lra.
      * split; [exists count; split; [apply in_or_app; now left | assumption]|].
        split; [assumption|]. split; [assumption|].
        intros k' n' Hin'. apply in_app_or in Hin'. destruct Hin' as [Hin'|[E|[]]].
        -- exact (Hmax k' n' Hin').
        -- inversion E; subst k' n'.
           destruct (Rle_dec threshold (share total n)) as [Hle|Hn].
           ++ apply ExactFacts.Rgeb_true in Hle. congruence.
           ++ lra.
      * split; [exists count; split; [apply in_or_app; now left | assumption]|].
        split; [assumption|]. split; [assumption|].
        intros k' n' Hin'. apply in_app_or in Hin'. destruct Hin' as [Hin'|[E|[]]].
        -- exact (Hmax k' n' Hin').
        -- inversion E; subst k' n'.
           destruct (Rlt_dec highest (share total n)) as [Hlt|Hn].
           ++ apply ExactFacts.Rgtb_true in Hlt. congruence.
           ++ lra.
      * split; [exists count; split; [apply in_or_app; now left | assumption]|].
        split; [assumption|]. split; [assumption|].
        intros k' n' Hin'. apply in_app_or in Hin'. destruct Hin' as [Hin'|[E|[]]].
        -- exact (Hmax k' n' Hin').
        -- inversion E; subst k' n'.
           destruct (Rlt_dec highest (share total n)) as [Hlt|Hn].
           ++ apply ExactFacts.Rgtb_true in Hlt. congruence.
           ++ lra.
    + destruct IH as [Hh Hnone]. subst highest.
      destruct (Rgtb (share total n) 0) eqn:Hg;
        destruct (Rgeb (share total n) threshold) eqn:He; simpl.
      * apply ExactFacts.Rgtb_true in Hg. apply ExactFacts.Rgeb_true in He.
        split; [exists n; split; [apply in_or_app; right; now left | reflexivity]|].
        split; [assumption|]. split; [assumption|].
        intros k' n' Hin'. apply in_app_or in Hin'. destruct Hin' as [Hin'|[E|[]]].
        -- specialize (Hnone k' n' Hin').
           destruct (Rle_dec (share total n') (share total n)); [assumption|].
           exfalso. apply Hnone. lra.
        -- inversion E. lra.
      * split; [reflexivity|].
        intros k' n' Hin'. apply in_app_or in Hin'. destruct Hin' as [Hin'|[E|[]]].
        -- exact (Hnone k' n' Hin').
        -- inversion E; subst k' n'. intros [_ Hc].
           apply ExactFacts.Rgeb_true in Hc. congruence.
      * split; [reflexivity|].
        intros k' n' Hin'. apply in_app_or in Hin'. destruct Hin' as [Hin'|[E|[]]].
        -- exact (Hnone k' n' Hin').
        -- inversion E; subst k' n'. intros [Hc _].
           apply ExactFacts.Rgtb_true in Hc. congruence.
      * split; [reflexivity|].
        intros k' n' Hin'. apply in_app_or in Hin'. destruct Hin' as [Hin'|[E|[]]].
        -- exact (Hnone k' n' Hin').
        -- inversion E; subst k' n'. intros [Hc _].
           apply ExactFacts.Rgtb_true in Hc. congruence.
Qed.

Lemma share_le total n m :
  0 < total -> (share total n <= share total m)%R -> n <= m.
Proof.
  intros Ht H. apply INR_le. unfold share in H.
  assert (0 < INR total)%R by (apply lt_0_INR; exact Ht).
  apply Rmult_le_reg_r with (/ INR total)%R; [now apply Rinv_0_lt_compat | exact H].
Qed.

Lemma in_le_sumCounts (k : string) (n : nat) (followers : Dict nat) :
  In (k, n) followers -> n <= sumCounts followers.
Proof.
  unfold sumCounts. induction followers as [|[k' m] followers IH]; simpl; [tauto|].
  intros [E|H]; [inversion E; lia | specialize (IH H); lia].
Qed.

Lemma share_unit total n : 0 < total -> n <= total -> (share total n <= 1)%R.
Proof.
  intros Ht Hn. unfold share.
  assert (0 < INR total)%R by (apply lt_0_INR; exact Ht).
  apply le_INR in Hn.
  apply Rmult_le_reg_r with (INR total); [assumption|].
  unfold Rdiv. rewrite Rmult_assoc, Rinv_l by lra. lra.
Qed.

Lemma createSuggestion_some threshold signature confidence s :
  createSuggestion threshold signature confidence = Some s ->
  ActiveSuggestion.signature s = signature /\
  ActiveSuggestion.confidence s = confidence.
Proof.
  unfold createSuggestion.
  destruct (Rgtb threshold confidence); [discriminate|].
  destruct (indexOfColon signature); [|discriminate]. cbv zeta.
  destruct (negb _ && negb _); [discriminate|].
  intros H. inversion H. split; reflexivity.
Qed.

(** A window and statistics for the example: after the list request, the
    export request followed twice and the home request once. *)
Definition exportSignature : string := "GET:https://app.example/api/export".
Definition homeSignature : string := "GET:https://app.example/".

Definition listed : Request.t :=
  Request.mk "r9" "https://app.example/api/list" "GET" 9000
             "GET:https://app.example/api/list".

Definition observed : t :=
  mk [("GET:https://app.example/api/list"%string,
       Followers 3 [(homeSignature, 1); (exportSignature, 2)])] [].

End SuggestFacts.

(** X27. [checkPatterns] suggests the most frequent follower.  For a window
    whose last request has follower statistics with a positive total that
    is the sum of the counts, a suggestion it makes active is for a
    follower that no other follower exceeds in count; its confidence is
    the share of this follower in the total, which reaches the threshold
    and is at most 1. *)
Theorem checkPatterns_suggests_most_frequent
        (threshold : R) (currentSequence earlier : list Standalone.Request.t)
        (lastRequest : Standalone.Request.t) (st : Standalone.t)
        (total : nat) (followers : Js.Dict nat)
        (s : StandaloneRest.ActiveSuggestion.t) :
  rev currentSequence = lastRequest :: earlier ->
  Js.dget (Standalone.Request.signature lastRequest) (Standalone.patterns st)
  = Some (Standalone.Followers total followers) ->
  0 < total ->
  total = FollowerFacts.sumCounts followers ->
  StandaloneSuggest.checkPatterns threshold currentSequence st = Some s ->
  exists count,
    In (StandaloneRest.ActiveSuggestion.signature s, count) followers /\
    StandaloneRest.ActiveSuggestion.confidence s = (INR count / INR total)%R /\
    (threshold <= StandaloneRest.ActiveSuggestion.confidence s <= 1)%R /\
    0 < count /\
    forall k n, In (k, n) followers -> n <= count.
Proof.
  intros Hrev Hk Htotal Hsum. unfold StandaloneSuggest.checkPatterns.
  destruct (length currentSequence <? 2); [discriminate|].
  rewrite Hrev, Hk.
  pose proof (SuggestFacts.bestFollower_chosen threshold total followers) as Hc.
  destruct (StandaloneSuggest.bestFollower threshold total followers)
    as [[best|] highest]; [|discriminate].
  destruct (Js.truthy best); [|discriminate].
  intros Hs. destruct (SuggestFacts.createSuggestion_some _ _ _ Hs) as [Hsig Hconf].
  destruct Hc as [[count [Hin Hh]] [Hth [Hpos Hmax]]].
  exists count. rewrite Hsig, Hconf. split; [assumption|].
  split; [exact Hh|]. split; [|split].
  - split; [assumption|]. rewrite Hh.
    apply SuggestFacts.share_unit; [assumption|].
    rewrite Hsum. exact (@SuggestFacts.in_le_sumCounts _ _ _ Hin).
  - apply INR_lt. simpl. rewrite Hh in Hpos. unfold SuggestFacts.share in Hpos.
    assert (0 < INR total)%R by (apply lt_0_INR; exact Htotal).
    apply Rmult_lt_reg_r with (/ INR total)%R; [now apply Rinv_0_lt_compat|].
    rewrite Rmult_0_l. exact Hpos.
  - intros k n Hkn. apply (@SuggestFacts.share_le total n count Htotal).
    rewrite <- Hh. exact (Hmax k n Hkn).
Qed.

Lemma checkPatterns_suggests_most_frequent_witness :
  exists s,
    StandaloneSuggest.checkPatterns 0.6
      [WatcherFacts.exportRequest; SuggestFacts.listed] SuggestFacts.observed = Some s /\
    exists count,
      In (StandaloneRest.ActiveSuggestion.signature s, count)
         [(SuggestFacts.homeSignature, 1); (SuggestFacts.exportSignature, 2)] /\
      StandaloneRest.ActiveSuggestion.confidence s = (INR count / INR 3)%R /\
      (0.6 <= StandaloneRest.ActiveSuggestion.confidence s <= 1)%R /\
      0 < count /\
      forall k n,
        In (k, n) [(SuggestFacts.homeSignature, 1); (SuggestFacts.exportSignature, 2)] ->
        n <= count.
Proof.
  assert (Hb : StandaloneSuggest.bestFollower 0.6 3
                 [(SuggestFacts.homeSignature, 1); (SuggestFacts.exportSignature, 2)]
               = (Some SuggestFacts.exportSignature, (INR 2 / INR 3)%R)).
  { unfold StandaloneSuggest.bestFollower. cbn [fold_left fst snd].
    assert (H1 : Js.Rgeb (INR 1 / INR 3) 0.6 = false).
    { apply not_true_is_false. rewrite ExactFacts.Rgeb_true. simpl. lra. }
    rewrite H1, andb_false_r. cbn [snd].
    assert (H2 : Js.Rgtb (INR 2 / INR 3) 0 = true).
    { apply ExactFacts.Rgtb_true. simpl. lra. }
    assert (H3 : Js.Rgeb (INR 2 / INR 3) 0.6 = true).
    { apply ExactFacts.Rgeb_true. simpl. lra. }
    rewrite H2, H3. reflexivity. }
  assert (Hs : StandaloneRest.createSuggestion 0.6 SuggestFacts.exportSignature
                 (INR 2 / INR 3)%R
               = Some (StandaloneRest.ActiveSuggestion.mk
                         SuggestFacts.exportSignature
                         "GET https://app.example/api/export" (INR 2 / INR 3)%R
                         "https://app.example/api/export" "GET")).
  { unfold StandaloneRest.createSuggestion.
    assert (H1 : Js.Rgtb 0.6 (INR 2 / INR 3) = false).
    { apply not_true_is_false. rewrite ExactFacts.Rgtb_true. simpl. lra. }
    rewrite H1. reflexivity. }
  assert (E : StandaloneSuggest.checkPatterns 0.6
                [WatcherFacts.exportRequest; SuggestFacts.listed] SuggestFacts.observed
              = Some (StandaloneRest.ActiveSuggestion.mk
                        SuggestFacts.exportSignature
                        "GET https://app.example/api/export" (INR 2 / INR 3)%R
                        "https://app.example/api/export" "GET")).
  { unfold StandaloneSuggest.checkPatterns.
    change (length [WatcherFacts.exportRequest; SuggestFacts.listed] <? 2) with false.
    cbv iota.
    change (rev [WatcherFacts.exportRequest; SuggestFacts.listed])
      with [SuggestFacts.listed; WatcherFacts.exportRequest].
    cbv iota.
    change (Js.dget (Standalone.Request.signature SuggestFacts.listed)
                    (Standalone.patterns SuggestFacts.observed))
      with (Some (Standalone.Followers 3
                    [(SuggestFacts.homeSignature, 1); (SuggestFacts.exportSignature, 2)])).
    cbv iota. rewrite Hb.
    change (Js.truthy SuggestFacts.exportSignature) with true. cbv iota.
    exact Hs. }
  eexists. split; [exact E|].
  exact (@checkPatterns_suggests_most_frequent 0.6
           [WatcherFacts.exportRequest; SuggestFacts.listed]
           [WatcherFacts.exportRequest] SuggestFacts.listed SuggestFacts.observed 3
           [(SuggestFacts.homeSignature, 1); (SuggestFacts.exportSignature, 2)]
           _ eq_refl eq_refl ltac:(lia) eq_refl E).
Defined.

(** ** The exact path when every request has an id of its own *)

Module UniqueIds.
Import Js JsFacts PatternEngine EngineShape EngineFrame RebuildFacts.

(** The requests of the [AddRequest] events, in order. *)
Definition added (events : list Event) : list NetworkRequest.t :=
  flat_map (fun e => match e with
                     | AddRequest _ request => [request]
                     | _ => []
                     end) events.

Section Lists.
Variable A : Type.
Implicit Types g l s : list A.

(** [g] is a run of consecutive elements of [l]; [s] is the end of [l]. *)
Definition segment g l : Prop := exists pre post, l = (pre ++ g ++ post)%list.
Definition suffix s l : Prop := exists older, l = (older ++ s)%list.

Lemma segment_of_suffix g s l : segment g s -> suffix s l -> segment g l.
Proof.
  intros [pre [post ->]] [older ->]. exists (older ++ pre)%list, post.
  now rewrite <- app_assoc.
Qed.

Lemma segment_snoc g l x : segment g l -> segment g (l ++ [x]).
Proof.
  intros [pre [post ->]]. exists pre, (post ++ [x])%list.
  now rewrite <- !app_assoc.
Qed.

Lemma suffix_snoc s l x : suffix s l -> suffix (s ++ [x]) (l ++ [x]).
Proof. intros [older ->]. exists older. now rewrite <- app_assoc. Qed.

Lemma suffix_skipn n s l : suffix s l -> suffix (skipn n s) l.
Proof.
  intros [older ->]. exists (older ++ firstn n s)%list.
  now rewrite <- app_assoc, firstn_skipn.
Qed.

Lemma suffix_tl s l : suffix s l -> suffix (tl s) l.
Proof. intros H. destruct s as [|x s]; [exact H|]. apply (@suffix_skipn 1 _ _ H). Qed.

Lemma suffix_refl l : suffix l l.
Proof. now exists []. Qed.

Lemma NoDup_split_unique (x : A) l1 : forall r1 l2 r2,
  NoDup (l1 ++ x :: r1) -> (l1 ++ x :: r1 = l2 ++ x :: r2)%list -> l1 = l2 /\ r1 = r2.
Proof.
  induction l1 as [|a l1 IH]; intros r1 l2 r2 Hnd E.
  - destruct l2 as [|b l2]; simpl in E.
    + inversion E. auto.
    + inversion E; subst. inversion Hnd as [|? ? Hin _]; subst.
      exfalso. apply Hin. apply in_or_app. right. now left.
  - destruct l2 as [|b l2]; simpl in E.
    + inversion E; subst. inversion Hnd as [|? ? Hin _]; subst.
      exfalso. apply Hin. apply in_or_app. right. now left.
    + inversion E; subst. inversion Hnd as [|? ? _ Hnd']; subst.
      destruct (IH _ _ _ Hnd' H1) as [-> ->]. auto.
Qed.

End Lists.

(** *** Keys of comma-free ids: a prefix of characters is a prefix of ids *)

Lemma commaFree_cons c s :
  commaFree (String c s) -> Ascii.eqb c comma = false /\ commaFree s.
Proof.
  unfold commaFree. simpl. destruct (Ascii.eqb c comma); [discriminate|].
  pose proof (split_nonempty s) as Hne.
  destruct (split s) as [|tok toks]; [congruence|].
  intros H. inversion H. auto.
Qed.

Lemma join_cons2 x y rest :
  join (x :: y :: rest) = (x ++ String comma (join (y :: rest)))%string.
Proof. reflexivity. Qed.

Lemma prefix_cons a s b t :
  String.prefix (String a s) (String b t)
  = if ascii_dec a b then String.prefix s t else false.
Proof. reflexivity. Qed.

(** The first comma of the shorter key falls on the first comma of the
    longer one. *)
Lemma align first : forall X token tail,
  commaFree first -> commaFree token ->
  (tail = EmptyString \/ exists Y, tail = String comma Y) ->
  String.prefix (first ++ String comma X) (token ++ tail) = true ->
  first = token /\ exists Y, tail = String comma Y /\ String.prefix X Y = true.
Proof.
  induction first as [|a first IH]; intros X token tail Hf Ht Htail Hp.
  - cbn [append] in Hp. destruct token as [|c token].
    + cbn [append] in Hp. destruct Htail as [->|[Y ->]]; [discriminate|].
      rewrite prefix_cons in Hp.
      destruct (ascii_dec comma comma) as [_|Hn]; [|now elim Hn].
      split; [reflexivity|]. exists Y. auto.
    + cbn [append] in Hp. rewrite prefix_cons in Hp.
      destruct (ascii_dec comma c) as [<-|_]; [|discriminate].
      apply commaFree_cons in Ht. destruct Ht as [Hc _].
      rewrite Ascii.eqb_refl in Hc. discriminate.
  - apply commaFree_cons in Hf. destruct Hf as [Ha Hf].
    cbn [append] in Hp. destruct token as [|c token].
    + cbn [append] in Hp. destruct Htail as [->|[Y ->]]; [discriminate|].
      rewrite prefix_cons in Hp.
      destruct (ascii_dec a comma) as [->|_]; [|discriminate].
      rewrite Ascii.eqb_refl in Ha. discriminate.
    + cbn [append] in Hp. rewrite prefix_cons in Hp.
      destruct (ascii_dec a c) as [<-|_]; [|discriminate].
      apply commaFree_cons in Ht. destruct Ht as [_ Ht].
      destruct (IH X token tail Hf Ht Htail Hp) as [-> HY]. auto.
Qed.

Lemma prefix_join_step l1 l2 lr P :
  Forall commaFree (l1 :: l2 :: lr) -> Forall commaFree P ->
  String.prefix (join (l1 :: l2 :: lr)) (join P) = true ->
  exists p2 Pr, P = l1 :: p2 :: Pr /\
                String.prefix (join (l2 :: lr)) (join (p2 :: Pr)) = true.
Proof.
  intros Hl HP Hp. inversion Hl as [|? ? Hl1 _]; subst.
  rewrite join_cons2 in Hp.
  destruct P as [|p1 P'].
  - exfalso. destruct l1; simpl in Hp; discriminate.
  - inversion HP as [|? ? Hp1 _]; subst.
    assert (Hj : exists tail,
               join (p1 :: P') = (p1 ++ tail)%string /\
               (tail = EmptyString \/ exists Y, tail = String comma Y) /\
               (forall Y, tail = String comma Y ->
                          exists p2 Pr, P' = p2 :: Pr /\ Y = join (p2 :: Pr))).
    { destruct P' as [|p2 Pr].
      - exists EmptyString. split; [|split].
        + unfold join. simpl. clear. induction p1; simpl; congruence.
        + now left.
        + intros Y HY. discriminate.
      - exists (String comma (join (p2 :: Pr))). split; [|split].
        + apply join_cons2.
        + right. eauto.
        + intros Y HY. inversion HY. eauto. }
    destruct Hj as [tail [Hj [Htail Hnext]]]. rewrite Hj in Hp.
    destruct (@align l1 _ p1 tail Hl1 Hp1 Htail Hp) as [-> [Y [HY HXY]]].
    destruct (Hnext Y HY) as [p2 [Pr [-> ->]]].
    exists p2, Pr. auto.
Qed.

(** A key of comma-free ids that starts, as a string, with a key of at
    least two comma-free ids starts with the same id and has at least as
    many ids. *)
Lemma prefix_join lr : forall l1 P,
  lr <> [] ->
  Forall commaFree (l1 :: lr) -> Forall commaFree P ->
  String.prefix (join (l1 :: lr)) (join P) = true ->
  exists Pr, P = l1 :: Pr /\ length lr <= length Pr.
Proof.
  induction lr as [|l2 lr IH]; intros l1 P Hne Hl HP Hp; [congruence|].
  destruct (prefix_join_step Hl HP Hp) as [p2 [Pr [-> Hp']]].
  destruct lr as [|l3 lr].
  - exists (p2 :: Pr). split; [reflexivity | simpl; lia].
  - inversion Hl as [|? ? _ Hl']; subst. inversion HP as [|? ? _ HP']; subst.
    destruct (IH l2 (p2 :: Pr) ltac:(discriminate) Hl' HP' Hp') as [Pr' [E Hlen]].
    exists (p2 :: Pr). split; [reflexivity|]. rewrite E. simpl in *. lia.
Qed.

(** Among distinct comma-free ids, no key made of consecutive ids extends
    the key made of the last ids. *)
Lemma no_extension (ids before P after before' l : list string) :
  NoDup ids -> Forall commaFree ids ->
  ids = (before ++ P ++ after)%list -> ids = (before' ++ l)%list ->
  2 <= length l ->
  extends (join P) (join l) = false.
Proof.
  intros Hnd Hcf HP Hl Hlen. unfold extends, startsWith.
  destruct (String.prefix (join l) (join P)) eqn:Hp; [|reflexivity].
  simpl. apply negb_false_iff, String.eqb_eq. f_equal.
  destruct l as [|l1 [|l2 lr]]; simpl in Hlen; try lia.
  assert (HcfP : Forall commaFree P).
  { rewrite HP in Hcf. apply Forall_app in Hcf. destruct Hcf as [_ Hcf].
    apply Forall_app in Hcf. tauto. }
  assert (Hcfl : Forall commaFree (l1 :: l2 :: lr)).
  { rewrite Hl in Hcf. apply Forall_app in Hcf. tauto. }
  destruct (@prefix_join (l2 :: lr) l1 P ltac:(discriminate) Hcfl HcfP Hp)
    as [Pr [-> Hle]].
  assert (E : (before ++ l1 :: (Pr ++ after) = before' ++ l1 :: l2 :: lr)%list).
  { rewrite <- Hl, HP. reflexivity. }
  assert (Hnd' : NoDup (before ++ l1 :: (Pr ++ after))).
  { rewrite HP in Hnd. exact Hnd. }
  destruct (@NoDup_split_unique _ _ _ _ _ _ Hnd' E) as [_ Hr].
  assert (Hlen' : length (Pr ++ after) = length (l2 :: lr)) by now rewrite Hr.
  rewrite length_app in Hlen'.
  assert (Ha : after = []) by (destruct after; [reflexivity | simpl in *; lia]).
  subst after. rewrite app_nil_r in Hr. now rewrite Hr.
Qed.

(** *** The stored keys are made of consecutive requests of the log *)

(** What holds of an engine that has logged [log]: the window and the
    stored log are ends of it, and every key of the pattern table joins
    the ids of at least two consecutive requests of it. *)
Definition mined (log : list NetworkRequest.t) (st : t) : Prop :=
  suffix (currentSequence st) log /\
  suffix (Storage.requestHistory (storage st)) log /\
  forall key, In key (keys (Storage.patterns (storage st))) ->
              exists g, segment g log /\ 2 <= length g /\
                        key = join (map NetworkRequest.id g).

Lemma in_windows maxLength history patternLength i :
  In (patternLength, i) (windows maxLength history) ->
  2 <= patternLength /\ i + patternLength <= length history.
Proof.
  unfold windows. rewrite in_flat_map. intros [len [Hlen Hin]].
  apply in_map_iff in Hin. destruct Hin as [j [E Hj]]. inversion E; subst.
  apply in_seq in Hlen. apply in_seq in Hj. lia.
Qed.

Lemma slice_segment (history : list NetworkRequest.t) patternLength i :
  i + patternLength <= length history ->
  segment (slice i (i + patternLength) history) history /\
  length (slice i (i + patternLength) history) = patternLength.
Proof.
  intros Hle. unfold slice.
  replace (i + patternLength - i) with patternLength by lia. split.
  - exists (firstn i history), (skipn patternLength (skipn i history)).
    now rewrite firstn_skipn, firstn_skipn.
  - rewrite length_firstn, length_skipn. lia.
Qed.

Lemma fold_increment_keys (W : Type) (f : W -> string) key ws : forall d,
  In key (keys (fold_left (fun patterns w => increment (f w) patterns) ws d)) ->
  In key (keys d) \/ exists w, In w ws /\ key = f w.
Proof.
  induction ws as [|w ws IH]; intros d H; simpl in H; [now left|].
  destruct (IH _ H) as [Hk|[w' [Hw' E]]].
  - unfold increment in Hk. apply in_keys_dset in Hk. destruct Hk as [->|Hk].
    + right. exists w. split; [now left | reflexivity].
    + now left.
  - right. exists w'. split; [now right | assumption].
Qed.

Lemma minePatterns_keys key maxLength history :
  In key (keys (minePatterns maxLength history)) ->
  exists g, segment g history /\ 2 <= length g /\ key = join (map NetworkRequest.id g).
Proof.
  rewrite minePatterns_fold. intros H.
  apply fold_increment_keys in H. destruct H as [[]|[[len i] [Hw ->]]].
  destruct (@in_windows _ _ _ _ Hw) as [H2 Hle].
  destruct (@slice_segment history len i Hle) as [Hs Hl].
  exists (slice i (i + len) history). simpl. split; [assumption|].
  split; [lia | reflexivity].
Qed.

Lemma saveAll_keys key found : forall store,
  In key (keys (Storage.patterns
                  (fold_left (fun store entry =>
                                Storage.savePattern (split (fst entry)) (snd entry) store)
                             found store))) ->
  In key (keys (Storage.patterns store)) \/ In key (keys found).
Proof.
  induction found as [|[p c] found IH]; intros store H; simpl in H; [now left|].
  destruct (IH _ H) as [Hk|Hk].
  - unfold Storage.savePattern in Hk. rewrite join_split in Hk. simpl in Hk.
    apply in_keys_dset in Hk. destruct Hk as [->|Hk]; [right; now left | now left].
  - right. now right.
Qed.

Lemma analyze_mined log st : mined log st -> mined log (analyzeHistoricalPatterns st).
Proof.
  intros [Hw [Hh Hk]]. unfold analyzeHistoricalPatterns.
  destruct (isRunning st); simpl; [|repeat split; assumption].
  unfold mined. simpl.
  split; [assumption|]. split; [now rewrite saveAll_history|].
  intros key Hin. apply saveAll_keys in Hin. destruct Hin as [Hin|Hin].
  - exact (Hk key Hin).
  - apply minePatterns_keys in Hin. destruct Hin as [g [Hs [Hl E]]].
    exists g. split; [|split; assumption].
    exact (@segment_of_suffix _ _ _ _ Hs Hh).
Qed.

Lemma pushed_mined log request st :
  mined log st -> mined (log ++ [request]) (pushed request st).
Proof.
  intros [Hw [Hh Hk]].
  destruct (pushed_frame request st) as [_ [Hs [Hst _]]].
  unfold mined. rewrite Hs, Hst. split; [|split].
  - destruct (_ <? _); [apply suffix_tl|]; now apply suffix_snoc.
  - unfold Storage.saveRequest. cbn [Storage.requestHistory Storage.withHistory].
    destruct (maxStoredPatterns st
              <? length (Storage.requestHistory (storage st) ++ [request]));
      [apply suffix_skipn|]; now apply suffix_snoc.
  - intros key Hin. destruct (Hk key Hin) as [g [Hg [Hl E]]].
    exists g. split; [now apply segment_snoc | split; assumption].
Qed.

Lemma predictNextAction_mined log now st :
  mined log st -> mined log (predictNextAction now st).
Proof.
  intros [Hw [Hh Hk]].
  destruct (predictNextAction_frame now st) as [_ [Hs [_ [_ [_ [_ [_ [Hq _]]]]]]]].
  cbv zeta in Hs, Hq. unfold mined.
  rewrite Hs, Hq, predictNextAction_patterns. auto.
Qed.

Lemma scheduled_mined log st : mined log st -> mined log (scheduled st).
Proof.
  intros H. destruct (scheduled_frame st) as [_ [Hs [Hst _]]].
  unfold mined. rewrite Hs, Hst. exact H.
Qed.

Lemma stop_mined log st : mined log st -> mined log (stop st).
Proof.
  intros H. unfold stop. destruct (isRunning st); simpl; [|exact H].
  destruct (patternAnalysisTimer st) as [[|h]|]; exact H.
Qed.

Lemma start_mined log st : mined log st -> mined log (start st).
Proof.
  intros H. unfold start. destruct (isRunning st); [exact H|].
  apply analyze_mined. exact H.
Qed.

Lemma timerFired_mined log h st : mined log st -> mined log (timerFired h st).
Proof.
  intros H. unfold timerFired.
  destruct (existsb (Nat.eqb h) (pendingTimers st)); [|exact H].
  exact (@analyze_mined _ _ H).
Qed.

(** The log of an engine: it grows by the requests added while running. *)
Lemma handle_mined log e st :
  mined log st ->
  mined (log ++ (if isRunning st then added [e] else []))%list (handle e st).
Proof.
  intros H. destruct e as [| |now request|h]; simpl.
  - destruct (isRunning st); rewrite app_nil_r; now apply start_mined.
  - destruct (isRunning st); rewrite app_nil_r; now apply stop_mined.
  - destruct (isRunning st) eqn:Hr.
    + rewrite addRequest_running by assumption.
      apply scheduled_mined, predictNextAction_mined, pushed_mined. exact H.
    + rewrite app_nil_r. unfold addRequest. rewrite Hr. exact H.
  - destruct (isRunning st); rewrite app_nil_r; now apply timerFired_mined.
Qed.

Lemma added_app events1 events2 :
  added (events1 ++ events2) = (added events1 ++ added events2)%list.
Proof. unfold added. apply flat_map_app. Qed.

Lemma run_snoc events e st : run (events ++ [e]) st = handle e (run events st).
Proof. unfold run. rewrite fold_left_app. reflexivity. Qed.

(** From an empty store: the engine has logged some of the requests
    added, in their order and each once. *)
Lemma run_mined opts events :
  NoDup (map NetworkRequest.id (added events)) ->
  exists log,
    incl log (added events) /\ NoDup (map NetworkRequest.id log) /\
    mined log (run events (new opts Storage.empty)).
Proof.
  induction events as [|e events IH] using rev_ind; intros Hnd.
  - exists []. split; [intros x []|]. split; [constructor|].
    unfold mined, new. simpl. split; [apply suffix_refl|].
    split; [apply suffix_refl | intros key []].
  - rewrite added_app, map_app in Hnd.
    destruct (IH (NoDup_app_remove_r _ _ Hnd)) as [log [Hincl [Hlog Hm]]].
    rewrite run_snoc, added_app.
    exists (log ++ (if isRunning (run events (new opts Storage.empty))
                    then added [e] else []))%list.
    split; [|split].
    + apply incl_app; [now apply incl_appl|].
      destruct (isRunning _); [apply incl_appr, incl_refl | intros x []].
    + destruct (isRunning _); [|now rewrite app_nil_r].
      destruct e as [| |now request|h]; simpl; try now rewrite app_nil_r.
      rewrite map_app. simpl.
      apply NoDup_app; [assumption | repeat constructor; intros [] |].
      intros x Hx [<-|[]]. simpl in Hnd.
      apply NoDup_remove_2 in Hnd. apply Hnd. rewrite app_nil_r.
      apply in_map_iff in Hx. destruct Hx as [r [E Hr]]. rewrite <- E.
      apply in_map. now apply Hincl.
    + now apply handle_mined.
Qed.

(** *** No stored key extends a lookup key *)

Lemma scanPatterns_silent now patternLength lookupPattern entries st :
  (forall key, In key (keys entries) -> extends key lookupPattern = false) ->
  scanPatterns now patternLength lookupPattern entries st = None.
Proof.
  induction entries as [|[pattern frequency] entries IH]; intros H; [reflexivity|].
  simpl. rewrite (H pattern) by now left.
  apply IH. intros key Hin. apply H. now right.
Qed.

Lemma tryLengths_silent now patterns sequenceIds st : forall longest,
  (forall patternLength key,
     2 <= patternLength <= longest -> In key (keys patterns) ->
     extends key (lookupKey patternLength sequenceIds) = false) ->
  tryLengths now patterns sequenceIds longest st = None.
Proof.
  induction longest as [|shorter IH]; intros H; [reflexivity|].
  cbn [tryLengths].
  destruct (Nat.leb_spec 2 (S shorter)) as [Hle|_]; [|reflexivity].
  rewrite scanPatterns_silent.
  - apply IH. intros patternLength key Hp Hin. apply H; [lia | assumption].
  - intros key Hin. apply H; [lia | assumption].
Qed.

Lemma exactMatch_silent now log st :
  mined log st ->
  NoDup (map NetworkRequest.id log) ->
  Forall commaFree (map NetworkRequest.id log) ->
  exactMatch now st = None.
Proof.
  intros [[older Hw] [_ Hk]] Hnd Hcf. unfold exactMatch.
  apply tryLengths_silent. intros patternLength key Hp Hin.
  destruct (Hk key Hin) as [g [[pre [post Hg]] [Hl ->]]].
  unfold lookupKey, sliceLast.
  set (ids := map NetworkRequest.id (currentSequence st)).
  assert (Hlen : length ids = length (currentSequence st)) by apply length_map.
  apply (@no_extension (map NetworkRequest.id log)
           (map NetworkRequest.id pre) (map NetworkRequest.id g)
           (map NetworkRequest.id post)
           (map NetworkRequest.id older ++ firstn (length ids - patternLength) ids)
           (skipn (length ids - patternLength) ids)); auto.
  - rewrite Hg, !map_app. reflexivity.
  - rewrite <- app_assoc, firstn_skipn. unfold ids. rewrite Hw, map_app. reflexivity.
  - rewrite length_skipn. lia.
Qed.

Lemma predictNextAction_fuzzy now st :
  exactMatch now st = None -> predictNextAction now st = fuzzyMatchAction st.
Proof.
  intros H. unfold predictNextAction. rewrite H.
  destruct (length (currentSequence st) <? 2) eqn:Hl; [|reflexivity].
  unfold fuzzyMatchAction, fuzzyMatch. now rewrite Hl.
Qed.

End UniqueIds.

(** X28. With an id of its own for every request, the exact path never
    predicts.  Take an engine constructed over an empty store and any
    sequence of starts, stops, requests and timeouts in which the requests
    have pairwise different ids that hold no comma (the interceptor gives
    every request a fresh random id of digits and lower-case letters).  Then
    no stored pattern ever extends the
    key of the last requests of the window, the exact n-gram path yields
    nothing, and what a further such request makes [addRequest] predict is
    what the fuzzy path alone predicts. *)
Theorem exact_path_silent_with_unique_ids
        (opts : CellOptions.t) (events : list PatternEngine.Event)
        (now : Z) (request : NetworkRequest.t) :
  NoDup (map NetworkRequest.id (UniqueIds.added events ++ [request])) ->
  Forall JsFacts.commaFree (map NetworkRequest.id (UniqueIds.added events ++ [request])) ->
  let st := PatternEngine.run events (PatternEngine.new opts Storage.empty) in
  PatternEngine.exactMatch now st = None /\
  (PatternEngine.isRunning st = true ->
   PatternEngine.addRequest now request st
   = EngineFrame.scheduled
       (PatternEngine.fuzzyMatchAction (EngineFrame.pushed request st))).
Proof.
  intros Hnd Hcf st. rewrite map_app in Hnd, Hcf.
  destruct (@UniqueIds.run_mined opts events (NoDup_app_remove_r _ _ Hnd))
    as [log [Hincl [Hlog Hm]]]. fold st in Hm.
  assert (Hids : incl (map NetworkRequest.id log)
                      (map NetworkRequest.id (UniqueIds.added events))).
  { intros x Hx. apply in_map_iff in Hx. destruct Hx as [r [<- Hr]].
    apply in_map. now apply Hincl. }
  assert (Hcflog : Forall JsFacts.commaFree (map NetworkRequest.id log)).
  { apply Forall_app in Hcf. destruct Hcf as [Hcf _].
    rewrite Forall_forall in *. intros x Hx. apply Hcf, Hids, Hx. }
  split.
  - exact (@UniqueIds.exactMatch_silent now log st Hm Hlog Hcflog).
  - intros Hr. rewrite EngineFrame.addRequest_running by assumption. f_equal.
    apply UniqueIds.predictNextAction_fuzzy.
    apply (@UniqueIds.exactMatch_silent now (log ++ [request])).
    + now apply UniqueIds.pushed_mined.
    + rewrite map_app. simpl.
      apply NoDup_app; [assumption | repeat constructor; intros [] |].
      intros x Hx [<-|[]]. simpl in Hnd.
      apply NoDup_remove_2 in Hnd. apply Hnd. rewrite app_nil_r.
      now apply Hids.
    + rewrite map_app. apply Forall_app. split; [assumption|].
      apply Forall_app in Hcf. tauto.
Qed.

Lemma exact_path_silent_with_unique_ids_witness :
  PatternEngine.exactMatch 5000
    (PatternEngine.run [PatternEngine.Start;
                        PatternEngine.AddRequest 1000 (RebuildFacts.req "a");
                        PatternEngine.AddRequest 2000 (RebuildFacts.req "b");
                        PatternEngine.TimerFired 1;
                        PatternEngine.AddRequest 3000 (RebuildFacts.req "c")]
       (PatternEngine.new (CellOptions.mk None None) Storage.empty)) = None.
Proof.
  apply (proj1 (@exact_path_silent_with_unique_ids
                  (CellOptions.mk None None)
                  [PatternEngine.Start;
                   PatternEngine.AddRequest 1000 (RebuildFacts.req "a");
                   PatternEngine.AddRequest 2000 (RebuildFacts.req "b");
                   PatternEngine.TimerFired 1;
                   PatternEngine.AddRequest 3000 (RebuildFacts.req "c")]
                  5000 (RebuildFacts.req "d")
                  ltac:(simpl; repeat (apply NoDup_cons;
                                       [simpl; intuition discriminate|]);
                        apply NoDup_nil)
                  ltac:(simpl; repeat (apply Forall_cons; [reflexivity|]);
                        apply Forall_nil))).
Defined.
